(** * Load-balancing simulator: policies, driver and their properties

    A shallow embedding of the C++ sources of the simulator
    (the plain program with wall-clock timing, and the two listings of
    [performance_comparison.cpp]) together with the properties that its
    specification states about them.

    Modelling conventions.
    - [double] has two readings, and the classes are embedded once for
      each.  The first part reads a [double] as an exact rational ([Q]):
      rounding, infinities and NaN are not represented, and a division
      whose divisor is zero has no rational result and is modelled as a
      failure ([None]).  It carries the properties of the control
      structure (which server a task goes to, what a run leaves untouched)
      and those the specification states for exact arithmetic (the
      pheromone matrix, the roulette wheel), and it holds the server of
      the first listing, whose load is a count.  The module [Binary64]
      reads a [double] as an IEEE 754 binary64 number (Rocq's primitive
      floats): it carries the properties that turn on the numbers the
      program computes (loads, totals, throughput).
    - [int] values are integers ([Z]); every [int] of the program is an
      index, an identifier, a capability or a count, far from the 32-bit
      range for any pool that fits in memory.
    - Indexing a [std::vector] outside its bounds is undefined behaviour;
      it is modelled as failure ([None]).
    - Member functions that mutate their object are computations in a small
      state-and-failure monad over the object ([Method]).
    - The random sources ([std::random_device] seeding [std::mt19937]) are
      an explicit oracle ([RandomDevice]) giving the value of each draw. *)

From Stdlib Require Import List ZArith QArith Qpower Lia Lqa Bool.
From Stdlib Require Import Permutation.
From Stdlib Require PrimFloat Uint63.
Import ListNotations.

Set Implicit Arguments.

(** ** Numbers *)

(** [x < y] on [double], as a boolean test. *)
Definition Qlt_bool (x y : Q) : bool := negb (Qle_bool y x).

(** [std::pow(x, e)] for the exponents the program uses (1.0 and 2.0),
    given as integers. *)
Definition pow (x : Q) (e : Z) : Q := Qpower x e.

(** Conversion [double -> int]: truncation toward zero. *)
Definition trunc (x : Q) : Z := Z.quot (Qnum x) (Zpos (Qden x)).

(** [a / b] on [double] where the result is a number. *)
Definition checked_div (a b : Q) : option Q :=
  if Qeq_bool b 0 then None else Some (a / b).

(** Sum of a sequence of weights, from the left, starting at [0.0]. *)
Definition sum (ws : list Q) : Q := fold_left Qplus ws 0.

(** ** Vectors *)

Module Vec.

Fixpoint update_nth {A : Type} (n : nat) (f : A -> A) (v : list A)
         {struct v} : option (list A) :=
  match v, n with
  | [], _ => None
  | x :: v', O => Some (f x :: v')
  | x :: v', S n' =>
      match update_nth n' f v' with
      | Some w => Some (x :: w)
      | None => None
      end
  end.

(** [v[i]] read. *)
Definition at_ {A : Type} (v : list A) (i : Z) : option A :=
  if (i <? 0)%Z then None else nth_error v (Z.to_nat i).

(** [v[i] = f(v[i])], in place. *)
Definition modify {A : Type} (i : Z) (f : A -> A) (v : list A)
  : option (list A) :=
  if (i <? 0)%Z then None else update_nth (Z.to_nat i) f v.

(** [v.size()] converted to [int]. *)
Definition size {A : Type} (v : list A) : Z := Z.of_nat (length v).

(** The index values of [for (int i = 0; i < n; ++i)]. *)
Definition range (n : Z) : list Z := map Z.of_nat (seq 0 (Z.to_nat n)).

End Vec.

(** ** Member functions as state-and-failure computations *)

Definition Method (St A : Type) : Type := St -> option (A * St).

Definition ret {St A : Type} (a : A) : Method St A :=
  fun st => Some (a, st).

Definition bind {St A B : Type} (m : Method St A) (k : A -> Method St B)
  : Method St B :=
  fun st => match m st with
            | Some (a, st') => k a st'
            | None => None
            end.

Definition get {St : Type} : Method St St := fun st => Some (st, st).

Definition put {St : Type} (st : St) : Method St unit :=
  fun _ => Some (tt, st).

(** Lifting of a partial operation: failure is undefined behaviour. *)
Definition lift {St A : Type} (o : option A) : Method St A :=
  fun st => match o with
            | Some a => Some (a, st)
            | None => None
            end.

Declare Scope method_scope.
Delimit Scope method_scope with method.
Notation "x <- m ;; k" := (bind m (fun x => k))
  (at level 100, m at next level, right associativity) : method_scope.
Notation "m ;; k" := (bind m (fun _ => k))
  (at level 100, right associativity) : method_scope.
Open Scope method_scope.

(** Range-based [for] loop. *)
Fixpoint for_each {St X : Type} (xs : list X) (body : X -> Method St unit)
  : Method St unit :=
  match xs with
  | [] => ret tt
  | x :: xs' => body x ;; for_each xs' body
  end.

(** A local object [a], on which [m] runs and which is then destroyed. *)
Definition with_local {St A X : Type} (a : A) (m : Method A X)
  : Method St X :=
  fun st => match m a with
            | Some (x, _) => Some (x, st)
            | None => None
            end.

(** Final object of a computation, when it is defined. *)
Definition exec {St A : Type} (m : Method St A) (st : St) : option St :=
  match m st with
  | Some (_, st') => Some st'
  | None => None
  end.

(** ** Servers *)

(** The operations of [Server] that the policies use.  The three listings
    declare three [Server] classes with these members. *)
Class ServerLike (S : Type) : Type := {
  getId : S -> Z;
  getLoad : S -> Q;
  addLoad : Q -> S -> S;
  resetLoad : S -> S
}.

(** [Server::getCapability], of the two capability-aware listings. *)
Class Capable (S : Type) : Type := {
  getCapability : S -> Z
}.

(** The plain program: [Server(int id)]. *)
Module Plain.

Record Server : Type := { id : Z; load : Q }.

Definition newServer (i : Z) : Server := {| id := i; load := 0 |}.

#[global] Instance server_like : ServerLike Server := {
  getId s := id s;
  getLoad s := load s;
  addLoad taskLoad s := {| id := id s; load := load s + taskLoad |};
  resetLoad s := {| id := id s; load := 0 |}
}.

End Plain.

(** Second listing of [performance_comparison.cpp]:
    [Server(int id, int capability)] with a numeric [load]. *)
Module Capacitated.

Record Server : Type := { id : Z; capability : Z; load : Q }.

Definition newServer (i c : Z) : Server :=
  {| id := i; capability := c; load := 0 |}.

#[global] Instance server_like : ServerLike Server := {
  getId s := id s;
  getLoad s := load s;
  addLoad taskLoad s :=
    {| id := id s; capability := capability s; load := load s + taskLoad |};
  resetLoad s := {| id := id s; capability := capability s; load := 0 |}
}.

#[global] Instance capable : Capable Server := {
  getCapability s := capability s
}.

End Capacitated.

(** First listing of [performance_comparison.cpp]: the server keeps the
    queue [loads] of the tasks it was given; [addLoad(int time)] appends to
    it (the [double] weight is converted to [int]) and [getLoad] is the
    length of the queue.  [total_load] is not initialised by the
    constructor: its initial content is the parameter [garbage].  The
    member that empties the queue is spelled [reset] in this listing.  The
    member [update], which neither a policy nor the driver calls, is left
    out. *)
Module Queued.

Record Server : Type := {
  id : Z;
  capability : Z;
  load : Q;
  total_load : Z;
  loads : list Z
}.

Definition newServer (garbage : Z) (i c : Z) : Server :=
  {| id := i; capability := c; load := 0;
     total_load := garbage; loads := [] |}.

Definition reset (s : Server) : Server :=
  {| id := id s; capability := capability s; load := load s;
     total_load := 0%Z; loads := [] |}.

#[global] Instance server_like : ServerLike Server := {
  getId s := id s;
  getLoad s := inject_Z (Z.of_nat (length (loads s)));
  addLoad time s :=
    {| id := id s; capability := capability s; load := load s;
       total_load := (total_load s + 1)%Z;
       loads := loads s ++ [trunc time] |};
  resetLoad := reset
}.

#[global] Instance capable : Capable Server := {
  getCapability s := capability s
}.

End Queued.

(** ** Random sources *)

(** The values drawn from the generators: [next_int k hi] is the value of
    the [k]-th draw of a [std::uniform_int_distribution<>(0, hi)] and
    [next_unit k] the [k]-th canonical variate in [[0, 1)] behind a
    [std::uniform_real_distribution<>]. *)
Record RandomDevice : Type := {
  next_int : nat -> Z -> Z;
  next_unit : nat -> Q
}.

(** What the standard library guarantees about the draws. *)
Definition fair (rd : RandomDevice) : Prop :=
  (forall k hi, (0 <= hi)%Z -> (0 <= next_int rd k hi <= hi)%Z) /\
  (forall k, 0 <= next_unit rd k /\ next_unit rd k < 1).

(** [dis(gen)] for [std::uniform_int_distribution<> dis(lo, hi)]; the
    distribution requires [lo <= hi]. *)
Definition uniform_int (rd : RandomDevice) (k : nat) (lo hi : Z) : option Z :=
  if (hi <? lo)%Z then None else Some (lo + next_int rd k (hi - lo))%Z.

(** ** Policies *)

(** The interface a policy class offers to [LoadBalancer<...>]: a
    constructor from the pool (which copies it) and [balanceLoad]. *)
Class LoadBalancingAlgorithm (S A : Type) : Type := {
  construct : list S -> A;
  balanceLoad : list Q -> Method A unit
}.

(** Positions paired with elements, for loops that draw once per round. *)
Definition enumerate {X : Type} (xs : list X) : list (nat * X) :=
  combine (seq 0 (length xs)) xs.

Module RandomLoadBalancing.
Section WithServer.
Context {S : Type} `{ServerLike S}.

Record t : Type := { servers : list S }.

Definition new (pool : list S) : t := {| servers := pool |}.

Definition balanceLoad (rd : RandomDevice) (taskLoads : list Q)
  : Method t unit :=
  this0 <- get ;;
  let hi := (Vec.size (servers this0) - 1)%Z in
  for_each (enumerate taskLoads) (fun '(k, taskLoad) =>
    this <- get ;;
    randomServer <- lift (uniform_int rd k 0 hi) ;;
    servers' <- lift (Vec.modify randomServer (addLoad taskLoad)
                                 (servers this)) ;;
    put {| servers := servers' |}).

Definition algorithm (rd : RandomDevice) : LoadBalancingAlgorithm S t :=
  Build_LoadBalancingAlgorithm new (balanceLoad rd).

End WithServer.
End RandomLoadBalancing.

Module RoundRobinLoadBalancing.
Section WithServer.
Context {S : Type} `{ServerLike S}.

Record t : Type := { servers : list S; currentServer : Z }.

Definition new (pool : list S) : t :=
  {| servers := pool; currentServer := 0 |}.

(** [(currentServer + 1) % servers.size()]; the remainder by zero is
    undefined. *)
Definition advance (cursor size : Z) : option Z :=
  if (size =? 0)%Z then None else Some ((cursor + 1) mod size)%Z.

Definition balanceLoad (taskLoads : list Q) : Method t unit :=
  for_each taskLoads (fun taskLoad =>
    this <- get ;;
    servers' <- lift (Vec.modify (currentServer this) (addLoad taskLoad)
                                 (servers this)) ;;
    next <- lift (advance (currentServer this) (Vec.size servers')) ;;
    put {| servers := servers'; currentServer := next |}).

Definition algorithm : LoadBalancingAlgorithm S t :=
  Build_LoadBalancingAlgorithm new balanceLoad.

End WithServer.
End RoundRobinLoadBalancing.

(** The scan for the least loaded server, written out identically in
    [WeightedRoundRobinLoadBalancing::updateCurrentServer] and in
    [ActiveClusteringLoadBalancing::balanceLoad]: the pair is
    [(minLoad, minLoadServer)]. *)
Section MinScan.
Context {S : Type} `{ServerLike S}.

Definition min_scan_step (acc : Q * Z) (server : S) : Q * Z :=
  if Qlt_bool (getLoad server) (fst acc)
  then (getLoad server, getId server)
  else acc.

Definition min_scan (servers : list S) : option Z :=
  match Vec.at_ servers 0 with
  | Some first =>
      Some (snd (fold_left min_scan_step servers
                           (getLoad first, getId first)))
  | None => None
  end.

End MinScan.

Module WeightedRoundRobinLoadBalancing.
Section WithServer.
Context {S : Type} `{ServerLike S}.

Record t : Type := { servers : list S; currentServer : Z }.

Definition new (pool : list S) : t :=
  {| servers := pool; currentServer := 0 |}.

Definition updateCurrentServer : Method t unit :=
  this <- get ;;
  minLoadServer <- lift (min_scan (servers this)) ;;
  put {| servers := servers this; currentServer := minLoadServer |}.

Definition balanceLoad (taskLoads : list Q) : Method t unit :=
  for_each taskLoads (fun taskLoad =>
    this <- get ;;
    servers' <- lift (Vec.modify (currentServer this) (addLoad taskLoad)
                                 (servers this)) ;;
    put {| servers := servers'; currentServer := currentServer this |} ;;
    updateCurrentServer).

Definition algorithm : LoadBalancingAlgorithm S t :=
  Build_LoadBalancingAlgorithm new balanceLoad.

End WithServer.
End WeightedRoundRobinLoadBalancing.

Module ActiveClusteringLoadBalancing.
Section WithServer.
Context {S : Type} `{ServerLike S}.

Record t : Type := { servers : list S }.

Definition new (pool : list S) : t := {| servers := pool |}.

Definition balanceLoad (taskLoads : list Q) : Method t unit :=
  for_each taskLoads (fun taskLoad =>
    this <- get ;;
    minLoadServer <- lift (min_scan (servers this)) ;;
    servers' <- lift (Vec.modify minLoadServer (addLoad taskLoad)
                                 (servers this)) ;;
    put {| servers := servers' |}).

Definition algorithm : LoadBalancingAlgorithm S t :=
  Build_LoadBalancingAlgorithm new balanceLoad.

End WithServer.
End ActiveClusteringLoadBalancing.

(** The ant-colony policy of the plain program ([numIterations = 1], the
    ant moves commented out) and of the first listing of
    [performance_comparison.cpp] ([numIterations = 100], ants moving).  The
    two texts differ in nothing else; [balanceLoad_with] is their common
    body, with the iteration count and the presence of the ant moves as
    parameters. *)
Module AntColonyOptimizationLoadBalancing.

(** Pheromone importance factor. *)
Definition alpha : Z := 1.
(** Heuristic information importance factor. *)
Definition beta : Z := 2.
(** Pheromone evaporation rate. *)
Definition rho : Q := 1 # 2.
(** Pheromone deposit quantity (named [Q] in the source). *)
Definition deposit_Q : Q := 1.

(** [pheromones[taskId][serverId] = f(pheromones[taskId][serverId])]. *)
Definition modify2 (taskId serverId : Z) (f : Q -> Q)
  : Method (list (list Q)) unit :=
  pheromones <- get ;;
  row <- lift (Vec.at_ pheromones taskId) ;;
  row' <- lift (Vec.modify serverId f row) ;;
  pheromones' <- lift (Vec.modify taskId (fun _ => row') pheromones) ;;
  put pheromones'.

(** The second loop of [selectNextServer]: [Some (Some i)] when the loop
    returns [i], [Some None] when it runs to its end. *)
Fixpoint roulette (probabilities : list Q) (selection : Q)
         (serverIds : list Z) (cumulativeProbability : Q)
  : option (option Z) :=
  match serverIds with
  | [] => Some None
  | serverId :: rest =>
      match Vec.at_ probabilities serverId with
      | None => None
      | Some p =>
          let cumulativeProbability := cumulativeProbability + p in
          if Qle_bool selection cumulativeProbability
          then Some (Some serverId)
          else roulette probabilities selection rest cumulativeProbability
      end
  end.

Section WithServer.
Context {S : Type} `{ServerLike S}.

Record t : Type := { servers : list S }.

Definition new (pool : list S) : t := {| servers := pool |}.

(** The first loop of [selectNextServer], on the locals
    [(probabilities, totalProbability)]. *)
Definition probabilities_loop (pool : list S) (taskId : Z)
           (pheromones : list (list Q)) (taskLoads : list Q)
           (alpha beta : Z)
  : Method (list Q * Q) unit :=
  for_each (Vec.range (Vec.size pool)) (fun serverId =>
    locals <- get ;;
    row <- lift (Vec.at_ pheromones taskId) ;;
    pheromone <- lift (Vec.at_ row serverId) ;;
    server <- lift (Vec.at_ pool serverId) ;;
    taskLoad <- lift (Vec.at_ taskLoads taskId) ;;
    heuristic <- lift (checked_div 1 (pow (getLoad server + taskLoad) beta)) ;;
    probabilities' <- lift (Vec.modify serverId
                              (fun _ => pow pheromone alpha * heuristic)
                              (fst locals)) ;;
    p <- lift (Vec.at_ probabilities' serverId) ;;
    put (probabilities', snd locals + p)).

(** [selectNextServer]; [u] is the canonical variate of its draw, which
    [std::uniform_real_distribution<> dis(a, b)] turns into
    [a + u * (b - a)]. *)
Definition selectNextServer (u : Q) (pool : list S) (taskId : Z)
           (pheromones : list (list Q)) (taskLoads : list Q)
           (alpha beta : Z)
  : option Z :=
  let numServers := Vec.size pool in
  match exec (probabilities_loop pool taskId pheromones taskLoads alpha beta)
             (repeat 0 (Z.to_nat numServers), 0) with
  | None => None
  | Some (probabilities, totalProbability) =>
      let selection := 0 + u * (totalProbability - 0) in
      match roulette probabilities selection (Vec.range numServers) 0 with
      | None => None
      | Some (Some serverId) => Some serverId
      | Some None => Some (numServers - 1)%Z
      end
  end.

Definition evaporate (numTasks numServers : Z) (rho : Q)
  : Method (list (list Q)) unit :=
  for_each (Vec.range numTasks) (fun taskId =>
    for_each (Vec.range numServers) (fun serverId =>
      modify2 taskId serverId (fun x => x * (1 - rho)))).

Definition deposit (pool : list S) (taskLoads : list Q)
           (numTasks numServers : Z) (Q0 : Q)
  : Method (list (list Q)) unit :=
  for_each (Vec.range numTasks) (fun taskId =>
    for_each (Vec.range numServers) (fun serverId =>
      server <- lift (Vec.at_ pool serverId) ;;
      taskLoad <- lift (Vec.at_ taskLoads taskId) ;;
      deltaPheromone <- lift (checked_div Q0 (getLoad server + taskLoad)) ;;
      modify2 taskId serverId (fun x => x + deltaPheromone))).

Definition updatePheromones (pool : list S) (taskLoads : list Q)
           (rho Q0 : Q)
  : Method (list (list Q)) unit :=
  let numTasks := Vec.size taskLoads in
  let numServers := Vec.size pool in
  evaporate numTasks numServers rho ;;
  deposit pool taskLoads numTasks numServers Q0.

(** The loop "Move ants" of iteration [iteration]. *)
Definition move_ants (rd : RandomDevice) (iteration : Z)
           (pheromones : list (list Q)) (taskLoads : list Q)
  : Method t unit :=
  let numTasks := Vec.size taskLoads in
  for_each (Vec.range numTasks) (fun taskId =>
    this <- get ;;
    let u := next_unit rd (Z.to_nat (iteration * numTasks + taskId)) in
    currentServer <- lift (selectNextServer u (servers this) taskId
                             pheromones taskLoads alpha beta) ;;
    taskLoad <- lift (Vec.at_ taskLoads taskId) ;;
    servers' <- lift (Vec.modify currentServer (addLoad taskLoad)
                                 (servers this)) ;;
    put {| servers := servers' |}).

(** One round of the main loop, on the object and the local
    [pheromones]. *)
Definition iteration_body (rd : RandomDevice) (ants : bool)
           (taskLoads : list Q) (iteration : Z)
  : Method (t * list (list Q)) unit :=
  fun '(this, pheromones) =>
    match (if ants
           then exec (move_ants rd iteration pheromones taskLoads) this
           else Some this) with
    | None => None
    | Some this1 =>
        match exec (updatePheromones (servers this1) taskLoads
                                     rho deposit_Q) pheromones with
        | None => None
        | Some pheromones' =>
            Some (tt, ({| servers := map resetLoad (servers this1) |},
                       pheromones'))
        end
    end.

(** The pheromone matrix at the start of [balanceLoad]. *)
Definition initial_pheromones (pool : list S) (taskLoads : list Q)
  : list (list Q) :=
  repeat (repeat 1 (length pool)) (length taskLoads).

(** The main loop, with the pheromone matrix it ends with. *)
Definition iterate (rd : RandomDevice) (ants : bool) (numIterations : Z)
           (taskLoads : list Q) (this : t)
  : option (t * list (list Q)) :=
  exec (for_each (Vec.range numIterations)
                 (iteration_body rd ants taskLoads))
       (this, initial_pheromones (servers this) taskLoads).

Definition balanceLoad_with (rd : RandomDevice) (ants : bool)
           (numIterations : Z) (taskLoads : list Q)
  : Method t unit :=
  fun this =>
    match iterate rd ants numIterations taskLoads this with
    | Some (this', _) => Some (tt, this')
    | None => None
    end.

(** The plain program. *)
Definition balanceLoad_plain (rd : RandomDevice) : list Q -> Method t unit :=
  balanceLoad_with rd false 1.

(** The first listing of [performance_comparison.cpp]. *)
Definition balanceLoad (rd : RandomDevice) : list Q -> Method t unit :=
  balanceLoad_with rd true 100.

(** The second listing of [performance_comparison.cpp]: a placeholder
    that places every task on a server drawn by [getRandomServer]. *)
Definition getRandomServer (rd : RandomDevice) (k : nat) (this : t)
  : option Z :=
  uniform_int rd k 0 (Vec.size (servers this) - 1).

Definition balanceLoad_placeholder (rd : RandomDevice) (taskLoads : list Q)
  : Method t unit :=
  for_each (enumerate taskLoads) (fun '(k, taskLoad) =>
    this <- get ;;
    randomServer <- lift (getRandomServer rd k this) ;;
    servers' <- lift (Vec.modify randomServer (addLoad taskLoad)
                                 (servers this)) ;;
    put {| servers := servers' |}).

Definition algorithm_plain (rd : RandomDevice) : LoadBalancingAlgorithm S t :=
  Build_LoadBalancingAlgorithm new (balanceLoad_plain rd).

Definition algorithm (rd : RandomDevice) : LoadBalancingAlgorithm S t :=
  Build_LoadBalancingAlgorithm new (balanceLoad rd).

Definition algorithm_placeholder (rd : RandomDevice)
  : LoadBalancingAlgorithm S t :=
  Build_LoadBalancingAlgorithm new (balanceLoad_placeholder rd).

End WithServer.
End AntColonyOptimizationLoadBalancing.

(** ** The driver *)

Module LoadBalancer.
Section WithServer.
Context {S : Type} `{ServerLike S}.

Record t : Type := { servers : list S }.

(** The loop of the constructors: [servers.push_back(make(i))] for
    [i] from [0] to [numServers - 1]. *)
Definition fill (numServers : Z) (make : Z -> option S) : Method t unit :=
  for_each (Vec.range numServers) (fun i =>
    this <- get ;;
    server <- lift (make i) ;;
    put {| servers := servers this ++ [server] |}).

Definition run {A : Type} (alg : LoadBalancingAlgorithm S A)
           (taskLoads : list Q)
  : Method t unit :=
  this <- get ;;
  with_local (construct (servers this)) (balanceLoad taskLoads).

Definition getTotalLoad (this : t) : Q :=
  fold_left (fun totalLoad server => totalLoad + getLoad server)
            (servers this) 0.

Definition totalCapability `{Capable S} (this : t) : Q :=
  fold_left (fun total server => total + inject_Z (getCapability server))
            (servers this) 0.

Definition getThroughput `{Capable S} (this : t) (simulatedTime : Q)
  : option Q :=
  let totalLoad := getTotalLoad this in
  match checked_div totalLoad simulatedTime with
  | Some perTime => checked_div perTime (totalCapability this)
  | None => None
  end.

End WithServer.
End LoadBalancer.

(** [LoadBalancer(int numServers)] of the plain program. *)
Definition Plain_LoadBalancer (numServers : Z)
  : option (LoadBalancer.t (S := Plain.Server)) :=
  exec (LoadBalancer.fill numServers (fun i => Some (Plain.newServer i)))
       {| LoadBalancer.servers := [] |}.

(** [LoadBalancer(const std::vector<int>& capabilities)] of the second
    listing. *)
Definition Capacitated_LoadBalancer (capabilities : list Z)
  : option (LoadBalancer.t (S := Capacitated.Server)) :=
  exec (LoadBalancer.fill (Vec.size capabilities)
          (fun i => match Vec.at_ capabilities i with
                    | Some c => Some (Capacitated.newServer i c)
                    | None => None
                    end))
       {| LoadBalancer.servers := [] |}.

(** The same constructor in the first listing. *)
Definition Queued_LoadBalancer (garbage : Z) (capabilities : list Z)
  : option (LoadBalancer.t (S := Queued.Server)) :=
  exec (LoadBalancer.fill (Vec.size capabilities)
          (fun i => match Vec.at_ capabilities i with
                    | Some c => Some (Queued.newServer garbage i c)
                    | None => None
                    end))
       {| LoadBalancer.servers := [] |}.

(** ** Vocabulary of the properties *)

Section Pools.
Context {S : Type} `{ServerLike S}.

(** The server at position [i] has identifier [i], as in every pool a
    [LoadBalancer] constructor builds. *)
Definition well_indexed (pool : list S) : Prop :=
  forall i s, nth_error pool i = Some s -> getId s = Z.of_nat i.

(** Every identifier is an index of the pool. *)
Definition ids_in_range (pool : list S) : Prop :=
  Forall (fun s => (0 <= getId s < Vec.size pool)%Z) pool.

(** The first server, when there is one, has identifier 0. *)
Definition first_id_zero (pool : list S) : Prop :=
  forall s, nth_error pool 0 = Some s -> getId s = 0%Z.

Definition unloaded (pool : list S) : Prop :=
  Forall (fun s => getLoad s == 0) pool.

Definition nonnegative_loads (pool : list S) : Prop :=
  Forall (fun s => 0 <= getLoad s) pool.

(** A non-empty pool as the driver hands it to a policy. *)
Definition fresh_pool (pool : list S) : Prop :=
  pool <> [] /\ well_indexed pool /\ unloaded pool.

(** [getTotalLoad] of a pool. *)
Definition pool_load (pool : list S) : Q :=
  LoadBalancer.getTotalLoad {| LoadBalancer.servers := pool |}.

(** A server after it was given the tasks [ws], in order. *)
Definition place_all (ws : list Q) (s : S) : S :=
  fold_left (fun server w => addLoad w server) ws s.

(** The pool [pool] is what [pool0] becomes by placing tasks [done] on
    some of its servers, each task raising a load by [gain] of its
    weight. *)
Definition tracks (gain : Q -> Q) (pool0 : list S) (done : list Q)
           (pool : list S) : Prop :=
  length pool = length pool0 /\
  (well_indexed pool0 -> well_indexed pool) /\
  pool_load pool == pool_load pool0 + sum (map gain done).

(** Position [j] holds the first server of minimum load. *)
Definition first_minimum (pool : list S) (j : nat) (s : S) : Prop :=
  nth_error pool j = Some s /\
  (forall k s', nth_error pool k = Some s' -> getLoad s <= getLoad s') /\
  (forall k s', (k < j)%nat -> nth_error pool k = Some s' ->
                getLoad s < getLoad s').

End Pools.

(** The tasks at the positions [i], [i + n], [i + 2n], ... of [tasks]. *)
Definition strided (n i : nat) (tasks : list Q) : list Q :=
  map snd (filter (fun p => (fst p mod n =? i)%nat) (enumerate tasks)).

Definition positive_weights (tasks : list Q) : Prop :=
  Forall (fun w => 0 < w) tasks.

Definition positive_matrix (m : list (list Q)) : Prop :=
  Forall (Forall (fun x => 0 < x)) m.

(** A matrix of [rows] rows of [cols] entries. *)
Definition shaped (rows cols : nat) (m : list (list Q)) : Prop :=
  length m = rows /\ Forall (fun row => length row = cols) m.

(** Entry [(t, s)] of a matrix, when it exists. *)
Definition entry (m : list (list Q)) (t s : nat) : option Q :=
  match nth_error m t with
  | Some row => nth_error row s
  | None => None
  end.

(** Cumulative probability after the servers [0 .. i]. *)
Definition cumulative (probabilities : list Q) (i : nat) : Q :=
  sum (firstn (S i) probabilities).

(** What the members of a [Server] class guarantee to the policies. *)
Class ServerLaws (S : Type) `{ServerLike S} : Prop := {
  getId_addLoad : forall w s, getId (addLoad w s) = getId s;
  getId_resetLoad : forall s, getId (resetLoad s) = getId s;
  getLoad_resetLoad : forall s, getLoad (resetLoad s) == 0;
  getLoad_addLoad_nonneg :
    forall w s, 0 < w -> 0 <= getLoad s -> 0 <= getLoad (addLoad w s)
}.
Arguments ServerLaws S {_}.

(** A task of weight [w] raises the load of the server that receives it by
    [gain w]. *)
Class Gains (S : Type) `{ServerLike S} (gain : Q -> Q) : Prop := {
  getLoad_addLoad : forall w s, getLoad (addLoad w s) == getLoad s + gain w
}.
Arguments Gains S {_} gain.

(** The server choices of the two least-loaded policies for the task at
    position [k]. *)
Section Choices.
Context {S : Type} `{ServerLike S}.

Definition WeightedRoundRobin_choice (pool : list S) (tasks : list Q)
           (k : nat) : option Z :=
  match exec (WeightedRoundRobinLoadBalancing.balanceLoad (firstn k tasks))
             (WeightedRoundRobinLoadBalancing.new pool) with
  | Some st => Some (WeightedRoundRobinLoadBalancing.currentServer st)
  | None => None
  end.

Definition ActiveClustering_choice (pool : list S) (tasks : list Q)
           (k : nat) : option Z :=
  match exec (ActiveClusteringLoadBalancing.balanceLoad (firstn k tasks))
             (ActiveClusteringLoadBalancing.new pool) with
  | Some st => min_scan (ActiveClusteringLoadBalancing.servers st)
  | None => None
  end.

End Choices.

(** The outcome of a [balanceLoad] call: it returns, and the loads of the
    pool it leaves total [total]. *)
Section Outcomes.
Context {S : Type} `{ServerLike S}.

Definition returns_with_total {A : Type} (final : option A)
           (servers : A -> list S) (total : Q) : Prop :=
  exists r, final = Some r /\ pool_load (servers r) == total.

(** The two policies that choose a position without reading the servers. *)
Definition blind_policies_total (rd : RandomDevice) (pool : list S)
           (tasks : list Q) (total : Q) : Prop :=
  returns_with_total
    (exec (RandomLoadBalancing.balanceLoad rd tasks)
          (RandomLoadBalancing.new pool))
    RandomLoadBalancing.servers total /\
  returns_with_total
    (exec (RoundRobinLoadBalancing.balanceLoad tasks)
          (RoundRobinLoadBalancing.new pool))
    RoundRobinLoadBalancing.servers total.

(** The two policies that index the pool by the identifier of the least
    loaded server. *)
Definition least_loaded_policies_total (pool : list S)
           (tasks : list Q) (total : Q) : Prop :=
  returns_with_total
    (exec (WeightedRoundRobinLoadBalancing.balanceLoad tasks)
          (WeightedRoundRobinLoadBalancing.new pool))
    WeightedRoundRobinLoadBalancing.servers total /\
  returns_with_total
    (exec (ActiveClusteringLoadBalancing.balanceLoad tasks)
          (ActiveClusteringLoadBalancing.new pool))
    ActiveClusteringLoadBalancing.servers total.

End Outcomes.

(** The runs of the driver with policy [alg] on the task batches
    [batches], one after the other. *)
Definition runs {S A : Type} `{ServerLike S}
           (alg : LoadBalancingAlgorithm S A) (batches : list (list Q))
  : Method LoadBalancer.t unit :=
  for_each batches (LoadBalancer.run alg).

(** Number of tasks, as a [double]. *)
Definition count (tasks : list Q) : Q := inject_Z (Z.of_nat (length tasks)).

(** Concrete inputs. *)
Module Examples.

(** A device whose integer draws are all [0] and whose real draws are all
    [0.5]. *)
Definition device : RandomDevice :=
  {| next_int := fun _ _ => 0%Z; next_unit := fun _ => 1 # 2 |}.

Definition plain_pair : list Plain.Server :=
  [Plain.newServer 0; Plain.newServer 1].

Definition capacitated_pair : list Capacitated.Server :=
  [Capacitated.newServer 0 1; Capacitated.newServer 1 1].

Definition queued_pair : list Queued.Server :=
  [Queued.newServer 0 0 1; Queued.newServer 0 1 1].

Definition queued_single : list Queued.Server := [Queued.newServer 0 0 1].

(** Three servers with loads 5, 2 and 2. *)
Definition loaded_trio : list Plain.Server :=
  [{| Plain.id := 0; Plain.load := 5 |};
   {| Plain.id := 1; Plain.load := 2 |};
   {| Plain.id := 2; Plain.load := 2 |}].

(** Two idle servers that carry the identifiers 1 and 0, in this order. *)
Definition swapped_pair : list Plain.Server :=
  [Plain.newServer 1; Plain.newServer 0].

End Examples.

(** * The classes in double arithmetic *)

(** The plain program and the second listing of [performance_comparison.cpp]
    keep the load of a server in a [double], add the task weights to it
    and total and divide these loads in [double] too.  This module embeds
    those classes with [double] as IEEE 754 binary64: Rocq's primitive
    floating-point numbers, which are the numbers of the hardware with
    their rounding to nearest (ties to even), their infinities and NaN.
    Identifiers, indexes and capabilities stay integers, and the control
    structure is the one of the embedding above. *)
Module Binary64.
Import PrimFloat.
Local Open Scope float_scope.

(** Conversion [int -> double]; it is exact on every [int]. *)
Definition of_int (z : Z) : float :=
  if (z <? 0)%Z then - of_uint63 (Uint63.of_Z (- z))
  else of_uint63 (Uint63.of_Z z).

(** The members of [Server] that the policies and the driver use. *)
Class ServerLike (S : Type) : Type := {
  getId : S -> Z;
  getLoad : S -> float;
  addLoad : float -> S -> S;
  resetLoad : S -> S
}.

Class Capable (S : Type) : Type := {
  getCapability : S -> Z
}.

(** The plain program: [Server(int id)]. *)
Module Plain.

Record Server : Type := { id : Z; load : float }.

Definition newServer (i : Z) : Server := {| id := i; load := 0 |}.

#[global] Instance server_like : ServerLike Server := {
  getId s := id s;
  getLoad s := load s;
  addLoad taskLoad s := {| id := id s; load := load s + taskLoad |};
  resetLoad s := {| id := id s; load := 0 |}
}.

End Plain.

(** Second listing of [performance_comparison.cpp]:
    [Server(int id, int capability)]. *)
Module Capacitated.

Record Server : Type := { id : Z; capability : Z; load : float }.

Definition newServer (i c : Z) : Server :=
  {| id := i; capability := c; load := 0 |}.

#[global] Instance server_like : ServerLike Server := {
  getId s := id s;
  getLoad s := load s;
  addLoad taskLoad s :=
    {| id := id s; capability := capability s; load := load s + taskLoad |};
  resetLoad s := {| id := id s; capability := capability s; load := 0 |}
}.

#[global] Instance capable : Capable Server := {
  getCapability s := capability s
}.

End Capacitated.

Module RandomLoadBalancing.
Section WithServer.
Context {S : Type} `{ServerLike S}.

Record t : Type := { servers : list S }.

Definition new (pool : list S) : t := {| servers := pool |}.

Definition balanceLoad (rd : RandomDevice) (taskLoads : list float)
  : Method t unit :=
  this0 <- get ;;
  let hi := (Vec.size (servers this0) - 1)%Z in
  for_each (enumerate taskLoads) (fun '(k, taskLoad) =>
    this <- get ;;
    randomServer <- lift (uniform_int rd k 0 hi) ;;
    servers' <- lift (Vec.modify randomServer (addLoad taskLoad)
                                 (servers this)) ;;
    put {| servers := servers' |}).

End WithServer.
End RandomLoadBalancing.

Module RoundRobinLoadBalancing.
Section WithServer.
Context {S : Type} `{ServerLike S}.

Record t : Type := { servers : list S; currentServer : Z }.

Definition new (pool : list S) : t :=
  {| servers := pool; currentServer := 0 |}.

(** [(currentServer + 1) % servers.size()]; the remainder by zero is
    undefined. *)
Definition advance (cursor size : Z) : option Z :=
  if (size =? 0)%Z then None else Some ((cursor + 1) mod size)%Z.

Definition balanceLoad (taskLoads : list float) : Method t unit :=
  for_each taskLoads (fun taskLoad =>
    this <- get ;;
    servers' <- lift (Vec.modify (currentServer this) (addLoad taskLoad)
                                 (servers this)) ;;
    next <- lift (advance (currentServer this) (Vec.size servers')) ;;
    put {| servers := servers'; currentServer := next |}).

End WithServer.
End RoundRobinLoadBalancing.

(** The scan for the least loaded server of
    [WeightedRoundRobinLoadBalancing::updateCurrentServer] and of
    [ActiveClusteringLoadBalancing::balanceLoad], with [<] on [double]. *)
Section MinScan.
Context {S : Type} `{ServerLike S}.

Definition min_scan_step (acc : float * Z) (server : S) : float * Z :=
  if getLoad server <? fst acc
  then (getLoad server, getId server)
  else acc.

Definition min_scan (servers : list S) : option Z :=
  match Vec.at_ servers 0 with
  | Some first =>
      Some (snd (fold_left min_scan_step servers
                           (getLoad first, getId first)))
  | None => None
  end.

End MinScan.

Module WeightedRoundRobinLoadBalancing.
Section WithServer.
Context {S : Type} `{ServerLike S}.

Record t : Type := { servers : list S; currentServer : Z }.

Definition new (pool : list S) : t :=
  {| servers := pool; currentServer := 0 |}.

Definition updateCurrentServer : Method t unit :=
  this <- get ;;
  minLoadServer <- lift (min_scan (servers this)) ;;
  put {| servers := servers this; currentServer := minLoadServer |}.

Definition balanceLoad (taskLoads : list float) : Method t unit :=
  for_each taskLoads (fun taskLoad =>
    this <- get ;;
    servers' <- lift (Vec.modify (currentServer this) (addLoad taskLoad)
                                 (servers this)) ;;
    put {| servers := servers'; currentServer := currentServer this |} ;;
    updateCurrentServer).

End WithServer.
End WeightedRoundRobinLoadBalancing.

Module ActiveClusteringLoadBalancing.
Section WithServer.
Context {S : Type} `{ServerLike S}.

Record t : Type := { servers : list S }.

Definition new (pool : list S) : t := {| servers := pool |}.

Definition balanceLoad (taskLoads : list float) : Method t unit :=
  for_each taskLoads (fun taskLoad =>
    this <- get ;;
    minLoadServer <- lift (min_scan (servers this)) ;;
    servers' <- lift (Vec.modify minLoadServer (addLoad taskLoad)
                                 (servers this)) ;;
    put {| servers := servers' |}).

End WithServer.
End ActiveClusteringLoadBalancing.

(** The ant-colony policy of the plain program (the ant moves are
    commented out there, and [numIterations] is 1) and the placeholder of
    the second listing. *)
Module AntColonyOptimizationLoadBalancing.

(** Pheromone evaporation rate. *)
Definition rho : float := 0.5.
(** Pheromone deposit quantity (named [Q] in the source). *)
Definition deposit_Q : float := 1.

Definition modify2 (taskId serverId : Z) (f : float -> float)
  : Method (list (list float)) unit :=
  pheromones <- get ;;
  row <- lift (Vec.at_ pheromones taskId) ;;
  row' <- lift (Vec.modify serverId f row) ;;
  pheromones' <- lift (Vec.modify taskId (fun _ => row') pheromones) ;;
  put pheromones'.

Definition evaporate (numTasks numServers : Z) (rho : float)
  : Method (list (list float)) unit :=
  for_each (Vec.range numTasks) (fun taskId =>
    for_each (Vec.range numServers) (fun serverId =>
      modify2 taskId serverId (fun x => x * (1 - rho)))).

Section WithServer.
Context {S : Type} `{ServerLike S}.

Record t : Type := { servers : list S }.

Definition new (pool : list S) : t := {| servers := pool |}.

Definition deposit (pool : list S) (taskLoads : list float)
           (numTasks numServers : Z) (Q0 : float)
  : Method (list (list float)) unit :=
  for_each (Vec.range numTasks) (fun taskId =>
    for_each (Vec.range numServers) (fun serverId =>
      server <- lift (Vec.at_ pool serverId) ;;
      taskLoad <- lift (Vec.at_ taskLoads taskId) ;;
      let deltaPheromone := Q0 / (getLoad server + taskLoad) in
      modify2 taskId serverId (fun x => x + deltaPheromone))).

Definition updatePheromones (pool : list S) (taskLoads : list float)
           (rho Q0 : float)
  : Method (list (list float)) unit :=
  let numTasks := Vec.size taskLoads in
  let numServers := Vec.size pool in
  evaporate numTasks numServers rho ;;
  deposit pool taskLoads numTasks numServers Q0.

(** One round of the main loop, on the object and the local
    [pheromones]: the pheromone update, then the reset of the loads. *)
Definition iteration_body (taskLoads : list float)
  : Method (t * list (list float)) unit :=
  fun '(this, pheromones) =>
    match exec (updatePheromones (servers this) taskLoads rho deposit_Q)
               pheromones with
    | None => None
    | Some pheromones' =>
        Some (tt, ({| servers := map resetLoad (servers this) |},
                   pheromones'))
    end.

(** [balanceLoad] of the plain program, with its constant
    [numIterations] as a parameter. *)
Definition balanceLoad_with (numIterations : Z) (taskLoads : list float)
  : Method t unit :=
  fun this =>
    let pheromones :=
      repeat (repeat 1 (length (servers this))) (length taskLoads) in
    match exec (for_each (Vec.range numIterations)
                         (fun _ => iteration_body taskLoads))
               (this, pheromones) with
    | Some (this', _) => Some (tt, this')
    | None => None
    end.

Definition balanceLoad : list float -> Method t unit := balanceLoad_with 1.

(** The second listing: every task goes to the server that
    [getRandomServer] draws. *)
Definition getRandomServer (rd : RandomDevice) (k : nat) (this : t)
  : option Z :=
  uniform_int rd k 0 (Vec.size (servers this) - 1).

Definition balanceLoad_placeholder (rd : RandomDevice)
           (taskLoads : list float)
  : Method t unit :=
  for_each (enumerate taskLoads) (fun '(k, taskLoad) =>
    this <- get ;;
    randomServer <- lift (getRandomServer rd k this) ;;
    servers' <- lift (Vec.modify randomServer (addLoad taskLoad)
                                 (servers this)) ;;
    put {| servers := servers' |}).

End WithServer.
End AntColonyOptimizationLoadBalancing.

Module LoadBalancer.
Section WithServer.
Context {S : Type} `{ServerLike S}.

Record t : Type := { servers : list S }.

(** The loop of the constructors: [servers.push_back(make(i))] for
    [i] from [0] to [numServers - 1]. *)
Definition fill (numServers : Z) (make : Z -> option S)
  : Method t unit :=
  for_each (Vec.range numServers) (fun i =>
    this <- get ;;
    server <- lift (make i) ;;
    put {| servers := servers this ++ [server] |}).

Definition getTotalLoad (this : t) : float :=
  fold_left (fun totalLoad server => totalLoad + getLoad server)
            (servers this) 0.

Definition totalCapability `{Capable S} (this : t) : float :=
  fold_left (fun total server => total + of_int (getCapability server))
            (servers this) 0.

Definition getThroughput `{Capable S} (this : t) (simulatedTime : float)
  : float :=
  let totalLoad := getTotalLoad this in
  totalLoad / simulatedTime / totalCapability this.

End WithServer.
End LoadBalancer.

(** [LoadBalancer(int numServers)] of the plain program. *)
Definition Plain_LoadBalancer (numServers : Z)
  : option (LoadBalancer.t (S := Plain.Server)) :=
  exec (LoadBalancer.fill numServers (fun i => Some (Plain.newServer i)))
       {| LoadBalancer.servers := [] |}.

(** [LoadBalancer(const std::vector<int>& capabilities)] of the second
    listing. *)
Definition Capacitated_LoadBalancer (capabilities : list Z)
  : option (LoadBalancer.t (S := Capacitated.Server)) :=
  exec (LoadBalancer.fill (Vec.size capabilities)
          (fun i => match Vec.at_ capabilities i with
                    | Some c => Some (Capacitated.newServer i c)
                    | None => None
                    end))
       {| LoadBalancer.servers := [] |}.

(** ** Vocabulary *)

Section Pools.
Context {S : Type} `{ServerLike S}.

(** Every identifier is an index of the pool. *)
Definition ids_in_range (pool : list S) : Prop :=
  Forall (fun s => (0 <= getId s < Vec.size pool)%Z) pool.

(** [getTotalLoad] of a pool. *)
Definition pool_load (pool : list S) : float :=
  LoadBalancer.getTotalLoad {| LoadBalancer.servers := pool |}.

End Pools.

(** What the members of the two [Server] classes do. *)
Class ServerLaws (S : Type) `{ServerLike S} : Prop := {
  getId_addLoad : forall w s, getId (addLoad w s) = getId s;
  getId_resetLoad : forall s, getId (resetLoad s) = getId s;
  getLoad_addLoad : forall w s, getLoad (addLoad w s) = getLoad s + w;
  getLoad_resetLoad : forall s, getLoad (resetLoad s) = 0
}.
Arguments ServerLaws S {_}.

(** A matrix of [rows] rows of [cols] entries. *)
Definition shaped (rows cols : nat) (m : list (list float)) : Prop :=
  length m = rows /\ Forall (fun row => length row = cols) m.

(** [a + w1 + w2 + ...], added from the left as a loop does. *)
Definition accumulate (a : float) (ws : list float) : float :=
  fold_left add ws a.

(** The tasks that go to server [i] when the task at position [k] goes to
    server [choices[k]]. *)
Definition received (choices : list nat) (tasks : list float) (i : nat)
  : list float :=
  map snd (filter (fun p => (fst p =? i)%nat) (combine choices tasks)).

Section Outcomes.
Context {S : Type} `{ServerLike S}.

(** The pool [final] is [pool] after the task at each position [k] of
    [tasks] was added to the server at position [choices[k]], and to no
    other: every server kept its identifier, and its load is the load it
    had plus the weights it received, added in arrival order. *)
Definition assigns (pool : list S) (choices : list nat)
           (tasks : list float) (final : list S) : Prop :=
  length choices = length tasks /\
  Forall (fun c => (c < length pool)%nat) choices /\
  length final = length pool /\
  forall i s, nth_error pool i = Some s ->
    exists s', nth_error final i = Some s' /\
               getId s' = getId s /\
               getLoad s' = accumulate (getLoad s) (received choices tasks i).

(** The outcome of a [balanceLoad] call that places every task once: it
    returns, every task went to exactly one server (so that the weights
    the servers received are, together, the task weights), and
    [getTotalLoad] adds the loads of the servers in order. *)
Definition places_every_task {A : Type} (final : option A)
           (servers : A -> list S) (pool : list S) (tasks : list float)
  : Prop :=
  exists r choices,
    final = Some r /\
    assigns pool choices tasks (servers r) /\
    Permutation (concat (map (received choices tasks)
                             (seq 0 (length pool)))) tasks /\
    pool_load (servers r) = accumulate 0 (map getLoad (servers r)).

(** The two policies that choose a position without reading the servers. *)
Definition blind_policies_place (rd : RandomDevice) (pool : list S)
           (tasks : list float) : Prop :=
  places_every_task
    (exec (RandomLoadBalancing.balanceLoad rd tasks)
          (RandomLoadBalancing.new pool))
    RandomLoadBalancing.servers pool tasks /\
  places_every_task
    (exec (RoundRobinLoadBalancing.balanceLoad tasks)
          (RoundRobinLoadBalancing.new pool))
    RoundRobinLoadBalancing.servers pool tasks.

(** The two policies that index the pool by the identifier of the least
    loaded server. *)
Definition least_loaded_policies_place (pool : list S)
           (tasks : list float) : Prop :=
  places_every_task
    (exec (WeightedRoundRobinLoadBalancing.balanceLoad tasks)
          (WeightedRoundRobinLoadBalancing.new pool))
    WeightedRoundRobinLoadBalancing.servers pool tasks /\
  places_every_task
    (exec (ActiveClusteringLoadBalancing.balanceLoad tasks)
          (ActiveClusteringLoadBalancing.new pool))
    ActiveClusteringLoadBalancing.servers pool tasks.

(** The outcome of a [balanceLoad] call on the one server [s]: it returns
    one server, with the identifier of [s] and the load [L], and
    [getTotalLoad] is [0.0 + L]. *)
Definition returns_one_server {A : Type} (final : option A)
           (servers : A -> list S) (s : S) (L : float) : Prop :=
  exists r s',
    final = Some r /\ servers r = [s'] /\
    getId s' = getId s /\ getLoad s' = L /\
    pool_load (servers r) = 0 + L.

(** The same policies on the one server [s]. *)
Definition blind_policies_one_server (rd : RandomDevice) (s : S)
           (tasks : list float) (L : float) : Prop :=
  returns_one_server
    (exec (RandomLoadBalancing.balanceLoad rd tasks)
          (RandomLoadBalancing.new [s]))
    RandomLoadBalancing.servers s L /\
  returns_one_server
    (exec (RoundRobinLoadBalancing.balanceLoad tasks)
          (RoundRobinLoadBalancing.new [s]))
    RoundRobinLoadBalancing.servers s L.

Definition least_loaded_policies_one_server (s : S)
           (tasks : list float) (L : float) : Prop :=
  returns_one_server
    (exec (WeightedRoundRobinLoadBalancing.balanceLoad tasks)
          (WeightedRoundRobinLoadBalancing.new [s]))
    WeightedRoundRobinLoadBalancing.servers s L /\
  returns_one_server
    (exec (ActiveClusteringLoadBalancing.balanceLoad tasks)
          (ActiveClusteringLoadBalancing.new [s]))
    ActiveClusteringLoadBalancing.servers s L.

(** The outcome of a [balanceLoad] call that leaves no load: it returns
    the servers of [pool], in order and with their identifiers, each with
    load [0.0], and [getTotalLoad] is [0.0]. *)
Definition returns_unloaded {A : Type} (final : option A)
           (servers : A -> list S) (pool : list S) : Prop :=
  exists r,
    final = Some r /\
    map getId (servers r) = map getId pool /\
    Forall (fun s => getLoad s = 0) (servers r) /\
    pool_load (servers r) = 0.



End Outcomes.

(** Concrete inputs. *)
Module Examples.

Definition plain_single : list Plain.Server := [Plain.newServer 0].

Definition plain_pair : list Plain.Server :=
  [Plain.newServer 0; Plain.newServer 1].

Definition capacitated_pair : list Capacitated.Server :=
  [Capacitated.newServer 0 1; Capacitated.newServer 1 1].

(** Two servers numbered from 1. *)
Definition one_based_pair : list Plain.Server :=
  [Plain.newServer 1; Plain.newServer 2].

(** Three servers with loads 5, 2 and 2. *)
Definition loaded_trio : list Plain.Server :=
  [{| Plain.id := 0; Plain.load := 5 |};
   {| Plain.id := 1; Plain.load := 2 |};
   {| Plain.id := 2; Plain.load := 2 |}].



End Examples.

End Binary64.

(** * Properties *)

Unset Implicit Arguments.

(** ** Vectors *)

Lemma update_nth_split {A : Type} (f : A -> A) (v : list A) :
  forall n w, Vec.update_nth n f v = Some w <->
    exists a x b, v = a ++ x :: b /\ length a = n /\ w = a ++ f x :: b.
Proof.
  induction v as [|y v IH]; intros n w; simpl.
  - split; [discriminate|]. intros (a & x & b & Hv & _). destruct a; discriminate.
  - destruct n as [|n].
    + split.
      * intros [= <-]. exists [], y, v. auto.
      * intros (a & x & b & Hv & Hl & ->). destruct a; [|discriminate].
        simpl in Hv. injection Hv as -> ->. reflexivity.
    + destruct (Vec.update_nth n f v) as [w'|] eqn:E.
      * split.
        -- intros [= <-]. apply IH in E. destruct E as (a & x & b & -> & <- & ->).
           exists (y :: a), x, b. auto.
        -- intros (a & x & b & Hv & Hl & ->). destruct a as [|y' a]; [discriminate|].
           simpl in Hv, Hl. injection Hv as -> ->. injection Hl as <-.
           assert (E' : Vec.update_nth (length a) f (a ++ x :: b) = Some (a ++ f x :: b))
             by (apply IH; exists a, x, b; auto).
           rewrite E' in E. injection E as <-. reflexivity.
      * split; [discriminate|].
        intros (a & x & b & Hv & Hl & ->). destruct a as [|y' a]; [discriminate|].
        simpl in Hv, Hl. injection Hv as -> ->. injection Hl as <-.
        assert (E' : Vec.update_nth (length a) f (a ++ x :: b) = Some (a ++ f x :: b))
          by (apply IH; exists a, x, b; auto).
        rewrite E' in E. discriminate.
Qed.

Lemma nth_error_split_at {A : Type} (v : list A) (n : nat) (x : A) :
  nth_error v n = Some x ->
  exists a b, v = a ++ x :: b /\ length a = n.
Proof.
  intros Hn. destruct (nth_error_split v n Hn) as (a & b & -> & <-). eauto.
Qed.

Lemma modify_split {A : Type} (f : A -> A) (v w : list A) (i : Z) :
  Vec.modify i f v = Some w <->
  (0 <= i)%Z /\
  exists a x b, v = a ++ x :: b /\ length a = Z.to_nat i /\ w = a ++ f x :: b.
Proof.
  unfold Vec.modify. destruct (Z.ltb_spec i 0).
  - split; [discriminate|]. intros [? _]. lia.
  - rewrite update_nth_split. split; [auto|tauto].
Qed.

Lemma modify_defined {A : Type} (f : A -> A) (v : list A) (i : Z) :
  (0 <= i < Vec.size v)%Z -> exists w, Vec.modify i f v = Some w.
Proof.
  unfold Vec.size. intros Hi.
  destruct (nth_error v (Z.to_nat i)) as [x|] eqn:E.
  - destruct (nth_error_split_at v _ x E) as (a & b & -> & Hl).
    exists (a ++ f x :: b). apply modify_split. split; [lia|].
    exists a, x, b. auto.
  - apply nth_error_None in E. lia.
Qed.

Lemma modify_size {A : Type} (f : A -> A) (v w : list A) (i : Z) :
  Vec.modify i f v = Some w -> Vec.size w = Vec.size v.
Proof.
  rewrite modify_split. intros (_ & a & x & b & -> & _ & ->).
  unfold Vec.size. rewrite !length_app. reflexivity.
Qed.

Lemma modify_in_range {A : Type} (f : A -> A) (v w : list A) (i : Z) :
  Vec.modify i f v = Some w -> (0 <= i < Vec.size v)%Z.
Proof.
  rewrite modify_split. intros (Hi & a & x & b & -> & Hl & _).
  unfold Vec.size. rewrite length_app. simpl. lia.
Qed.

Lemma at_nth_error {A : Type} (v : list A) (i : Z) (x : A) :
  Vec.at_ v i = Some x <-> (0 <= i)%Z /\ nth_error v (Z.to_nat i) = Some x.
Proof.
  unfold Vec.at_. destruct (Z.ltb_spec i 0).
  - split; [discriminate|]. intros [? _]. lia.
  - split; [auto|tauto].
Qed.

Lemma at_of_nat {A : Type} (v : list A) (n : nat) :
  Vec.at_ v (Z.of_nat n) = nth_error v n.
Proof.
  unfold Vec.at_. destruct (Z.ltb_spec (Z.of_nat n) 0); [lia|].
  now rewrite Nat2Z.id.
Qed.

Lemma at_defined {A : Type} (v : list A) (i : Z) :
  (0 <= i < Vec.size v)%Z -> exists x, Vec.at_ v i = Some x.
Proof.
  unfold Vec.size. intros Hi.
  destruct (nth_error v (Z.to_nat i)) as [x|] eqn:E.
  - exists x. apply at_nth_error. split; [lia|assumption].
  - apply nth_error_None in E. lia.
Qed.

Lemma range_bounds (n i : Z) : In i (Vec.range n) <-> (0 <= i < n)%Z.
Proof.
  unfold Vec.range. rewrite in_map_iff. split.
  - intros (k & <- & Hk). apply in_seq in Hk. lia.
  - intros Hi. exists (Z.to_nat i). split; [lia|]. apply in_seq. lia.
Qed.

Lemma range_of_nat (n : nat) : Vec.range (Z.of_nat n) = map Z.of_nat (seq 0 n).
Proof. unfold Vec.range. now rewrite Nat2Z.id. Qed.

(** ** Loops *)

(** Invariant rule for [for_each]: a body that is defined and extends the
    invariant from the elements done so far to one more makes the loop
    defined, with the invariant on the whole sequence. *)
Lemma for_each_invariant {St X : Type} (I : list X -> St -> Prop)
      (body : X -> Method St unit) (xs : list X) :
  (forall done x rest st,
      xs = done ++ x :: rest -> I done st ->
      exists st', body x st = Some (tt, st') /\ I (done ++ [x]) st') ->
  forall st, I [] st ->
  exists st', for_each xs body st = Some (tt, st') /\ I xs st'.
Proof.
  intros Hbody.
  assert (G : forall rest done st, xs = done ++ rest -> I done st ->
              exists st', for_each rest body st = Some (tt, st') /\ I xs st').
  { induction rest as [|x rest IH]; intros done st Hxs HI.
    - rewrite app_nil_r in Hxs. subst done. exists st. split; [reflexivity|assumption].
    - destruct (Hbody done x rest st Hxs HI) as (st1 & Hb & HI1).
      destruct (IH (done ++ [x]) st1) as (st' & Hf & HI').
      + rewrite <- app_assoc. exact Hxs.
      + exact HI1.
      + exists st'. split; [|assumption].
        simpl. unfold bind. rewrite Hb. exact Hf. }
  intros st HI. exact (G xs [] st eq_refl HI).
Qed.

(** The same rule for a loop known to be defined. *)
Lemma for_each_partial {St X : Type} (I : list X -> St -> Prop)
      (body : X -> Method St unit) (xs : list X) :
  (forall done x rest st st',
      xs = done ++ x :: rest -> I done st ->
      body x st = Some (tt, st') -> I (done ++ [x]) st') ->
  forall st st', I [] st -> for_each xs body st = Some (tt, st') -> I xs st'.
Proof.
  intros Hbody.
  assert (G : forall rest done st st', xs = done ++ rest -> I done st ->
              for_each rest body st = Some (tt, st') -> I xs st').
  { induction rest as [|x rest IH]; intros done st st' Hxs HI Hf.
    - rewrite app_nil_r in Hxs. subst done. simpl in Hf.
      injection Hf as <-. assumption.
    - simpl in Hf. unfold bind in Hf.
      destruct (body x st) as [[[] st1]|] eqn:Hb; [|discriminate].
      apply (IH (done ++ [x]) st1 st'); auto.
      + rewrite <- app_assoc. exact Hxs.
      + eapply Hbody; eauto. }
  intros st st' HI Hf. exact (G xs [] st st' eq_refl HI Hf).
Qed.


(** ** Numbers *)

Lemma Qlt_bool_iff (x y : Q) : Qlt_bool x y = true <-> x < y.
Proof.
  unfold Qlt_bool. rewrite negb_true_iff.
  destruct (Qle_bool y x) eqn:E.
  - apply Qle_bool_iff in E. split; [discriminate|]. intros Hlt. lra.
  - split; [intros _|reflexivity].
    destruct (Qlt_le_dec x y) as [Hlt|Hle]; [assumption|].
    apply Qle_bool_iff in Hle. congruence.
Qed.

Lemma Qlt_bool_false (x y : Q) : Qlt_bool x y = false <-> y <= x.
Proof.
  unfold Qlt_bool. rewrite negb_false_iff. apply Qle_bool_iff.
Qed.

Lemma checked_div_defined (a b : Q) :
  ~ b == 0 -> checked_div a b = Some (a / b).
Proof.
  intros Hb. unfold checked_div.
  destruct (Qeq_bool b 0) eqn:E; [|reflexivity].
  apply Qeq_bool_iff in E. contradiction.
Qed.

Lemma checked_div_undefined (a b : Q) : b == 0 -> checked_div a b = None.
Proof.
  intros Hb. unfold checked_div. apply Qeq_bool_iff in Hb. now rewrite Hb.
Qed.

Lemma fold_left_Qplus_shift {A : Type} (f : A -> Q) (l : list A) (acc : Q) :
  fold_left (fun t x => t + f x) l acc ==
  acc + fold_left (fun t x => t + f x) l 0.
Proof.
  revert acc. induction l as [|x l IH]; intros acc; simpl.
  - lra.
  - rewrite (IH (acc + f x)), (IH (0 + f x)). lra.
Qed.

Lemma sum_snoc (ws : list Q) (w : Q) : sum (ws ++ [w]) = sum ws + w.
Proof. unfold sum. now rewrite fold_left_app. Qed.

Lemma sum_shift (ws : list Q) (acc : Q) :
  fold_left Qplus ws acc == acc + sum ws.
Proof. exact (fold_left_Qplus_shift (fun x => x) ws acc). Qed.

Lemma sum_cons (w : Q) (ws : list Q) : sum (w :: ws) == w + sum ws.
Proof. unfold sum at 1. simpl. rewrite sum_shift. lra. Qed.

Lemma sum_nonneg (ws : list Q) : Forall (fun w => 0 <= w) ws -> 0 <= sum ws.
Proof.
  induction 1 as [|w ws Hw _ IH].
  - unfold sum. simpl. lra.
  - rewrite sum_cons. lra.
Qed.

(** ** The three server classes *)

#[global] Instance plain_laws : ServerLaws Plain.Server.
Proof.
  split; intros; simpl; try reflexivity.
  simpl in *. lra.
Qed.

#[global] Instance capacitated_laws : ServerLaws Capacitated.Server.
Proof.
  split; intros; simpl; try reflexivity.
  simpl in *. lra.
Qed.

#[global] Instance queued_laws : ServerLaws Queued.Server.
Proof.
  split; intros; simpl; try reflexivity.
  change 0 with (inject_Z 0). rewrite <- Zle_Qle. lia.
Qed.

(** A server of the plain program gains the weight of each task. *)
#[global] Instance plain_gains : Gains Plain.Server (fun w => w).
Proof. split. intros w s. simpl. reflexivity. Qed.

(** So does a server of the second listing. *)
#[global] Instance capacitated_gains : Gains Capacitated.Server (fun w => w).
Proof. split. intros w s. simpl. reflexivity. Qed.

(** A server of the first listing gains one queue entry per task. *)
#[global] Instance queued_gains : Gains Queued.Server (fun _ => 1).
Proof.
  split. intros w s. simpl. rewrite length_app. simpl.
  rewrite Nat2Z.inj_add, inject_Z_plus. reflexivity.
Qed.

(** ** Pools *)

Section PoolFacts.
Context {S : Type} `{ServerLike S}.

Lemma pool_load_app (a b : list S) :
  pool_load (a ++ b) == pool_load a + pool_load b.
Proof.
  unfold pool_load, LoadBalancer.getTotalLoad. simpl.
  rewrite fold_left_app. apply (fold_left_Qplus_shift getLoad).
Qed.

Lemma pool_load_cons (s : S) (b : list S) :
  pool_load (s :: b) == getLoad s + pool_load b.
Proof.
  unfold pool_load, LoadBalancer.getTotalLoad. simpl.
  rewrite (fold_left_Qplus_shift getLoad). lra.
Qed.

Lemma pool_load_nil : pool_load (@nil S) == 0.
Proof. reflexivity. Qed.

Lemma pool_load_unloaded (pool : list S) :
  unloaded pool -> pool_load pool == 0.
Proof.
  induction 1 as [|s pool Hs _ IH]; [reflexivity|].
  rewrite pool_load_cons, Hs, IH. lra.
Qed.

Lemma pool_load_nonneg (pool : list S) :
  nonnegative_loads pool -> 0 <= pool_load pool.
Proof.
  induction 1 as [|s pool Hs _ IH].
  { unfold pool_load, LoadBalancer.getTotalLoad. simpl. lra. }
  rewrite pool_load_cons. lra.
Qed.

(** Placing a task raises the total by what the server gains. *)
Lemma pool_load_assign (gain : Q -> Q) `{!Gains S gain}
      (pool pool' : list S) (i : Z) (w : Q) :
  Vec.modify i (addLoad w) pool = Some pool' ->
  pool_load pool' == pool_load pool + gain w.
Proof.
  rewrite modify_split. intros (_ & a & x & b & -> & _ & ->).
  rewrite !pool_load_app, !pool_load_cons, getLoad_addLoad. lra.
Qed.

Lemma well_indexed_assign `{!ServerLaws S}
      (pool pool' : list S) (i : Z) (w : Q) :
  well_indexed pool ->
  Vec.modify i (addLoad w) pool = Some pool' ->
  well_indexed pool'.
Proof.
  intros Hwi. rewrite modify_split. intros (_ & a & x & b & -> & Hl & ->).
  intros k s Hk.
  destruct (Nat.lt_trichotomy k (length a)) as [Hlt|[Heq|Hgt]].
  - rewrite nth_error_app1 in Hk by assumption.
    apply Hwi. now rewrite nth_error_app1.
  - subst k. rewrite nth_error_app2, Nat.sub_diag in Hk by lia.
    simpl in Hk. injection Hk as <-. rewrite getId_addLoad.
    apply Hwi. rewrite nth_error_app2, Nat.sub_diag by lia. reflexivity.
  - rewrite nth_error_app2 in Hk by lia.
    apply Hwi. rewrite nth_error_app2 by lia.
    destruct (k - length a)%nat as [|m] eqn:E; [lia|]. exact Hk.
Qed.

Lemma nonnegative_assign `{!ServerLaws S}
      (pool pool' : list S) (i : Z) (w : Q) :
  0 < w -> nonnegative_loads pool ->
  Vec.modify i (addLoad w) pool = Some pool' ->
  nonnegative_loads pool'.
Proof.
  intros Hw Hnn. rewrite modify_split. intros (_ & a & x & b & -> & _ & ->).
  unfold nonnegative_loads in *. rewrite Forall_app in *.
  destruct Hnn as [Ha Hxb]. inversion Hxb as [|? ? Hx Hb]; subst.
  split; [assumption|]. constructor; [|assumption].
  now apply getLoad_addLoad_nonneg.
Qed.

Lemma unloaded_nonnegative (pool : list S) :
  unloaded pool -> nonnegative_loads pool.
Proof.
  unfold unloaded, nonnegative_loads. intros Hu.
  eapply Forall_impl; [|exact Hu]. simpl. intros s Hs. rewrite Hs. lra.
Qed.

Lemma reset_unloaded `{!ServerLaws S} (pool : list S) :
  unloaded (map resetLoad pool).
Proof.
  unfold unloaded. apply Forall_map, Forall_forall. intros s _.
  apply getLoad_resetLoad.
Qed.

Lemma well_indexed_reset `{!ServerLaws S} (pool : list S) :
  well_indexed pool -> well_indexed (map resetLoad pool).
Proof.
  intros Hwi k s Hk. rewrite nth_error_map in Hk.
  destruct (nth_error pool k) as [s0|] eqn:E; [|discriminate].
  simpl in Hk. injection Hk as <-. rewrite getId_resetLoad. now apply Hwi.
Qed.

End PoolFacts.

(** ** The scan for the least loaded server *)

Section ScanFacts.
Context {S : Type} `{ServerLike S}.

Lemma min_scan_loop (pool : list S) :
  forall rest done j s,
    pool = done ++ rest ->
    nth_error pool j = Some s ->
    (j = 0 \/ j < length done)%nat ->
    (forall k s', (k < length done)%nat -> nth_error pool k = Some s' ->
                  getLoad s <= getLoad s' /\
                  ((k < j)%nat -> getLoad s < getLoad s')) ->
    exists j' s',
      fold_left min_scan_step rest (getLoad s, getId s)
      = (getLoad s', getId s') /\
      first_minimum pool j' s'.
Proof.
  induction rest as [|x rest IH]; intros done j s Hpool Hj Hpos Hmin.
  - rewrite app_nil_r in Hpool. subst done.
    exists j, s. split; [reflexivity|]. split; [assumption|].
    assert (Hlen : forall k s', nth_error pool k = Some s' ->
                                (k < length pool)%nat).
    { intros k s' Hk. apply nth_error_Some. congruence. }
    split.
    + intros k s' Hk. apply (Hmin k s' (Hlen k s' Hk) Hk).
    + intros k s' Hkj Hk. apply (Hmin k s' (Hlen k s' Hk) Hk). exact Hkj.
  - assert (Hx : nth_error pool (length done) = Some x).
    { rewrite Hpool, nth_error_app2, Nat.sub_diag by lia. reflexivity. }
    assert (Hpool' : pool = (done ++ [x]) ++ rest)
      by now rewrite <- app_assoc.
    simpl. unfold min_scan_step at 2. simpl.
    destruct (Qlt_bool (getLoad x) (getLoad s)) eqn:E.
    + apply Qlt_bool_iff in E.
      apply (IH (done ++ [x]) (length done) x Hpool' Hx).
      * right. rewrite length_app. simpl. lia.
      * intros k s' Hk Hks'. rewrite length_app in Hk. simpl in Hk.
        destruct (Nat.eq_dec k (length done)) as [->|Hne].
        -- rewrite Hx in Hks'. injection Hks' as <-.
           split; [lra|lia].
        -- destruct (Hmin k s') as [Hle _]; [lia|assumption|].
           split; [lra|intros _; lra].
    + apply Qlt_bool_false in E.
      apply (IH (done ++ [x]) j s Hpool' Hj).
      * rewrite length_app. simpl. lia.
      * intros k s' Hk Hks'. rewrite length_app in Hk. simpl in Hk.
        destruct (Nat.eq_dec k (length done)) as [->|Hne].
        -- rewrite Hx in Hks'. injection Hks' as <-.
           split; [assumption|lia].
        -- apply Hmin; [lia|assumption].
Qed.

(** On a non-empty pool the scan is defined and yields the identifier of
    the first server of minimum load. *)
Lemma min_scan_first_minimum (pool : list S) :
  pool <> [] ->
  exists j s, min_scan pool = Some (getId s) /\ first_minimum pool j s.
Proof.
  intros Hne. destruct pool as [|s0 pool]; [contradiction|].
  unfold min_scan. change (Vec.at_ (s0 :: pool) 0%Z) with (Some s0).
  destruct (min_scan_loop (s0 :: pool) (s0 :: pool) [] 0%nat s0)
    as (j & s & Hfold & Hmin); auto.
  - simpl. intros k s' Hk. lia.
  - exists j, s. rewrite Hfold. auto.
Qed.

Lemma min_scan_nil : min_scan (@nil S) = None.
Proof. reflexivity. Qed.

Lemma first_minimum_in_range (pool : list S) (j : nat) (s : S) :
  first_minimum pool j s -> (j < length pool)%nat.
Proof. intros (Hj & _). apply nth_error_Some. congruence. Qed.

Lemma first_minimum_unique (pool : list S) (j j' : nat) (s s' : S) :
  first_minimum pool j s -> first_minimum pool j' s' -> j = j'.
Proof.
  intros (Hj & Hle & Hlt) (Hj' & Hle' & Hlt').
  destruct (Nat.lt_trichotomy j j') as [L|[E|L]]; [|assumption|].
  - pose proof (Hlt' j s L Hj). pose proof (Hle j' s' Hj'). lra.
  - pose proof (Hlt j' s' L Hj'). pose proof (Hle' j s Hj). lra.
Qed.

Lemma min_scan_well_indexed (pool : list S) :
  pool <> [] -> well_indexed pool ->
  exists j s, min_scan pool = Some (Z.of_nat j) /\ first_minimum pool j s.
Proof.
  intros Hne Hwi.
  destruct (min_scan_first_minimum pool Hne) as (j & s & Hscan & Hmin).
  exists j, s. split; [|assumption].
  rewrite Hscan. f_equal. apply Hwi. apply Hmin.
Qed.


End ScanFacts.

(** ** Positions of a sequence *)

Lemma combine_app_eq {A B : Type} (a a' : list A) (b b' : list B) :
  length a = length b ->
  combine (a ++ a') (b ++ b') = combine a b ++ combine a' b'.
Proof.
  revert b. induction a as [|x a IH]; intros [|y b] Hl; try discriminate.
  - reflexivity.
  - simpl. f_equal. apply IH. now injection Hl.
Qed.

Lemma enumerate_snoc {X : Type} (xs : list X) (x : X) :
  enumerate (xs ++ [x]) = enumerate xs ++ [(length xs, x)].
Proof.
  unfold enumerate. rewrite length_app. simpl length.
  rewrite Nat.add_1_r, seq_S, combine_app_eq by now rewrite length_seq.
  reflexivity.
Qed.

Lemma enumerate_snd {X : Type} (xs : list X) : map snd (enumerate xs) = xs.
Proof.
  induction xs as [|x xs IH] using rev_ind; [reflexivity|].
  rewrite enumerate_snoc, map_app, IH. reflexivity.
Qed.

Lemma enumerate_length {X : Type} (xs : list X) :
  length (enumerate xs) = length xs.
Proof. rewrite <- (enumerate_snd xs) at 2. now rewrite length_map. Qed.

Lemma strided_snoc (n i : nat) (ws : list Q) (w : Q) :
  strided n i (ws ++ [w]) =
  strided n i ws ++ (if (length ws mod n =? i)%nat then [w] else []).
Proof.
  unfold strided. rewrite enumerate_snoc, filter_app, map_app. simpl.
  destruct (length ws mod n =? i)%nat; reflexivity.
Qed.

(** ** Placement of the tasks by the four direct policies *)

Section PlacementFacts.
Context {S : Type} `{ServerLike S} `{!ServerLaws S}.
Context (gain : Q -> Q) `{!Gains S gain}.

Lemma tracks_start (pool : list S) : tracks gain pool [] pool.
Proof.
  split; [reflexivity|]. split; [auto|].
  unfold sum. simpl. lra.
Qed.

Lemma tracks_assign (pool0 pool pool' : list S) (done : list Q)
      (i : Z) (w : Q) :
  tracks gain pool0 done pool ->
  Vec.modify i (addLoad w) pool = Some pool' ->
  tracks gain pool0 (done ++ [w]) pool'.
Proof.
  intros (Hlen & Hwi & Hsum) Hm. split; [|split].
  - apply modify_size in Hm. unfold Vec.size in Hm. lia.
  - intros Hwi0.
    eapply well_indexed_assign; [exact (Hwi Hwi0)|exact Hm].
  - rewrite (pool_load_assign gain pool pool' i w Hm), Hsum, map_app.
    simpl map.
    rewrite sum_snoc. lra.
Qed.

Lemma Random_tracks (rd : RandomDevice) (pool : list S) (tasks : list Q) :
  fair rd -> pool <> [] ->
  exists r,
    exec (RandomLoadBalancing.balanceLoad rd tasks)
         (RandomLoadBalancing.new pool) = Some r /\
    tracks gain pool tasks (RandomLoadBalancing.servers r).
Proof.
  intros [Hint _] Hne.
  unfold exec, RandomLoadBalancing.balanceLoad, bind at 1, get at 1.
  simpl RandomLoadBalancing.servers.
  destruct (for_each_invariant
              (fun done st =>
                 tracks gain pool (map snd done) (RandomLoadBalancing.servers st))
              (fun '(k, taskLoad) =>
                 this <- get ;;
                 randomServer <- lift (uniform_int rd k 0 (Vec.size pool - 1)) ;;
                 servers' <- lift (Vec.modify randomServer (addLoad taskLoad)
                                     (RandomLoadBalancing.servers this)) ;;
                 put {| RandomLoadBalancing.servers := servers' |})
              (enumerate tasks)) with (RandomLoadBalancing.new pool)
    as (r & Hr & HI).
  - intros done [k w] rest [pool1] _ HI. simpl in HI.
    assert (Hsz : (0 < Vec.size pool)%Z).
    { unfold Vec.size. destruct pool; [contradiction|]. simpl length. lia. }
    unfold bind, get, lift, put, uniform_int.
    destruct (Z.ltb_spec (Vec.size pool - 1) 0) as [|_]; [lia|].
    specialize (Hint k (Vec.size pool - 1 - 0)%Z ltac:(lia)).
    destruct (modify_defined (addLoad w) pool1
                (0 + next_int rd k (Vec.size pool - 1 - 0))%Z)
      as (pool2 & Hm).
    { destruct HI as (Hlen & _). unfold Vec.size in *. lia. }
    simpl RandomLoadBalancing.servers. rewrite Hm.
    eexists. split; [reflexivity|]. simpl.
    rewrite map_app. simpl map. eapply tracks_assign; eauto.
  - simpl. apply tracks_start.
  - rewrite Hr. exists r. split; [reflexivity|].
    now rewrite enumerate_snd in HI.
Qed.

End PlacementFacts.

Lemma modify_nth_error {A : Type} (f : A -> A) (v w : list A) (i : Z) :
  Vec.modify i f v = Some w ->
  forall k, nth_error w k =
            if (k =? Z.to_nat i)%nat
            then option_map f (nth_error v k)
            else nth_error v k.
Proof.
  rewrite modify_split. intros (_ & a & x & b & -> & Hl & ->) k.
  destruct (Nat.eqb_spec k (Z.to_nat i)) as [->|Hne].
  - rewrite <- Hl, !nth_error_app2, Nat.sub_diag by lia. reflexivity.
  - destruct (Nat.lt_ge_cases k (length a)).
    + now rewrite !nth_error_app1 by assumption.
    + rewrite !nth_error_app2 by assumption.
      destruct (k - length a)%nat eqn:E; [lia|reflexivity].
Qed.

Section RoundRobinFacts.
Context {S : Type} `{ServerLike S}.

Lemma place_all_snoc (ws : list Q) (w : Q) (s : S) :
  place_all (ws ++ [w]) s = addLoad w (place_all ws s).
Proof. unfold place_all. now rewrite fold_left_app. Qed.

(** One round of the loop of [RoundRobinLoadBalancing::balanceLoad]. *)
Lemma RoundRobin_round (w : Q) (pool : list S) (cursor : Z) :
  (0 <= cursor < Vec.size pool)%Z ->
  exists pool',
    Vec.modify cursor (addLoad w) pool = Some pool' /\
    (this <- get ;;
     servers' <- lift (Vec.modify (RoundRobinLoadBalancing.currentServer this)
                         (addLoad w) (RoundRobinLoadBalancing.servers this)) ;;
     next <- lift (RoundRobinLoadBalancing.advance
                     (RoundRobinLoadBalancing.currentServer this)
                     (Vec.size servers')) ;;
     put {| RoundRobinLoadBalancing.servers := servers';
            RoundRobinLoadBalancing.currentServer := next |})
      {| RoundRobinLoadBalancing.servers := pool;
         RoundRobinLoadBalancing.currentServer := cursor |}
    = Some (tt, {| RoundRobinLoadBalancing.servers := pool';
                   RoundRobinLoadBalancing.currentServer :=
                     ((cursor + 1) mod Vec.size pool)%Z |}).
Proof.
  intros Hc. destruct (modify_defined (addLoad w) pool cursor Hc) as (pool' & Hm).
  exists pool'. split; [assumption|].
  unfold bind, get, lift, put. simpl. rewrite Hm.
  unfold RoundRobinLoadBalancing.advance.
  rewrite (modify_size _ _ _ _ Hm).
  destruct (Z.eqb_spec (Vec.size pool) 0); [lia|reflexivity].
Qed.

(** Round-robin is defined on every non-empty pool; server [i] ends as
    the initial server [i] given the tasks at positions [i], [i + n],
    ... in order, and the cursor ends at the number of tasks modulo
    [n]. *)
Lemma RoundRobin_strided (pool : list S) (tasks : list Q) :
  pool <> [] ->
  exists r,
    exec (RoundRobinLoadBalancing.balanceLoad tasks)
         (RoundRobinLoadBalancing.new pool) = Some r /\
    RoundRobinLoadBalancing.currentServer r
    = Z.of_nat (length tasks mod length pool) /\
    length (RoundRobinLoadBalancing.servers r) = length pool /\
    forall i s, nth_error pool i = Some s ->
                nth_error (RoundRobinLoadBalancing.servers r) i
                = Some (place_all (strided (length pool) i tasks) s).
Proof.
  intros Hne.
  assert (Hn : length pool <> 0%nat) by (destruct pool; [contradiction|discriminate]).
  unfold exec, RoundRobinLoadBalancing.balanceLoad.
  destruct (for_each_invariant
              (fun done st =>
                 RoundRobinLoadBalancing.currentServer st
                 = Z.of_nat (length done mod length pool) /\
                 length (RoundRobinLoadBalancing.servers st) = length pool /\
                 forall i s, nth_error pool i = Some s ->
                   nth_error (RoundRobinLoadBalancing.servers st) i
                   = Some (place_all (strided (length pool) i done) s))
              (fun taskLoad =>
                 this <- get ;;
                 servers' <- lift (Vec.modify
                                     (RoundRobinLoadBalancing.currentServer this)
                                     (addLoad taskLoad)
                                     (RoundRobinLoadBalancing.servers this)) ;;
                 next <- lift (RoundRobinLoadBalancing.advance
                                 (RoundRobinLoadBalancing.currentServer this)
                                 (Vec.size servers')) ;;
                 put {| RoundRobinLoadBalancing.servers := servers';
                        RoundRobinLoadBalancing.currentServer := next |})
              tasks) with (RoundRobinLoadBalancing.new pool)
    as (r & Hr & HI).
  - intros done w rest [pool1 cursor] _ (Hc & Hlen & Hnth). simpl in Hc, Hlen, Hnth.
    pose proof (Nat.mod_upper_bound (length done) (length pool) Hn) as Hub.
    destruct (RoundRobin_round w pool1 cursor) as (pool2 & Hm & Hstep).
    { unfold Vec.size. lia. }
    rewrite Hstep. eexists. split; [reflexivity|]. simpl.
    split; [|split].
    + rewrite length_app. simpl length. unfold Vec.size. rewrite Hlen, Hc.
      rewrite <- (Nat2Z.inj_add _ 1), <- Nat2Z.inj_mod. f_equal.
      rewrite Nat.Div0.add_mod_idemp_l. reflexivity.
    + apply modify_size in Hm. unfold Vec.size in Hm. lia.
    + intros i s Hi. rewrite (modify_nth_error _ _ _ _ Hm), strided_snoc.
      rewrite Hc, Nat2Z.id, (Nat.eqb_sym i).
      destruct (Nat.eqb_spec (length done mod length pool) i) as [E|E].
      * rewrite place_all_snoc, (Hnth i s Hi). reflexivity.
      * rewrite app_nil_r. apply Hnth, Hi.
  - simpl. split; [|split; [reflexivity|]].
    + now rewrite Nat.Div0.mod_0_l.
    + intros i s Hi. exact Hi.
  - rewrite Hr. exists r. split; [reflexivity|]. exact HI.
Qed.

End RoundRobinFacts.

Section LeastLoadedFacts.
Context {S : Type} `{ServerLike S} `{!ServerLaws S}.
Context (gain : Q -> Q) `{!Gains S gain}.

Lemma RoundRobin_tracks (pool : list S) (tasks : list Q) :
  pool <> [] ->
  exists r,
    exec (RoundRobinLoadBalancing.balanceLoad tasks)
         (RoundRobinLoadBalancing.new pool) = Some r /\
    tracks gain pool tasks (RoundRobinLoadBalancing.servers r).
Proof.
  intros Hne.
  assert (Hn : (0 < Vec.size pool)%Z).
  { unfold Vec.size. destruct pool; [contradiction|simpl length; lia]. }
  unfold exec, RoundRobinLoadBalancing.balanceLoad.
  destruct (for_each_invariant
              (fun done st =>
                 (0 <= RoundRobinLoadBalancing.currentServer st
                  < Vec.size pool)%Z /\
                 tracks gain pool done (RoundRobinLoadBalancing.servers st))
              (fun taskLoad =>
                 this <- get ;;
                 servers' <- lift (Vec.modify
                                     (RoundRobinLoadBalancing.currentServer this)
                                     (addLoad taskLoad)
                                     (RoundRobinLoadBalancing.servers this)) ;;
                 next <- lift (RoundRobinLoadBalancing.advance
                                 (RoundRobinLoadBalancing.currentServer this)
                                 (Vec.size servers')) ;;
                 put {| RoundRobinLoadBalancing.servers := servers';
                        RoundRobinLoadBalancing.currentServer := next |})
              tasks) with (RoundRobinLoadBalancing.new pool)
    as (r & Hr & _ & HI).
  - intros done w rest [pool1 cursor] _ (Hc & Htr). simpl in Hc, Htr.
    assert (Hsz : Vec.size pool1 = Vec.size pool).
    { destruct Htr as (Hlen & _). unfold Vec.size. now rewrite Hlen. }
    destruct (RoundRobin_round w pool1 cursor) as (pool2 & Hm & Hstep).
    { now rewrite Hsz. }
    rewrite Hstep. eexists. split; [reflexivity|]. simpl. split.
    + rewrite Hsz. apply Z.mod_pos_bound. assumption.
    + eapply tracks_assign; eassumption.
  - simpl. split; [lia|]. apply tracks_start.
  - rewrite Hr. exists r. split; [reflexivity|assumption].
Qed.

(** The scan of a well-indexed non-empty pool yields a valid index. *)
Lemma min_scan_in_range (pool : list S) :
  pool <> [] -> well_indexed pool ->
  exists i, min_scan pool = Some i /\ (0 <= i < Vec.size pool)%Z.
Proof.
  intros Hne Hwi.
  destruct (min_scan_well_indexed pool Hne Hwi) as (j & s & Hscan & Hmin).
  exists (Z.of_nat j). split; [assumption|].
  apply first_minimum_in_range in Hmin. unfold Vec.size. lia.
Qed.

Lemma nonempty_of_length (pool pool' : list S) :
  pool <> [] -> length pool' = length pool -> pool' <> [].
Proof. intros Hne Hlen ->. destruct pool; [contradiction|discriminate]. Qed.

End LeastLoadedFacts.

(** ** Weighted round-robin against active clustering *)

Section Agreement.
Context {S : Type} `{ServerLike S}.

Lemma modify_nonempty {A : Type} (f : A -> A) (v w : list A) (i : Z) :
  Vec.modify i f v = Some w -> w <> [].
Proof.
  rewrite modify_split. intros (_ & a & x & b & _ & _ & ->).
  destruct a; discriminate.
Qed.

Lemma min_scan_nonempty (pool : list S) :
  pool <> [] -> exists i, min_scan pool = Some i.
Proof.
  intros Hne. destruct (min_scan_first_minimum pool Hne) as (j & s & Hscan & _).
  eauto.
Qed.

Lemma WeightedRoundRobin_cons (w : Q) (tasks : list Q)
      (pool : list S) (cursor : Z) :
  WeightedRoundRobinLoadBalancing.balanceLoad (w :: tasks)
    {| WeightedRoundRobinLoadBalancing.servers := pool;
       WeightedRoundRobinLoadBalancing.currentServer := cursor |}
  = match Vec.modify cursor (addLoad w) pool with
    | Some pool' =>
        match min_scan pool' with
        | Some cursor' =>
            WeightedRoundRobinLoadBalancing.balanceLoad tasks
              {| WeightedRoundRobinLoadBalancing.servers := pool';
                 WeightedRoundRobinLoadBalancing.currentServer := cursor' |}
        | None => None
        end
    | None => None
    end.
Proof.
  unfold WeightedRoundRobinLoadBalancing.balanceLoad. simpl for_each.
  unfold WeightedRoundRobinLoadBalancing.updateCurrentServer,
    bind, get, lift, put. simpl.
  destruct (Vec.modify cursor (addLoad w) pool) as [pool'|]; [|reflexivity].
  destruct (min_scan pool'); reflexivity.
Qed.

Lemma ActiveClustering_cons (w : Q) (tasks : list Q) (pool : list S) :
  ActiveClusteringLoadBalancing.balanceLoad (w :: tasks)
    {| ActiveClusteringLoadBalancing.servers := pool |}
  = match min_scan pool with
    | Some minLoadServer =>
        match Vec.modify minLoadServer (addLoad w) pool with
        | Some pool' =>
            ActiveClusteringLoadBalancing.balanceLoad tasks
              {| ActiveClusteringLoadBalancing.servers := pool' |}
        | None => None
        end
    | None => None
    end.
Proof.
  unfold ActiveClusteringLoadBalancing.balanceLoad. simpl for_each.
  unfold bind, get, lift, put. simpl.
  destruct (min_scan pool) as [i|]; [|reflexivity].
  destruct (Vec.modify i (addLoad w) pool); reflexivity.
Qed.

(** The two policies stay in step: whenever the cursor of weighted
    round-robin is what the scan of active clustering yields on the same
    pool, both are defined or undefined together, end with the same pool,
    and the cursor is again the scan of that pool. *)
Lemma least_loaded_in_step (tasks : list Q) :
  forall (pool : list S) (cursor : Z),
    min_scan pool = Some cursor ->
    match exec (WeightedRoundRobinLoadBalancing.balanceLoad tasks)
               {| WeightedRoundRobinLoadBalancing.servers := pool;
                  WeightedRoundRobinLoadBalancing.currentServer := cursor |},
          exec (ActiveClusteringLoadBalancing.balanceLoad tasks)
               {| ActiveClusteringLoadBalancing.servers := pool |}
    with
    | Some w, Some a =>
        WeightedRoundRobinLoadBalancing.servers w
        = ActiveClusteringLoadBalancing.servers a /\
        min_scan (ActiveClusteringLoadBalancing.servers a)
        = Some (WeightedRoundRobinLoadBalancing.currentServer w)
    | None, None => True
    | _, _ => False
    end.
Proof.
  induction tasks as [|w tasks IH]; intros pool cursor Hscan.
  - simpl. auto.
  - unfold exec in *.
    rewrite WeightedRoundRobin_cons, ActiveClustering_cons, Hscan.
    destruct (Vec.modify cursor (addLoad w) pool) as [pool'|] eqn:Hm;
      [|exact I].
    destruct (min_scan_nonempty pool' (modify_nonempty _ _ _ _ Hm))
      as (cursor' & Hscan').
    rewrite Hscan'. exact (IH pool' cursor' Hscan').
Qed.

End Agreement.

(** ** Counting loops *)

Lemma range_split (n : nat) (done rest : list Z) (x : Z) :
  Vec.range (Z.of_nat n) = done ++ x :: rest ->
  x = Z.of_nat (length done) /\ (length done < n)%nat.
Proof.
  rewrite range_of_nat. intros Hsplit.
  assert (Hx : nth_error (map Z.of_nat (seq 0 n)) (length done) = Some x).
  { rewrite Hsplit, nth_error_app2, Nat.sub_diag by lia. reflexivity. }
  assert (Hlt : (length done < n)%nat).
  { apply (f_equal (@length Z)) in Hsplit.
    rewrite length_map, length_seq, length_app in Hsplit. simpl in Hsplit. lia. }
  split; [|assumption].
  rewrite nth_error_map, nth_error_seq in Hx.
  destruct (Nat.ltb_spec (length done) n); [|lia].
  simpl in Hx. now injection Hx.
Qed.

(** Invariant rule for [for (int i = 0; i < n; ++i)]. *)
Lemma for_range_invariant {St : Type} (I : nat -> St -> Prop)
      (body : Z -> Method St unit) (n : nat) :
  (forall k st, (k < n)%nat -> I k st ->
                exists st', body (Z.of_nat k) st = Some (tt, st') /\
                            I (S k) st') ->
  forall st, I 0%nat st ->
  exists st', for_each (Vec.range (Z.of_nat n)) body st = Some (tt, st') /\
              I n st'.
Proof.
  intros Hbody st H0.
  destruct (for_each_invariant (fun done st => I (length done) st) body
              (Vec.range (Z.of_nat n))) with st as (st' & Hrun & HI).
  - intros done x rest st1 Hsplit HI.
    apply range_split in Hsplit. destruct Hsplit as [-> Hlt].
    destruct (Hbody _ st1 Hlt HI) as (st2 & Hb & HI2).
    exists st2. split; [assumption|].
    rewrite length_app. simpl. now rewrite Nat.add_1_r.
  - exact H0.
  - exists st'. split; [assumption|].
    rewrite range_of_nat, length_map, length_seq in HI. exact HI.
Qed.

(** ** The pheromone matrix *)

Lemma entry_Some (m : list (list Q)) (t s : nat) (x : Q) :
  entry m t s = Some x <->
  exists row, nth_error m t = Some row /\ nth_error row s = Some x.
Proof.
  unfold entry. destruct (nth_error m t) as [row|].
  - split; [eauto|]. intros (row' & [= <-] & Hx). exact Hx.
  - split; [discriminate|]. intros (row' & Hrow & _). discriminate.
Qed.

Lemma shaped_row (rows cols : nat) (m : list (list Q)) (t : nat) :
  shaped rows cols m -> (t < rows)%nat ->
  exists row, nth_error m t = Some row /\ length row = cols.
Proof.
  intros [Hlen Hrows] Ht.
  destruct (nth_error m t) as [row|] eqn:E.
  - exists row. split; [reflexivity|].
    rewrite Forall_forall in Hrows. apply Hrows. eapply nth_error_In, E.
  - apply nth_error_None in E. lia.
Qed.

Lemma shaped_entry (rows cols : nat) (m : list (list Q)) (t s : nat) :
  shaped rows cols m -> (t < rows)%nat -> (s < cols)%nat ->
  exists x, entry m t s = Some x.
Proof.
  intros Hsh Ht Hs. destruct (shaped_row rows cols m t Hsh Ht) as (row & Hrow & Hl).
  destruct (nth_error row s) as [x|] eqn:E.
  - exists x. apply entry_Some. eauto.
  - apply nth_error_None in E. lia.
Qed.

Lemma positive_matrix_entries (m : list (list Q)) :
  positive_matrix m <-> forall t s x, entry m t s = Some x -> 0 < x.
Proof.
  unfold positive_matrix. split.
  - intros Hpos t s x Hx. apply entry_Some in Hx. destruct Hx as (row & Hrow & Hx).
    rewrite Forall_forall in Hpos. specialize (Hpos row (nth_error_In _ _ Hrow)).
    rewrite Forall_forall in Hpos. apply Hpos. eapply nth_error_In, Hx.
  - intros Hall. apply Forall_forall. intros row Hrow. apply Forall_forall.
    intros x Hx. apply In_nth_error in Hrow, Hx.
    destruct Hrow as (t & Ht). destruct Hx as (s & Hs).
    apply (Hall t s). apply entry_Some. eauto.
Qed.

(** The effect of one in-place update of the matrix. *)
Lemma modify2_effect (rows cols : nat) (m : list (list Q)) (t s : nat)
      (f : Q -> Q) :
  shaped rows cols m -> (t < rows)%nat -> (s < cols)%nat ->
  exists m',
    AntColonyOptimizationLoadBalancing.modify2 (Z.of_nat t) (Z.of_nat s) f m
    = Some (tt, m') /\
    shaped rows cols m' /\
    forall t' s', entry m' t' s' =
                  if ((t' =? t) && (s' =? s))%nat
                  then option_map f (entry m t s)
                  else entry m t' s'.
Proof.
  intros Hsh Ht Hs.
  destruct (shaped_row rows cols m t Hsh Ht) as (row & Hrow & Hl).
  destruct (modify_defined f row (Z.of_nat s)) as (row' & Hrow').
  { unfold Vec.size. lia. }
  destruct (modify_defined (fun _ => row') m (Z.of_nat t)) as (m' & Hm').
  { destruct Hsh as [Hlen _]. unfold Vec.size. lia. }
  exists m'. split; [|split].
  - unfold AntColonyOptimizationLoadBalancing.modify2, bind, get, lift, put.
    rewrite at_of_nat, Hrow, Hrow', Hm'. reflexivity.
  - destruct Hsh as [Hlen Hrows]. split.
    + apply modify_size in Hm'. unfold Vec.size in Hm'. lia.
    + apply modify_split in Hm'. destruct Hm' as (_ & a & x & b & -> & _ & ->).
      rewrite Forall_app in *. destruct Hrows as [Ha Hxb].
      inversion Hxb; subst. split; [assumption|]. constructor; [|assumption].
      apply modify_size in Hrow'. unfold Vec.size in Hrow'. lia.
  - intros t' s'. unfold entry.
    rewrite (modify_nth_error _ _ _ _ Hm'), Nat2Z.id.
    destruct (Nat.eqb_spec t' t) as [->|Hne]; simpl.
    + rewrite Hrow. simpl. rewrite (modify_nth_error _ _ _ _ Hrow'), Nat2Z.id.
      destruct (Nat.eqb_spec s' s) as [->|Hne']; reflexivity.
    + reflexivity.
Qed.

Lemma entry_outside_rows (rows cols : nat) (m : list (list Q)) (t s : nat) :
  shaped rows cols m -> (rows <= t)%nat -> entry m t s = None.
Proof.
  intros [Hlen _] Ht. unfold entry.
  assert (E : nth_error m t = None) by (apply nth_error_None; lia).
  now rewrite E.
Qed.

Lemma entry_outside_cols (rows cols : nat) (m : list (list Q)) (t s : nat) :
  shaped rows cols m -> (cols <= s)%nat -> entry m t s = None.
Proof.
  intros [_ Hrows] Hs. unfold entry.
  destruct (nth_error m t) as [row|] eqn:E; [|reflexivity].
  rewrite Forall_forall in Hrows. specialize (Hrows row (nth_error_In _ _ E)).
  apply nth_error_None. lia.
Qed.

(** A sweep over all entries, row by row, each entry updated in place by
    [g t s]: the two nested counting loops of [updatePheromones]. *)
Lemma matrix_sweep (rows cols : nat)
      (body : Z -> Z -> Method (list (list Q)) unit)
      (g : nat -> nat -> Q -> Q) :
  (forall t s m, (t < rows)%nat -> (s < cols)%nat -> shaped rows cols m ->
     body (Z.of_nat t) (Z.of_nat s) m
     = AntColonyOptimizationLoadBalancing.modify2
         (Z.of_nat t) (Z.of_nat s) (g t s) m) ->
  forall m, shaped rows cols m ->
  exists m',
    for_each (Vec.range (Z.of_nat rows))
             (fun t => for_each (Vec.range (Z.of_nat cols))
                                (fun s => body t s)) m
    = Some (tt, m') /\
    shaped rows cols m' /\
    forall t s, entry m' t s = option_map (g t s) (entry m t s).
Proof.
  intros Hbody m Hsh.
  destruct (for_range_invariant
              (fun k st =>
                 shaped rows cols st /\
                 forall t s, entry st t s =
                             if (t <? k)%nat
                             then option_map (g t s) (entry m t s)
                             else entry m t s)
              (fun t => for_each (Vec.range (Z.of_nat cols))
                                 (fun s => body t s))
              rows) with m as (m' & Hrun & Hsh' & Hent).
  - intros k st Hk [Hshk Hentk].
    destruct (for_range_invariant
                (fun j st' =>
                   shaped rows cols st' /\
                   forall t s, entry st' t s =
                               if ((t <? k) || ((t =? k) && (s <? j)))%nat
                               then option_map (g t s) (entry m t s)
                               else entry m t s)
                (fun s => body (Z.of_nat k) s)
                cols) with st as (st' & Hrun' & Hsh' & Hent').
    + intros j st1 Hj [Hsh1 Hent1].
      rewrite (Hbody k j st1 Hk Hj Hsh1).
      destruct (modify2_effect rows cols st1 k j (g k j) Hsh1 Hk Hj)
        as (st2 & Hm & Hsh2 & Hent2).
      exists st2. split; [assumption|]. split; [assumption|].
      intros t s. rewrite Hent2.
      destruct (Nat.eqb_spec t k) as [->|Htk]; simpl.
      * destruct (Nat.eqb_spec s j) as [->|Hsj]; simpl.
        -- rewrite Hent1, (Nat.ltb_irrefl k), (Nat.ltb_irrefl j), Nat.eqb_refl.
           simpl.
           assert (E : (j <? S j)%nat = true) by (apply Nat.ltb_lt; lia).
           now rewrite E.
        -- rewrite Hent1, Nat.eqb_refl. simpl.
           destruct (Nat.ltb_spec s j), (Nat.ltb_spec s (S j));
             try reflexivity; lia.
      * rewrite Hent1. apply Nat.eqb_neq in Htk. rewrite Htk. reflexivity.
    + split; [assumption|]. intros t s. rewrite Hentk.
      destruct (t <? k)%nat; simpl; [reflexivity|].
      now rewrite andb_false_r.
    + exists st'. split; [assumption|]. split; [assumption|].
      intros t s. rewrite Hent'.
      destruct (Nat.ltb_spec t k), (Nat.ltb_spec t (S k)); simpl;
        try reflexivity; try lia.
      * destruct (Nat.eqb_spec t k) as [->|]; [|lia]. simpl.
        destruct (Nat.ltb_spec s cols); [reflexivity|].
        now rewrite (entry_outside_cols rows cols m k s Hsh).
      * destruct (Nat.eqb_spec t k) as [->|]; [lia|reflexivity].
  - split; [assumption|]. intros t s. reflexivity.
  - exists m'. split; [assumption|]. split; [assumption|].
    intros t s. rewrite Hent.
    destruct (Nat.ltb_spec t rows); [reflexivity|].
    now rewrite (entry_outside_rows rows cols m t s Hsh).
Qed.

(** ** Ant-colony optimisation: the pheromone update *)

Lemma Qdiv_pos (a b : Q) : 0 < a -> 0 < b -> 0 < a / b.
Proof.
  intros Ha Hb. apply Qlt_shift_div_l; [assumption|]. lra.
Qed.

Section PheromoneFacts.
Context {S : Type} `{ServerLike S}.

(** Evaporation multiplies every entry by [1 - rho]. *)
Lemma evaporate_effect (rows cols : nat) (rho : Q) (m : list (list Q)) :
  shaped rows cols m ->
  exists m',
    AntColonyOptimizationLoadBalancing.evaporate
      (Z.of_nat rows) (Z.of_nat cols) rho m = Some (tt, m') /\
    shaped rows cols m' /\
    forall t s, entry m' t s
                = option_map (fun x => x * (1 - rho)) (entry m t s).
Proof.
  intros Hsh.
  exact (matrix_sweep rows cols
           (fun t s => AntColonyOptimizationLoadBalancing.modify2
                         t s (fun x => x * (1 - rho)))
           (fun _ _ x => x * (1 - rho))
           (fun t s m0 _ _ _ => eq_refl) m Hsh).
Qed.

(** The deposit adds [Q0 / (load of server s + weight of task t)] to
    entry [(t, s)], for every task and every server. *)
Lemma deposit_effect (pool : list S) (taskLoads : list Q) (Q0 : Q)
      (m : list (list Q)) :
  shaped (length taskLoads) (length pool) m ->
  (forall server w, In server pool -> In w taskLoads ->
                    ~ getLoad server + w == 0) ->
  exists m',
    AntColonyOptimizationLoadBalancing.deposit
      pool taskLoads (Vec.size taskLoads) (Vec.size pool) Q0 m
    = Some (tt, m') /\
    shaped (length taskLoads) (length pool) m' /\
    forall t s x server w,
      entry m t s = Some x ->
      nth_error pool s = Some server ->
      nth_error taskLoads t = Some w ->
      entry m' t s = Some (x + Q0 / (getLoad server + w)).
Proof.
  intros Hsh Hnz.
  destruct (matrix_sweep (length taskLoads) (length pool)
              (fun taskId serverId =>
                 server <- lift (Vec.at_ pool serverId) ;;
                 taskLoad <- lift (Vec.at_ taskLoads taskId) ;;
                 deltaPheromone <- lift (checked_div Q0 (getLoad server + taskLoad)) ;;
                 AntColonyOptimizationLoadBalancing.modify2
                   taskId serverId (fun x => x + deltaPheromone))
              (fun t s =>
                 match nth_error pool s, nth_error taskLoads t with
                 | Some server, Some w =>
                     fun x => x + Q0 / (getLoad server + w)
                 | _, _ => fun x => x
                 end)) with m as (m' & Hrun & Hsh' & Hent).
  - intros t s m0 Ht Hs _.
    destruct (nth_error pool s) as [server|] eqn:Es;
      [|apply nth_error_None in Es; lia].
    destruct (nth_error taskLoads t) as [w|] eqn:Et;
      [|apply nth_error_None in Et; lia].
    unfold bind at 1 2 3, lift.
    rewrite !at_of_nat, Es, Et.
    rewrite checked_div_defined; [reflexivity|].
    apply Hnz; eapply nth_error_In; eassumption.
  - assumption.
  - exists m'. split; [exact Hrun|]. split; [assumption|].
    intros t s x server w Hx Hs Ht. rewrite Hent, Hx, Hs, Ht. reflexivity.
Qed.

(** [updatePheromones] halves every entry (for [rho = 0.5]) and then
    adds the deposit; a positive matrix stays positive when the loads are
    non-negative and the weights positive. *)
Lemma updatePheromones_effect (pool : list S) (taskLoads : list Q)
      (m : list (list Q)) :
  shaped (length taskLoads) (length pool) m ->
  nonnegative_loads pool -> positive_weights taskLoads ->
  exists m',
    exec (AntColonyOptimizationLoadBalancing.updatePheromones
            pool taskLoads
            AntColonyOptimizationLoadBalancing.rho
            AntColonyOptimizationLoadBalancing.deposit_Q) m
    = Some m' /\
    shaped (length taskLoads) (length pool) m' /\
    (forall t s x server w,
        entry m t s = Some x ->
        nth_error pool s = Some server ->
        nth_error taskLoads t = Some w ->
        entry m' t s = Some (x * (1 - (1 # 2)) + 1 / (getLoad server + w))) /\
    (positive_matrix m -> positive_matrix m').
Proof.
  intros Hsh Hnn Hpos.
  assert (Hsum : forall server w, In server pool -> In w taskLoads ->
                                  0 < getLoad server + w).
  { intros server w Hs Hw.
    unfold nonnegative_loads, positive_weights in *.
    rewrite Forall_forall in Hnn, Hpos.
    specialize (Hnn server Hs). specialize (Hpos w Hw). simpl in *. lra. }
  destruct (evaporate_effect (length taskLoads) (length pool)
              AntColonyOptimizationLoadBalancing.rho m Hsh)
    as (m1 & Hev & Hsh1 & Hent1).
  destruct (deposit_effect pool taskLoads
              AntColonyOptimizationLoadBalancing.deposit_Q m1 Hsh1)
    as (m2 & Hdep & Hsh2 & Hent2).
  { intros server w Hs Hw Hz. specialize (Hsum server w Hs Hw). lra. }
  assert (Hform : forall t s x server w,
             entry m t s = Some x ->
             nth_error pool s = Some server ->
             nth_error taskLoads t = Some w ->
             entry m2 t s = Some (x * (1 - (1 # 2)) + 1 / (getLoad server + w))).
  { intros t s x server w Hx Hs Ht.
    apply (Hent2 t s (x * (1 - (1 # 2))) server w); auto.
    rewrite Hent1, Hx. reflexivity. }
  exists m2. split; [|split; [assumption|split; [assumption|]]].
  - unfold exec, AntColonyOptimizationLoadBalancing.updatePheromones, bind.
    unfold Vec.size at 1 2. rewrite Hev, Hdep. reflexivity.
  - intros Hpm. rewrite positive_matrix_entries in *.
    intros t s y Hy.
    destruct (Nat.lt_ge_cases t (length taskLoads)) as [Ht|Ht];
      [|rewrite (entry_outside_rows _ _ m2 t s Hsh2 Ht) in Hy; discriminate].
    destruct (Nat.lt_ge_cases s (length pool)) as [Hs|Hs];
      [|rewrite (entry_outside_cols _ _ m2 t s Hsh2 Hs) in Hy; discriminate].
    destruct (shaped_entry _ _ m t s Hsh Ht Hs) as (x & Hx).
    destruct (nth_error pool s) as [server|] eqn:Es;
      [|apply nth_error_None in Es; lia].
    destruct (nth_error taskLoads t) as [w|] eqn:Et;
      [|apply nth_error_None in Et; lia].
    rewrite (Hform t s x server w Hx Es Et) in Hy. injection Hy as <-.
    specialize (Hpm t s x Hx).
    assert (Hd : 0 < 1 / (getLoad server + w)).
    { apply Qdiv_pos; [lra|].
      apply Hsum; eapply nth_error_In; eassumption. }
    lra.
Qed.

End PheromoneFacts.

(** ** Ant-colony optimisation: roulette-wheel selection *)

Lemma firstn_exact {A : Type} (a r : list A) : firstn (length a) (a ++ r) = a.
Proof.
  rewrite firstn_app, Nat.sub_diag, firstn_all. simpl. apply app_nil_r.
Qed.

Lemma firstn_one_more {A : Type} (l : list A) (k : nat) (x : A) :
  nth_error l k = Some x -> firstn (S k) l = firstn k l ++ [x].
Proof.
  intros Hk. destruct (nth_error_split_at l k x Hk) as (a & b & -> & <-).
  rewrite firstn_exact, firstn_app, firstn_all2 by lia.
  replace (S (length a) - length a)%nat with 1%nat by lia. reflexivity.
Qed.

Lemma cumulative_step (probabilities : list Q) (k : nat) (p : Q) :
  nth_error probabilities k = Some p ->
  cumulative probabilities k = sum (firstn k probabilities) + p.
Proof.
  intros Hk. unfold cumulative. rewrite (firstn_one_more _ _ _ Hk).
  apply sum_snoc.
Qed.

Lemma cumulative_last (probabilities : list Q) :
  probabilities <> [] ->
  cumulative probabilities (length probabilities - 1) = sum probabilities.
Proof.
  intros Hne. unfold cumulative.
  replace (S (length probabilities - 1)) with (length probabilities).
  - now rewrite firstn_all.
  - destruct probabilities; [contradiction|simpl; lia].
Qed.

(** The second loop of [selectNextServer], started at server [k] with the
    cumulative probability of the servers before [k]: it is defined, and
    it returns the first server from [k] on whose cumulative probability
    reaches the selection, or runs out when there is none. *)
Lemma roulette_first (probabilities : list Q) (selection : Q) :
  forall len k,
    (k + len = length probabilities)%nat ->
    match AntColonyOptimizationLoadBalancing.roulette
            probabilities selection (map Z.of_nat (seq k len))
            (sum (firstn k probabilities)) with
    | Some (Some i) =>
        exists j, i = Z.of_nat j /\ (k <= j < k + len)%nat /\
                  selection <= cumulative probabilities j /\
                  forall j', (k <= j' < j)%nat ->
                             cumulative probabilities j' < selection
    | Some None =>
        forall j', (k <= j' < k + len)%nat ->
                   cumulative probabilities j' < selection
    | None => False
    end.
Proof.
  induction len as [|len IH]; intros k Hlen.
  - simpl. intros j' Hj'. lia.
  - simpl. rewrite at_of_nat.
    destruct (nth_error probabilities k) as [p|] eqn:Ep;
      [|apply nth_error_None in Ep; lia].
    rewrite <- (cumulative_step _ _ _ Ep).
    destruct (Qle_bool selection (cumulative probabilities k)) eqn:Ecmp.
    + apply Qle_bool_iff in Ecmp. exists k.
      split; [reflexivity|]. split; [lia|]. split; [assumption|].
      intros j' Hj'. lia.
    + assert (Hlt : cumulative probabilities k < selection).
      { apply Qnot_le_lt. intros Hle. apply Qle_bool_iff in Hle. congruence. }
      specialize (IH (S k) ltac:(lia)). unfold cumulative at 1.
      destruct (AntColonyOptimizationLoadBalancing.roulette probabilities selection
                  (map Z.of_nat (seq (S k) len))
                  (sum (firstn (S k) probabilities))) as [[i|]|].
      * destruct IH as (j & -> & Hj & Hsel & Hbefore).
        exists j. split; [reflexivity|]. split; [lia|]. split; [assumption|].
        intros j' Hj'. destruct (Nat.eq_dec j' k) as [->|]; [assumption|].
        apply Hbefore. lia.
      * intros j' Hj'. destruct (Nat.eq_dec j' k) as [->|]; [assumption|].
        apply IH. lia.
      * assumption.
Qed.

Section SelectionFacts.
Context {S : Type} `{ServerLike S}.

(** The first loop of [selectNextServer]: the probability of server [s]
    is [pheromone^alpha * 1 / (load + weight)^beta] and the total is
    their sum, from the left. *)
Lemma probabilities_loop_effect (pool : list S) (t : nat)
      (pheromones : list (list Q)) (taskLoads : list Q) (w : Q)
      (rows : nat) (alpha beta : Z) :
  shaped rows (length pool) pheromones -> (t < rows)%nat ->
  nth_error taskLoads t = Some w ->
  (forall server, In server pool -> ~ pow (getLoad server + w) beta == 0) ->
  exists probabilities,
    exec (AntColonyOptimizationLoadBalancing.probabilities_loop
            pool (Z.of_nat t) pheromones taskLoads alpha beta)
         (repeat 0 (length pool), 0)
    = Some (probabilities, sum probabilities) /\
    length probabilities = length pool /\
    forall s server x,
      nth_error pool s = Some server -> entry pheromones t s = Some x ->
      nth_error probabilities s
      = Some (pow x alpha * (1 / pow (getLoad server + w) beta)).
Proof.
  intros Hsh Ht Hw Hnz.
  unfold exec, AntColonyOptimizationLoadBalancing.probabilities_loop, Vec.size.
  destruct (for_range_invariant
              (fun k (st : list Q * Q) =>
                 length (fst st) = length pool /\
                 snd st = sum (firstn k (fst st)) /\
                 forall s server x,
                   (s < k)%nat ->
                   nth_error pool s = Some server ->
                   entry pheromones t s = Some x ->
                   nth_error (fst st) s
                   = Some (pow x alpha * (1 / pow (getLoad server + w) beta)))
              (fun serverId =>
                 locals <- get ;;
                 row <- lift (Vec.at_ pheromones (Z.of_nat t)) ;;
                 pheromone <- lift (Vec.at_ row serverId) ;;
                 server <- lift (Vec.at_ pool serverId) ;;
                 taskLoad <- lift (Vec.at_ taskLoads (Z.of_nat t)) ;;
                 heuristic <- lift (checked_div 1 (pow (getLoad server + taskLoad) beta)) ;;
                 probabilities' <- lift (Vec.modify serverId
                                           (fun _ => pow pheromone alpha * heuristic)
                                           (fst locals)) ;;
                 p <- lift (Vec.at_ probabilities' serverId) ;;
                 put (probabilities', snd locals + p))
              (length pool)) with (repeat 0 (length pool), 0)
    as ([probabilities total] & Hrun & Hlen & Htotal & Hent).
  - intros k [probs total] Hk (Hlen & Htotal & Hent). simpl in Hlen, Htotal, Hent.
    destruct (shaped_row _ _ pheromones t Hsh Ht) as (row & Hrow & Hrl).
    destruct (nth_error row k) as [x|] eqn:Ex;
      [|apply nth_error_None in Ex; lia].
    destruct (nth_error pool k) as [server|] eqn:Es;
      [|apply nth_error_None in Es; lia].
    destruct (modify_defined
                (fun _ => pow x alpha * (1 / pow (getLoad server + w) beta))
                probs (Z.of_nat k)) as (probs' & Hm).
    { unfold Vec.size. lia. }
    pose proof (modify_nth_error _ _ _ _ Hm) as Hnth.
    rewrite Nat2Z.id in Hnth.
    assert (Hpk : nth_error probs' k
                  = Some (pow x alpha * (1 / pow (getLoad server + w) beta))).
    { rewrite Hnth, Nat.eqb_refl.
      destruct (nth_error probs k) eqn:E; [reflexivity|].
      apply nth_error_None in E. lia. }
    unfold bind, get, lift, put. simpl fst. simpl snd.
    rewrite at_of_nat, Hrow. cbv beta iota.
    rewrite at_of_nat, Ex. cbv beta iota.
    rewrite at_of_nat, Es. cbv beta iota.
    rewrite at_of_nat, Hw. cbv beta iota.
    rewrite checked_div_defined
      by (apply Hnz; eapply nth_error_In; eassumption).
    cbv beta iota. rewrite Hm. cbv beta iota. rewrite at_of_nat, Hpk.
    eexists. split; [reflexivity|]. cbv beta. simpl fst. simpl snd.
    split; [|split].
    + apply modify_size in Hm. unfold Vec.size in Hm. lia.
    + rewrite (firstn_one_more _ _ _ Hpk), sum_snoc, Htotal. f_equal. f_equal.
      apply modify_split in Hm.
      destruct Hm as (_ & a & y & b & -> & Hla & ->).
      rewrite Nat2Z.id in Hla. subst k. now rewrite !firstn_exact.
    + intros s server' x' Hs Hserver' Hx'.
      destruct (Nat.eq_dec s k) as [->|Hne].
      * rewrite Es in Hserver'. injection Hserver' as <-.
        assert (x' = x) as ->.
        { apply entry_Some in Hx'. destruct Hx' as (row' & Hrow' & Hx').
          congruence. }
        exact Hpk.
      * rewrite Hnth. apply Nat.eqb_neq in Hne. rewrite Hne.
        apply Hent; auto. apply Nat.eqb_neq in Hne. lia.
  - simpl. split; [apply repeat_length|]. split; [reflexivity|].
    intros s server x Hs. lia.
  - rewrite Hrun. simpl in Hlen, Htotal, Hent.
    exists probabilities. split; [|split; [assumption|]].
    + rewrite Htotal, <- Hlen, firstn_all. reflexivity.
    + intros s server x Hs Hx. apply Hent; auto.
      apply nth_error_Some. congruence.
Qed.

End SelectionFacts.

Section SelectionResult.
Context {S : Type} `{ServerLike S}.

(** [selectNextServer] on a non-empty pool: it is defined, its result is
    a valid server index, and it is the first server whose cumulative
    probability reaches the selection, or else the last server. *)
Lemma selectNextServer_effect (u : Q) (pool : list S) (t : nat)
      (pheromones : list (list Q)) (taskLoads : list Q) (w : Q)
      (rows : nat) (alpha beta : Z) :
  pool <> [] ->
  shaped rows (length pool) pheromones -> (t < rows)%nat ->
  nth_error taskLoads t = Some w ->
  (forall server, In server pool -> ~ pow (getLoad server + w) beta == 0) ->
  exists probabilities i,
    length probabilities = length pool /\
    (forall s server x,
        nth_error pool s = Some server -> entry pheromones t s = Some x ->
        nth_error probabilities s
        = Some (pow x alpha * (1 / pow (getLoad server + w) beta))) /\
    AntColonyOptimizationLoadBalancing.selectNextServer
      u pool (Z.of_nat t) pheromones taskLoads alpha beta
    = Some (Z.of_nat i) /\
    (i < length pool)%nat /\
    ((0 + u * (sum probabilities - 0) <= cumulative probabilities i /\
      forall j, (j < i)%nat ->
                cumulative probabilities j < 0 + u * (sum probabilities - 0))
     \/
     (i = (length pool - 1)%nat /\
      forall j, (j < length pool)%nat ->
                cumulative probabilities j < 0 + u * (sum probabilities - 0))).
Proof.
  intros Hne Hsh Ht Hw Hnz.
  assert (Hn : (0 < length pool)%nat).
  { destruct pool; [contradiction|simpl; lia]. }
  destruct (probabilities_loop_effect pool t pheromones taskLoads w rows
              alpha beta Hsh Ht Hw Hnz) as (probs & Hloop & Hlen & Hent).
  pose proof (roulette_first probs (0 + u * (sum probs - 0))
                (length pool) 0 ltac:(lia)) as HR.
  simpl firstn in HR. change (sum []) with 0 in HR.
  unfold AntColonyOptimizationLoadBalancing.selectNextServer.
  unfold Vec.size at 1 2. rewrite Nat2Z.id, Hloop.
  cbv beta iota zeta. rewrite range_of_nat.
  destruct (AntColonyOptimizationLoadBalancing.roulette probs
              (0 + u * (sum probs - 0)) (map Z.of_nat (seq 0 (length pool))) 0)
    as [[i|]|].
  - destruct HR as (j & -> & Hj & Hsel & Hbefore).
    exists probs, j. split; [assumption|]. split; [assumption|].
    split; [reflexivity|]. split; [lia|]. left. split; [assumption|].
    intros j' Hj'. apply Hbefore. lia.
  - exists probs, (length pool - 1)%nat.
    split; [assumption|]. split; [assumption|]. split.
    + f_equal. unfold Vec.size. lia.
    + split; [lia|]. right. split; [reflexivity|].
      intros j' Hj'. apply HR. lia.
  - contradiction.
Qed.

(** With a draw in [[0, total]] the loop always returns: the last
    cumulative probability is the total. *)
Lemma selection_reached (u : Q) (probabilities : list Q) :
  probabilities <> [] ->
  Forall (fun p => 0 <= p) probabilities ->
  0 <= u -> u < 1 ->
  ~ (forall j, (j < length probabilities)%nat ->
               cumulative probabilities j
               < 0 + u * (sum probabilities - 0)).
Proof.
  intros Hne Hpos Hu0 Hu1 Hall.
  assert (Hn : (0 < length probabilities)%nat).
  { destruct probabilities; [contradiction|simpl; lia]. }
  specialize (Hall (length probabilities - 1)%nat ltac:(lia)).
  rewrite (cumulative_last _ Hne) in Hall.
  pose proof (sum_nonneg _ Hpos) as Hs.
  assert (Hprod : 0 <= sum probabilities * (1 - u))
    by (apply Qmult_le_0_compat; lra).
  lra.
Qed.

End SelectionResult.

(** ** Ant-colony optimisation: the main loop *)

Lemma initial_pheromones_shaped {S : Type} `{ServerLike S}
      (pool : list S) (taskLoads : list Q) :
  shaped (length taskLoads) (length pool)
         (AntColonyOptimizationLoadBalancing.initial_pheromones pool taskLoads).
Proof.
  unfold AntColonyOptimizationLoadBalancing.initial_pheromones. split.
  - apply repeat_length.
  - apply Forall_forall. intros row Hrow. apply repeat_spec in Hrow.
    subst row. apply repeat_length.
Qed.

Lemma initial_pheromones_entries {S : Type} `{ServerLike S}
      (pool : list S) (taskLoads : list Q) (t s : nat) (x : Q) :
  entry (AntColonyOptimizationLoadBalancing.initial_pheromones pool taskLoads)
        t s = Some x ->
  x = 1.
Proof.
  intros Hx. apply entry_Some in Hx. destruct Hx as (row & Hrow & Hx).
  unfold AntColonyOptimizationLoadBalancing.initial_pheromones in Hrow.
  apply nth_error_In, repeat_spec in Hrow. subst row.
  apply nth_error_In, repeat_spec in Hx. exact Hx.
Qed.

Lemma initial_pheromones_positive {S : Type} `{ServerLike S}
      (pool : list S) (taskLoads : list Q) :
  positive_matrix
    (AntColonyOptimizationLoadBalancing.initial_pheromones pool taskLoads).
Proof.
  apply positive_matrix_entries. intros t s x Hx.
  apply initial_pheromones_entries in Hx. subst x. reflexivity.
Qed.

Section AntColonyFacts.
Context {S : Type} `{ServerLike S} `{!ServerLaws S}.

Lemma heuristic_defined (pool : list S) (w : Q) :
  nonnegative_loads pool -> 0 < w ->
  forall server, In server pool ->
    ~ pow (getLoad server + w) AntColonyOptimizationLoadBalancing.beta == 0.
Proof.
  intros Hnn Hw server Hin.
  unfold nonnegative_loads in Hnn. rewrite Forall_forall in Hnn.
  specialize (Hnn server Hin). simpl in Hnn.
  assert (Hpos : 0 < pow (getLoad server + w)
                         AntColonyOptimizationLoadBalancing.beta)
    by (apply Qpower_0_lt; lra).
  lra.
Qed.

(** The ants of one iteration: every task is placed on a valid server. *)
Lemma move_ants_effect (rd : RandomDevice) (iteration : Z)
      (pheromones : list (list Q)) (taskLoads : list Q) (pool : list S) :
  pool <> [] ->
  shaped (length taskLoads) (length pool) pheromones ->
  positive_weights taskLoads -> nonnegative_loads pool ->
  exists pool',
    exec (AntColonyOptimizationLoadBalancing.move_ants
            rd iteration pheromones taskLoads)
         {| AntColonyOptimizationLoadBalancing.servers := pool |}
    = Some {| AntColonyOptimizationLoadBalancing.servers := pool' |} /\
    length pool' = length pool /\
    nonnegative_loads pool' /\
    (well_indexed pool -> well_indexed pool').
Proof.
  intros Hne Hsh Hpos Hnn.
  unfold exec, AntColonyOptimizationLoadBalancing.move_ants.
  cbv zeta. unfold Vec.size at 1.
  destruct (for_range_invariant
              (fun (k : nat) st =>
                 length (AntColonyOptimizationLoadBalancing.servers st)
                 = length pool /\
                 nonnegative_loads (AntColonyOptimizationLoadBalancing.servers st) /\
                 (well_indexed pool ->
                  well_indexed (AntColonyOptimizationLoadBalancing.servers st)))
              (fun taskId =>
                 this <- get ;;
                 currentServer <-
                   lift (AntColonyOptimizationLoadBalancing.selectNextServer
                           (next_unit rd (Z.to_nat (iteration * Vec.size taskLoads
                                                    + taskId)))
                           (AntColonyOptimizationLoadBalancing.servers this)
                           taskId pheromones taskLoads
                           AntColonyOptimizationLoadBalancing.alpha
                           AntColonyOptimizationLoadBalancing.beta) ;;
                 taskLoad <- lift (Vec.at_ taskLoads taskId) ;;
                 servers' <- lift (Vec.modify currentServer (addLoad taskLoad)
                                     (AntColonyOptimizationLoadBalancing.servers this)) ;;
                 put {| AntColonyOptimizationLoadBalancing.servers := servers' |})
              (length taskLoads))
    with {| AntColonyOptimizationLoadBalancing.servers := pool |}
    as ([pool'] & Hrun & Hlen & Hnn' & Hwi').
  - intros k [pool1] Hk (Hlen & Hnn1 & Hwi1). simpl in Hlen, Hnn1, Hwi1.
    destruct (nth_error taskLoads k) as [w|] eqn:Ew;
      [|apply nth_error_None in Ew; lia].
    assert (Hw : 0 < w).
    { unfold positive_weights in Hpos. rewrite Forall_forall in Hpos.
      apply Hpos. eapply nth_error_In, Ew. }
    destruct (selectNextServer_effect
                (next_unit rd (Z.to_nat (iteration * Vec.size taskLoads
                                         + Z.of_nat k)))
                pool1 k pheromones taskLoads w (length taskLoads)
                AntColonyOptimizationLoadBalancing.alpha
                AntColonyOptimizationLoadBalancing.beta)
      as (probs & i & _ & _ & Hsel & Hi & _).
    { intros ->. destruct pool; [contradiction|discriminate]. }
    { now rewrite Hlen. }
    { assumption. }
    { assumption. }
    { apply heuristic_defined; assumption. }
    destruct (modify_defined (addLoad w) pool1 (Z.of_nat i)) as (pool2 & Hm).
    { unfold Vec.size. lia. }
    unfold bind, get, lift, put.
    simpl AntColonyOptimizationLoadBalancing.servers.
    rewrite Hsel. cbv beta iota. rewrite at_of_nat, Ew. cbv beta iota.
    rewrite Hm. eexists. split; [reflexivity|].
    simpl AntColonyOptimizationLoadBalancing.servers. split; [|split].
    + apply modify_size in Hm. unfold Vec.size in Hm. lia.
    + eapply nonnegative_assign; eassumption.
    + intros Hwi. eapply well_indexed_assign; [exact (Hwi1 Hwi)|exact Hm].
  - simpl. auto.
  - rewrite Hrun. exists pool'. simpl in Hlen, Hnn', Hwi'. auto.
Qed.

(** One round of the main loop: the pheromones are updated and every
    load is reset to zero. *)
Lemma iteration_body_effect (rd : RandomDevice) (ants : bool)
      (taskLoads : list Q) (iteration : Z)
      (pool : list S) (pheromones : list (list Q)) :
  pool <> [] ->
  shaped (length taskLoads) (length pool) pheromones ->
  positive_weights taskLoads -> nonnegative_loads pool ->
  exists pool' pheromones',
    AntColonyOptimizationLoadBalancing.iteration_body
      rd ants taskLoads iteration
      ({| AntColonyOptimizationLoadBalancing.servers := pool |}, pheromones)
    = Some (tt, ({| AntColonyOptimizationLoadBalancing.servers := pool' |},
                 pheromones')) /\
    length pool' = length pool /\
    unloaded pool' /\
    (well_indexed pool -> well_indexed pool') /\
    shaped (length taskLoads) (length pool) pheromones' /\
    (positive_matrix pheromones -> positive_matrix pheromones').
Proof.
  intros Hne Hsh Hpos Hnn.
  assert (Hants : exists pool1,
             (if ants
              then exec (AntColonyOptimizationLoadBalancing.move_ants
                           rd iteration pheromones taskLoads)
                        {| AntColonyOptimizationLoadBalancing.servers := pool |}
              else Some {| AntColonyOptimizationLoadBalancing.servers := pool |})
             = Some {| AntColonyOptimizationLoadBalancing.servers := pool1 |} /\
             length pool1 = length pool /\ nonnegative_loads pool1 /\
             (well_indexed pool -> well_indexed pool1)).
  { destruct ants.
    - apply move_ants_effect; assumption.
    - exists pool. auto. }
  destruct Hants as (pool1 & Hrun1 & Hlen1 & Hnn1 & Hwi1).
  destruct (updatePheromones_effect pool1 taskLoads pheromones)
    as (pheromones' & Hup & Hsh' & _ & Hpos'); auto.
  { now rewrite Hlen1. }
  exists (map resetLoad pool1), pheromones'.
  unfold AntColonyOptimizationLoadBalancing.iteration_body.
  rewrite Hrun1. simpl AntColonyOptimizationLoadBalancing.servers.
  rewrite Hup. split; [reflexivity|].
  split; [now rewrite length_map|].
  split; [apply reset_unloaded|].
  split; [intros Hwi; apply well_indexed_reset; auto|].
  split; [now rewrite <- Hlen1|assumption].
Qed.

(** The main loop after [n] rounds. *)
Lemma iterate_effect (rd : RandomDevice) (ants : bool) (n : nat)
      (taskLoads : list Q) (pool : list S) :
  pool <> [] -> positive_weights taskLoads -> nonnegative_loads pool ->
  exists pool' pheromones',
    AntColonyOptimizationLoadBalancing.iterate
      rd ants (Z.of_nat n) taskLoads
      {| AntColonyOptimizationLoadBalancing.servers := pool |}
    = Some ({| AntColonyOptimizationLoadBalancing.servers := pool' |},
            pheromones') /\
    length pool' = length pool /\
    (n = 0%nat -> pool' = pool) /\
    ((0 < n)%nat -> unloaded pool') /\
    (well_indexed pool -> well_indexed pool') /\
    shaped (length taskLoads) (length pool) pheromones' /\
    positive_matrix pheromones'.
Proof.
  intros Hne Hpos Hnn.
  unfold AntColonyOptimizationLoadBalancing.iterate, exec.
  simpl AntColonyOptimizationLoadBalancing.servers.
  destruct (for_range_invariant
              (fun (k : nat) (st : AntColonyOptimizationLoadBalancing.t
                                   * list (list Q)) =>
                 let pool' := AntColonyOptimizationLoadBalancing.servers (fst st) in
                 length pool' = length pool /\
                 nonnegative_loads pool' /\
                 (k = 0%nat -> pool' = pool) /\
                 ((0 < k)%nat -> unloaded pool') /\
                 (well_indexed pool -> well_indexed pool') /\
                 shaped (length taskLoads) (length pool) (snd st) /\
                 positive_matrix (snd st))
              (AntColonyOptimizationLoadBalancing.iteration_body
                 rd ants taskLoads)
              n)
    with ({| AntColonyOptimizationLoadBalancing.servers := pool |},
          AntColonyOptimizationLoadBalancing.initial_pheromones pool taskLoads)
    as ([[pool'] pheromones'] & Hrun & HI).
  - intros k [[pool1] ph1] Hk HI. cbv zeta in HI. simpl in HI.
    destruct HI as (Hlen & Hnn1 & _ & _ & Hwi1 & Hsh1 & Hpos1).
    destruct (iteration_body_effect rd ants taskLoads (Z.of_nat k) pool1 ph1)
      as (pool2 & ph2 & Hbody & Hlen2 & Hun2 & Hwi2 & Hsh2 & Hpos2); auto.
    { intros ->. destruct pool; [contradiction|discriminate]. }
    { now rewrite Hlen. }
    rewrite Hbody. eexists. split; [reflexivity|]. cbv zeta. simpl.
    split; [lia|]. split; [now apply unloaded_nonnegative|].
    split; [lia|]. split; [auto|]. split; [auto|].
    split; [now rewrite <- Hlen|auto].
  - cbv zeta. simpl. split; [reflexivity|]. split; [assumption|].
    split; [reflexivity|]. split; [lia|]. split; [auto|].
    split; [apply initial_pheromones_shaped|apply initial_pheromones_positive].
  - rewrite Hrun. exists pool', pheromones'. cbv zeta in HI. simpl in HI.
    destruct HI as (Hlen & _ & H0 & Hun & Hwi & Hsh & Hposm).
    split; [reflexivity|]. auto 10.
Qed.

End AntColonyFacts.

Section AntColonyResults.
Context {S : Type} `{ServerLike S} `{!ServerLaws S}.

(** [balanceLoad] with at least one iteration returns a pool of the same
    size whose loads are all zero. *)
Lemma balanceLoad_with_resets (rd : RandomDevice) (ants : bool)
      (numIterations : Z) (taskLoads : list Q) (pool : list S) :
  (1 <= numIterations)%Z ->
  pool <> [] -> positive_weights taskLoads -> nonnegative_loads pool ->
  exists r,
    exec (AntColonyOptimizationLoadBalancing.balanceLoad_with
            rd ants numIterations taskLoads)
         (AntColonyOptimizationLoadBalancing.new pool) = Some r /\
    length (AntColonyOptimizationLoadBalancing.servers r) = length pool /\
    unloaded (AntColonyOptimizationLoadBalancing.servers r).
Proof.
  intros Hn Hne Hpos Hnn.
  destruct (iterate_effect rd ants (Z.to_nat numIterations) taskLoads pool
              Hne Hpos Hnn)
    as (pool' & ph & Hrun & Hlen & _ & Hun & _).
  rewrite Z2Nat.id in Hrun by lia.
  exists {| AntColonyOptimizationLoadBalancing.servers := pool' |}.
  unfold exec, AntColonyOptimizationLoadBalancing.balanceLoad_with,
    AntColonyOptimizationLoadBalancing.new.
  rewrite Hrun. split; [reflexivity|]. split; [assumption|].
  apply Hun. lia.
Qed.

(** Without any iteration it returns the pool as it was. *)
Lemma balanceLoad_with_no_iteration (rd : RandomDevice) (ants : bool)
      (numIterations : Z) (taskLoads : list Q) (pool : list S) :
  (numIterations <= 0)%Z ->
  exec (AntColonyOptimizationLoadBalancing.balanceLoad_with
          rd ants numIterations taskLoads)
       (AntColonyOptimizationLoadBalancing.new pool)
  = Some (AntColonyOptimizationLoadBalancing.new pool).
Proof.
  intros Hn.
  unfold exec, AntColonyOptimizationLoadBalancing.balanceLoad_with,
    AntColonyOptimizationLoadBalancing.iterate, exec, Vec.range.
  replace (Z.to_nat numIterations) with 0%nat by lia. reflexivity.
Qed.

End AntColonyResults.

Section Definedness.
Context {S : Type} `{ServerLike S} `{!ServerLaws S}.

Lemma WeightedRoundRobin_defined (tasks : list Q) :
  forall (pool : list S) (cursor : Z),
    well_indexed pool -> (0 <= cursor < Vec.size pool)%Z ->
    exists r,
      exec (WeightedRoundRobinLoadBalancing.balanceLoad tasks)
           {| WeightedRoundRobinLoadBalancing.servers := pool;
              WeightedRoundRobinLoadBalancing.currentServer := cursor |}
      = Some r /\
      well_indexed (WeightedRoundRobinLoadBalancing.servers r) /\
      Vec.size (WeightedRoundRobinLoadBalancing.servers r) = Vec.size pool /\
      (0 <= WeightedRoundRobinLoadBalancing.currentServer r
       < Vec.size pool)%Z.
Proof.
  induction tasks as [|w tasks IH]; intros pool cursor Hwi Hc.
  - eexists. split; [reflexivity|]. simpl. auto.
  - unfold exec in *. rewrite WeightedRoundRobin_cons.
    destruct (modify_defined (addLoad w) pool cursor Hc) as (pool' & Hm).
    rewrite Hm.
    pose proof (well_indexed_assign pool pool' cursor w Hwi Hm) as Hwi'.
    pose proof (modify_size _ _ _ _ Hm) as Hsz.
    destruct (min_scan_in_range pool' (modify_nonempty _ _ _ _ Hm) Hwi')
      as (cursor' & Hscan & Hc').
    rewrite Hscan. rewrite <- Hsz. apply IH; assumption.
Qed.

End Definedness.

(** ** Selection stays in range whenever it is defined *)

Lemma roulette_in_list (probabilities : list Q) (selection : Q) :
  forall serverIds cumulativeProbability i,
    AntColonyOptimizationLoadBalancing.roulette
      probabilities selection serverIds cumulativeProbability
    = Some (Some i) ->
    In i serverIds.
Proof.
  induction serverIds as [|serverId rest IH]; intros c i; simpl.
  - discriminate.
  - destruct (Vec.at_ probabilities serverId) as [p|]; [|discriminate].
    destruct (Qle_bool selection (c + p)).
    + intros [= <-]. now left.
    + intros Hr. right. eapply IH, Hr.
Qed.

Lemma selectNextServer_in_range {S : Type} `{ServerLike S}
      (u : Q) (pool : list S) (taskId : Z) (pheromones : list (list Q))
      (taskLoads : list Q) (alpha beta : Z) (i : Z) :
  pool <> [] ->
  AntColonyOptimizationLoadBalancing.selectNextServer
    u pool taskId pheromones taskLoads alpha beta = Some i ->
  (0 <= i < Vec.size pool)%Z.
Proof.
  intros Hne. unfold AntColonyOptimizationLoadBalancing.selectNextServer.
  cbv zeta.
  destruct (exec _ _) as [[probabilities totalProbability]|]; [|discriminate].
  destruct (AntColonyOptimizationLoadBalancing.roulette _ _ _ _)
    as [[j|]|] eqn:Er; [| |discriminate].
  - intros [= <-]. apply roulette_in_list in Er. now apply range_bounds in Er.
  - intros [= <-]. unfold Vec.size.
    destruct pool; [contradiction|]. simpl length. lia.
Qed.

(** ** The driver *)

Section DriverFacts.
Context {S : Type} `{ServerLike S}.

(** The constructor loop builds a well-indexed pool of [n] servers when
    [make i] has identifier [i]. *)
Lemma fill_effect (n : nat) (make : Z -> option S) :
  (forall i, (i < n)%nat ->
             exists s, make (Z.of_nat i) = Some s /\ getId s = Z.of_nat i) ->
  exists pool,
    exec (LoadBalancer.fill (Z.of_nat n) make)
         {| LoadBalancer.servers := [] |}
    = Some {| LoadBalancer.servers := pool |} /\
    length pool = n /\
    well_indexed pool /\
    forall i, (i < n)%nat -> nth_error pool i = make (Z.of_nat i).
Proof.
  intros Hmake. unfold exec, LoadBalancer.fill.
  destruct (for_range_invariant
              (fun (k : nat) (st : LoadBalancer.t) =>
                 length (LoadBalancer.servers st) = k /\
                 well_indexed (LoadBalancer.servers st) /\
                 forall i, (i < k)%nat ->
                           nth_error (LoadBalancer.servers st) i
                           = make (Z.of_nat i))
              (fun i =>
                 this <- get ;;
                 server <- lift (make i) ;;
                 put {| LoadBalancer.servers :=
                          LoadBalancer.servers this ++ [server] |})
              n) with {| LoadBalancer.servers := @nil S |}
    as ([pool] & Hrun & HI).
  - intros k [pool1] Hk (Hlen & Hwi & Hnth). simpl in Hlen, Hwi, Hnth.
    destruct (Hmake k Hk) as (s & Hs & Hid).
    unfold bind, get, lift, put. rewrite Hs.
    eexists. split; [reflexivity|]. simpl. split; [|split].
    + rewrite length_app. simpl. lia.
    + intros i s' Hi.
      destruct (Nat.lt_ge_cases i (length pool1)) as [Hlt|Hge].
      * rewrite nth_error_app1 in Hi by assumption. now apply Hwi.
      * rewrite nth_error_app2 in Hi by assumption.
        destruct (i - length pool1)%nat as [|m] eqn:E.
        -- simpl in Hi. injection Hi as <-. rewrite Hid. f_equal. lia.
        -- simpl in Hi. destruct m; discriminate.
    + intros i Hi. destruct (Nat.eq_dec i k) as [->|Hne].
      * rewrite nth_error_app2, Hlen, Nat.sub_diag by lia. simpl. now rewrite Hs.
      * rewrite nth_error_app1 by lia. apply Hnth. lia.
  - simpl. split; [reflexivity|]. split.
    + intros i s Hi. destruct i; discriminate.
    + intros i Hi. lia.
  - rewrite Hrun. exists pool. simpl in HI. tauto.
Qed.

(** [run] never changes the driver's own pool. *)
Lemma run_frame {A : Type} (alg : LoadBalancingAlgorithm S A)
      (taskLoads : list Q) (lb lb' : LoadBalancer.t) :
  exec (LoadBalancer.run alg taskLoads) lb = Some lb' -> lb' = lb.
Proof.
  unfold exec, LoadBalancer.run, bind, get, with_local.
  destruct (balanceLoad taskLoads (construct (LoadBalancer.servers lb)))
    as [[[] a]|]; [|discriminate].
  now intros [= <-].
Qed.

Lemma runs_frame {A : Type} (alg : LoadBalancingAlgorithm S A)
      (batches : list (list Q)) (lb lb' : LoadBalancer.t) :
  exec (for_each batches (LoadBalancer.run alg)) lb = Some lb' -> lb' = lb.
Proof.
  unfold exec.
  destruct (for_each batches (LoadBalancer.run alg) lb) as [[[] lb1]|] eqn:E;
    [|discriminate].
  intros [= <-].
  apply (for_each_partial (fun _ st => st = lb) (LoadBalancer.run alg) batches)
    with (st := lb); auto.
  intros done x rest st st' _ -> Hrun.
  apply (run_frame alg x). unfold exec. now rewrite Hrun.
Qed.

(** [run] is defined exactly when [balanceLoad] is defined on a copy of
    the pool. *)
Lemma run_defined {A : Type} (alg : LoadBalancingAlgorithm S A)
      (taskLoads : list Q) (lb : LoadBalancer.t) (r : A) :
  exec (balanceLoad taskLoads) (construct (LoadBalancer.servers lb)) = Some r ->
  exec (LoadBalancer.run alg taskLoads) lb = Some lb.
Proof.
  unfold exec, LoadBalancer.run, bind, get, with_local.
  destruct (balanceLoad taskLoads (construct (LoadBalancer.servers lb)))
    as [[[] a]|]; [reflexivity|discriminate].
Qed.

Lemma runs_defined {A : Type} (alg : LoadBalancingAlgorithm S A)
      (batches : list (list Q)) (lb : LoadBalancer.t) :
  Forall (fun taskLoads =>
            exists r, exec (balanceLoad taskLoads)
                           (construct (LoadBalancer.servers lb)) = Some r)
         batches ->
  exec (for_each batches (LoadBalancer.run alg)) lb = Some lb.
Proof.
  induction 1 as [|taskLoads batches (r & Hr) _ IH]; [reflexivity|].
  unfold exec in *. simpl. unfold bind.
  pose proof (run_defined alg taskLoads lb r Hr) as Hrun. unfold exec in Hrun.
  destruct (LoadBalancer.run alg taskLoads lb) as [[[] lb1]|]; [|discriminate].
  injection Hrun as ->. exact IH.
Qed.

End DriverFacts.

Lemma Plain_LoadBalancer_fresh (numServers : Z) :
  (0 < numServers)%Z ->
  exists lb, Plain_LoadBalancer numServers = Some lb /\
             Vec.size (LoadBalancer.servers lb) = numServers /\
             fresh_pool (LoadBalancer.servers lb).
Proof.
  intros Hn. unfold Plain_LoadBalancer.
  destruct (fill_effect (Z.to_nat numServers)
              (fun i => Some (Plain.newServer i)))
    as (pool & Hrun & Hlen & Hwi & Hnth).
  { intros i _. eexists. split; reflexivity. }
  rewrite Z2Nat.id in Hrun by lia. rewrite Hrun.
  eexists. split; [reflexivity|]. simpl. split; [|split; [|split]].
  - unfold Vec.size. lia.
  - intros ->. simpl in Hlen. lia.
  - assumption.
  - apply Forall_forall. intros s Hs. apply In_nth_error in Hs.
    destruct Hs as (i & Hi).
    assert (Hlt : (i < Z.to_nat numServers)%nat)
      by (rewrite <- Hlen; apply nth_error_Some; congruence).
    rewrite (Hnth i Hlt) in Hi. injection Hi as <-. reflexivity.
Qed.

Lemma Capacitated_LoadBalancer_fresh (capabilities : list Z) :
  capabilities <> [] ->
  exists lb, Capacitated_LoadBalancer capabilities = Some lb /\
             map getCapability (LoadBalancer.servers lb) = capabilities /\
             fresh_pool (LoadBalancer.servers lb).
Proof.
  intros Hne. unfold Capacitated_LoadBalancer, Vec.size.
  destruct (fill_effect (length capabilities)
              (fun i => match Vec.at_ capabilities i with
                        | Some c => Some (Capacitated.newServer i c)
                        | None => None
                        end))
    as (pool & Hrun & Hlen & Hwi & Hnth).
  { intros i Hi. rewrite at_of_nat.
    destruct (nth_error capabilities i) eqn:E;
      [|apply nth_error_None in E; lia].
    eexists. split; reflexivity. }
  rewrite Hrun. eexists. split; [reflexivity|]. simpl.
  assert (Hat : forall i s, nth_error pool i = Some s ->
                 exists c, nth_error capabilities i = Some c /\
                           s = Capacitated.newServer (Z.of_nat i) c).
  { intros i s Hi.
    assert (Hlt : (i < length capabilities)%nat)
      by (rewrite <- Hlen; apply nth_error_Some; congruence).
    rewrite (Hnth i Hlt), at_of_nat in Hi.
    destruct (nth_error capabilities i) as [c|]; [|discriminate].
    injection Hi as <-. eauto. }
  split; [|split; [|split]].
  - apply nth_error_ext. intros i. rewrite nth_error_map.
    destruct (nth_error pool i) as [s|] eqn:E.
    + destruct (Hat i s E) as (c & Hc & ->). simpl. now rewrite Hc.
    + simpl. symmetry. apply nth_error_None. apply nth_error_None in E. lia.
  - intros ->. destruct capabilities; [contradiction|discriminate].
  - assumption.
  - apply Forall_forall. intros s Hs. apply In_nth_error in Hs.
    destruct Hs as (i & Hi). destruct (Hat i s Hi) as (c & _ & ->). reflexivity.
Qed.

Lemma Queued_LoadBalancer_fresh (garbage : Z) (capabilities : list Z) :
  capabilities <> [] ->
  exists lb, Queued_LoadBalancer garbage capabilities = Some lb /\
             map getCapability (LoadBalancer.servers lb) = capabilities /\
             fresh_pool (LoadBalancer.servers lb).
Proof.
  intros Hne. unfold Queued_LoadBalancer, Vec.size.
  destruct (fill_effect (length capabilities)
              (fun i => match Vec.at_ capabilities i with
                        | Some c => Some (Queued.newServer garbage i c)
                        | None => None
                        end))
    as (pool & Hrun & Hlen & Hwi & Hnth).
  { intros i Hi. rewrite at_of_nat.
    destruct (nth_error capabilities i) eqn:E;
      [|apply nth_error_None in E; lia].
    eexists. split; reflexivity. }
  rewrite Hrun. eexists. split; [reflexivity|]. simpl.
  assert (Hat : forall i s, nth_error pool i = Some s ->
                 exists c, nth_error capabilities i = Some c /\
                           s = Queued.newServer garbage (Z.of_nat i) c).
  { intros i s Hi.
    assert (Hlt : (i < length capabilities)%nat)
      by (rewrite <- Hlen; apply nth_error_Some; congruence).
    rewrite (Hnth i Hlt), at_of_nat in Hi.
    destruct (nth_error capabilities i) as [c|]; [|discriminate].
    injection Hi as <-. eauto. }
  split; [|split; [|split]].
  - apply nth_error_ext. intros i. rewrite nth_error_map.
    destruct (nth_error pool i) as [s|] eqn:E.
    + destruct (Hat i s E) as (c & Hc & ->). simpl. now rewrite Hc.
    + simpl. symmetry. apply nth_error_None. apply nth_error_None in E. lia.
  - intros ->. destruct capabilities; [contradiction|discriminate].
  - assumption.
  - apply Forall_forall. intros s Hs. apply In_nth_error in Hs.
    destruct Hs as (i & Hi). destruct (Hat i s Hi) as (c & _ & ->). reflexivity.
Qed.

(** ** Throughput *)

Section ThroughputFacts.
Context {S : Type} `{ServerLike S} `{Capable S}.

Lemma getThroughput_defined (lb : LoadBalancer.t) (simulatedTime : Q) :
  ~ simulatedTime == 0 -> ~ LoadBalancer.totalCapability lb == 0 ->
  LoadBalancer.getThroughput lb simulatedTime
  = Some (LoadBalancer.getTotalLoad lb / simulatedTime
          / LoadBalancer.totalCapability lb).
Proof.
  intros Ht Hc. unfold LoadBalancer.getThroughput.
  rewrite (checked_div_defined _ _ Ht). now apply checked_div_defined.
Qed.

Lemma getThroughput_undefined (lb : LoadBalancer.t) (simulatedTime : Q) :
  simulatedTime == 0 \/ LoadBalancer.totalCapability lb == 0 ->
  LoadBalancer.getThroughput lb simulatedTime = None.
Proof.
  intros Hz. unfold LoadBalancer.getThroughput.
  destruct (checked_div (LoadBalancer.getTotalLoad lb) simulatedTime)
    as [q|] eqn:E; [|reflexivity].
  destruct Hz as [Ht|Hc].
  - rewrite (checked_div_undefined _ _ Ht) in E. discriminate.
  - now apply checked_div_undefined.
Qed.

End ThroughputFacts.

(** ** What the tasks add up to *)

Lemma sum_of_ones (tasks : list Q) : sum (map (fun _ => 1) tasks) == count tasks.
Proof.
  unfold count. induction tasks as [|w tasks IH].
  - reflexivity.
  - simpl map. rewrite sum_cons, IH. simpl length.
    rewrite Nat2Z.inj_succ, <- Z.add_1_l, inject_Z_plus. reflexivity.
Qed.

(** ** The concrete inputs *)

Lemma device_fair : fair Examples.device.
Proof.
  split.
  - intros k hi Hhi. simpl. lia.
  - intros k. simpl. split; reflexivity || discriminate.
Qed.

Lemma fresh_pool_intro {S : Type} `{ServerLike S} (pool : list S) :
  pool <> [] ->
  (forall i s, nth_error pool i = Some s ->
               getId s = Z.of_nat i /\ getLoad s == 0) ->
  fresh_pool pool.
Proof.
  intros Hne Hall. split; [assumption|]. split.
  - intros i s Hi. apply (Hall i s Hi).
  - apply Forall_forall. intros s Hs. apply In_nth_error in Hs.
    destruct Hs as (i & Hi). apply (Hall i s Hi).
Qed.

Ltac fresh_example :=
  apply fresh_pool_intro;
  [ discriminate
  | let i := fresh "i" in
    let s := fresh "s" in
    let Hi := fresh "Hi" in
    intros i s Hi;
    repeat (destruct i as [|i]; simpl in Hi; try discriminate;
            try (injection Hi as <-; split; reflexivity)) ].

Lemma plain_pair_fresh : fresh_pool Examples.plain_pair.
Proof. fresh_example. Qed.

Lemma capacitated_pair_fresh : fresh_pool Examples.capacitated_pair.
Proof. fresh_example. Qed.

(** ** Conservation of the assigned work *)

Section Conservation.
Context {S : Type} `{ServerLike S} `{!ServerLaws S}.
Context (gain : Q -> Q) `{!Gains S gain}.

Lemma tracks_total (pool pool' : list S) (tasks : list Q) :
  unloaded pool -> tracks gain pool tasks pool' ->
  pool_load pool' == sum (map gain tasks).
Proof.
  intros Hun (_ & _ & Hsum). rewrite Hsum, (pool_load_unloaded pool Hun). lra.
Qed.

End Conservation.

(** ** Pools whose identifiers are indexes *)

Section IdentifierFacts.
Context {S : Type} `{ServerLike S} `{!ServerLaws S}.

Lemma well_indexed_ids_in_range (pool : list S) :
  well_indexed pool -> ids_in_range pool.
Proof.
  intros Hwi. apply Forall_forall. intros s Hs.
  apply In_nth_error in Hs. destruct Hs as (i & Hi).
  rewrite (Hwi i s Hi).
  assert (i < length pool)%nat by (apply nth_error_Some; congruence).
  unfold Vec.size. lia.
Qed.

Lemma well_indexed_first_id_zero (pool : list S) :
  well_indexed pool -> first_id_zero pool.
Proof. intros Hwi s Hs. exact (Hwi 0%nat s Hs). Qed.

Lemma ids_in_range_assign (pool pool' : list S) (i : Z) (w : Q) :
  ids_in_range pool ->
  Vec.modify i (addLoad w) pool = Some pool' ->
  ids_in_range pool'.
Proof.
  intros Hids Hm. pose proof (modify_size _ _ _ _ Hm) as Hsize.
  unfold ids_in_range in *. rewrite Hsize.
  apply modify_split in Hm. destruct Hm as (_ & a & x & b & -> & _ & ->).
  rewrite Forall_app in *. destruct Hids as [Ha Hxb].
  inversion Hxb as [|? ? Hx Hb]; subst.
  split; [assumption|]. constructor; [|assumption].
  now rewrite getId_addLoad.
Qed.

(** The scan of a non-empty pool whose identifiers are indexes yields a
    valid index. *)
Lemma min_scan_ids_in_range (pool : list S) :
  pool <> [] -> ids_in_range pool ->
  exists i, min_scan pool = Some i /\ (0 <= i < Vec.size pool)%Z.
Proof.
  intros Hne Hids.
  destruct (min_scan_first_minimum pool Hne) as (j & s & Hscan & Hj & _).
  exists (getId s). split; [assumption|].
  unfold ids_in_range in Hids. rewrite Forall_forall in Hids.
  apply Hids. eapply nth_error_In; eassumption.
Qed.

(** On an unloaded pool the scan yields the identifier of the first
    server. *)
Lemma min_scan_unloaded (s0 : S) (pool : list S) :
  unloaded (s0 :: pool) -> min_scan (s0 :: pool) = Some (getId s0).
Proof.
  intros Hun.
  destruct (min_scan_first_minimum (s0 :: pool)) as (j & s & Hscan & Hj & _ & Hlt);
    [discriminate|].
  destruct j as [|j].
  - simpl in Hj. injection Hj as <-. exact Hscan.
  - exfalso.
    assert (H0 : getLoad s < getLoad s0)
      by (apply (Hlt 0%nat); [lia|reflexivity]).
    unfold unloaded in Hun. rewrite Forall_forall in Hun.
    assert (Hs : getLoad s == 0)
      by (apply Hun; eapply nth_error_In; eassumption).
    assert (Hs0 : getLoad s0 == 0) by (apply Hun; left; reflexivity).
    lra.
Qed.

(** Weighted round-robin returns on a pool whose identifiers are
    indexes. *)
Lemma WeightedRoundRobin_returns (tasks : list Q) :
  forall (pool : list S) (cursor : Z),
    ids_in_range pool -> (0 <= cursor < Vec.size pool)%Z ->
    exists r,
      exec (WeightedRoundRobinLoadBalancing.balanceLoad tasks)
           {| WeightedRoundRobinLoadBalancing.servers := pool;
              WeightedRoundRobinLoadBalancing.currentServer := cursor |}
      = Some r /\
      ids_in_range (WeightedRoundRobinLoadBalancing.servers r) /\
      Vec.size (WeightedRoundRobinLoadBalancing.servers r) = Vec.size pool.
Proof.
  induction tasks as [|w tasks IH]; intros pool cursor Hids Hc.
  - eexists. split; [reflexivity|]. simpl. auto.
  - unfold exec in *. rewrite WeightedRoundRobin_cons.
    destruct (modify_defined (addLoad w) pool cursor Hc) as (pool' & Hm).
    rewrite Hm.
    pose proof (ids_in_range_assign pool pool' cursor w Hids Hm) as Hids'.
    pose proof (modify_size _ _ _ _ Hm) as Hsz.
    destruct (min_scan_ids_in_range pool' (modify_nonempty _ _ _ _ Hm) Hids')
      as (cursor' & Hscan & Hc').
    rewrite Hscan. rewrite <- Hsz. apply IH; assumption.
Qed.

End IdentifierFacts.

Section LeastLoadedTotals.
Context {S : Type} `{ServerLike S} `{!ServerLaws S}.
Context (gain : Q -> Q) `{!Gains S gain}.

Lemma WeightedRoundRobin_gain (pool : list S) (tasks : list Q) :
  pool <> [] -> ids_in_range pool ->
  exists r,
    exec (WeightedRoundRobinLoadBalancing.balanceLoad tasks)
         (WeightedRoundRobinLoadBalancing.new pool) = Some r /\
    tracks gain pool tasks (WeightedRoundRobinLoadBalancing.servers r).
Proof.
  intros Hne Hids.
  assert (Hn : (0 < Vec.size pool)%Z).
  { unfold Vec.size. destruct pool; [contradiction|simpl length; lia]. }
  unfold exec, WeightedRoundRobinLoadBalancing.balanceLoad.
  destruct (for_each_invariant
              (fun done st =>
                 (0 <= WeightedRoundRobinLoadBalancing.currentServer st
                  < Vec.size pool)%Z /\
                 ids_in_range (WeightedRoundRobinLoadBalancing.servers st) /\
                 tracks gain pool done
                        (WeightedRoundRobinLoadBalancing.servers st))
              (fun taskLoad =>
                 this <- get ;;
                 servers' <- lift (Vec.modify
                                     (WeightedRoundRobinLoadBalancing.currentServer this)
                                     (addLoad taskLoad)
                                     (WeightedRoundRobinLoadBalancing.servers this)) ;;
                 put {| WeightedRoundRobinLoadBalancing.servers := servers';
                        WeightedRoundRobinLoadBalancing.currentServer :=
                          WeightedRoundRobinLoadBalancing.currentServer this |} ;;
                 WeightedRoundRobinLoadBalancing.updateCurrentServer)
              tasks) with (WeightedRoundRobinLoadBalancing.new pool)
    as (r & Hr & _ & _ & HI).
  - intros done w rest [pool1 cursor] _ (Hc & Hids1 & Htr).
    simpl in Hc, Hids1, Htr.
    assert (Hsz : Vec.size pool1 = Vec.size pool).
    { destruct Htr as (Hlen & _). unfold Vec.size. now rewrite Hlen. }
    destruct (modify_defined (addLoad w) pool1 cursor) as (pool2 & Hm).
    { now rewrite Hsz. }
    pose proof (tracks_assign gain pool pool1 pool2 done cursor w Htr Hm) as Htr2.
    pose proof (ids_in_range_assign pool1 pool2 cursor w Hids1 Hm) as Hids2.
    pose proof (modify_size _ _ _ _ Hm) as Hsz2.
    destruct (min_scan_ids_in_range pool2) as (i & Hscan & Hi);
      [eapply modify_nonempty; eassumption|assumption|].
    unfold WeightedRoundRobinLoadBalancing.updateCurrentServer,
      bind, get, lift, put. simpl. rewrite Hm, Hscan.
    eexists. split; [reflexivity|]. simpl. split; [lia|].
    split; assumption.
  - simpl. split; [lia|]. split; [assumption|]. apply tracks_start.
  - rewrite Hr. exists r. split; [reflexivity|assumption].
Qed.

Lemma ActiveClustering_gain (pool : list S) (tasks : list Q) :
  pool <> [] -> ids_in_range pool ->
  exists r,
    exec (ActiveClusteringLoadBalancing.balanceLoad tasks)
         (ActiveClusteringLoadBalancing.new pool) = Some r /\
    tracks gain pool tasks (ActiveClusteringLoadBalancing.servers r).
Proof.
  intros Hne Hids.
  unfold exec, ActiveClusteringLoadBalancing.balanceLoad.
  destruct (for_each_invariant
              (fun done st =>
                 ids_in_range (ActiveClusteringLoadBalancing.servers st) /\
                 tracks gain pool done
                        (ActiveClusteringLoadBalancing.servers st))
              (fun taskLoad =>
                 this <- get ;;
                 minLoadServer <- lift (min_scan
                                          (ActiveClusteringLoadBalancing.servers this)) ;;
                 servers' <- lift (Vec.modify minLoadServer (addLoad taskLoad)
                                     (ActiveClusteringLoadBalancing.servers this)) ;;
                 put {| ActiveClusteringLoadBalancing.servers := servers' |})
              tasks) with (ActiveClusteringLoadBalancing.new pool)
    as (r & Hr & _ & HI).
  - intros done w rest [pool1] _ (Hids1 & Htr). simpl in Hids1, Htr.
    pose proof Htr as (Hlen & _).
    destruct (min_scan_ids_in_range pool1) as (i & Hscan & Hi);
      [eapply nonempty_of_length; eassumption|assumption|].
    destruct (modify_defined (addLoad w) pool1 i Hi) as (pool2 & Hm).
    unfold bind, get, lift, put. simpl. rewrite Hscan, Hm.
    eexists. split; [reflexivity|]. simpl. split.
    + eapply ids_in_range_assign; eassumption.
    + eapply tracks_assign; eassumption.
  - simpl. split; [assumption|]. apply tracks_start.
  - rewrite Hr. exists r. split; [reflexivity|assumption].
Qed.

(** Random and round-robin return on every non-empty pool, and the loads
    of an unloaded pool then total what the tasks made the servers
    gain. *)
Lemma blind_policies_gain (rd : RandomDevice) (pool : list S)
      (tasks : list Q) :
  fair rd -> pool <> [] -> unloaded pool ->
  blind_policies_total rd pool tasks (sum (map gain tasks)).
Proof.
  intros Hfair Hne Hun. unfold blind_policies_total.
  destruct (Random_tracks gain rd pool tasks Hfair Hne) as (r1 & Hr1 & Ht1).
  destruct (RoundRobin_tracks gain pool tasks Hne) as (r2 & Hr2 & Ht2).
  split; eexists; (split; [eassumption|]);
    eapply tracks_total; eassumption.
Qed.

(** So do weighted round-robin and active clustering when every
    identifier is an index of the pool. *)
Lemma least_loaded_policies_gain (pool : list S) (tasks : list Q) :
  pool <> [] -> unloaded pool -> ids_in_range pool ->
  least_loaded_policies_total pool tasks (sum (map gain tasks)).
Proof.
  intros Hne Hun Hids. unfold least_loaded_policies_total.
  destruct (WeightedRoundRobin_gain pool tasks Hne Hids) as (r3 & Hr3 & Ht3).
  destruct (ActiveClustering_gain pool tasks Hne Hids) as (r4 & Hr4 & Ht4).
  split; eexists; (split; [eassumption|]);
    eapply tracks_total; eassumption.
Qed.

End LeastLoadedTotals.

(** ** Every policy returns on a fresh pool *)

Section Returns.
Context {S : Type} `{ServerLike S}.

(** A loop that only replaces servers in place, at indices drawn in
    range, is defined. *)
Lemma drawing_loop_defined {St : Type} (servers : St -> list S)
      (rebuild : list S -> St) (draw : nat -> St -> option Z)
      (tasks : list Q) (st : St) :
  (forall pool, servers (rebuild pool) = pool) ->
  (forall k st', length (servers st') = length (servers st) ->
                 exists i, draw k st' = Some i /\
                           (0 <= i < Vec.size (servers st'))%Z) ->
  exists r,
    for_each (enumerate tasks)
      (fun '(k, taskLoad) =>
         this <- get ;;
         randomServer <- lift (draw k this) ;;
         servers' <- lift (Vec.modify randomServer (addLoad taskLoad)
                                      (servers this)) ;;
         put (rebuild servers')) st
    = Some (tt, r) /\
    length (servers r) = length (servers st).
Proof.
  intros Hrebuild Hdraw.
  apply (for_each_invariant
           (fun _ st' => length (servers st') = length (servers st))).
  - intros done [k w] rest st1 _ Hlen.
    destruct (Hdraw k st1 Hlen) as (i & Hi & Hrange).
    destruct (modify_defined (addLoad w) (servers st1) i Hrange)
      as (pool2 & Hm).
    unfold bind, get, lift, put. rewrite Hi, Hm.
    eexists. split; [reflexivity|]. rewrite Hrebuild.
    apply modify_size in Hm. unfold Vec.size in Hm. lia.
  - reflexivity.
Qed.

Lemma uniform_int_in_range (rd : RandomDevice) (k : nat) (n : Z) :
  fair rd -> (0 < n)%Z ->
  exists i, uniform_int rd k 0 (n - 1) = Some i /\ (0 <= i < n)%Z.
Proof.
  intros [Hint _] Hn. unfold uniform_int.
  destruct (Z.ltb_spec (n - 1) 0); [lia|].
  eexists. split; [reflexivity|].
  specialize (Hint k (n - 1 - 0)%Z ltac:(lia)). lia.
Qed.

Lemma Random_defined (rd : RandomDevice) (pool : list S) (tasks : list Q) :
  fair rd -> pool <> [] ->
  exists r, exec (RandomLoadBalancing.balanceLoad rd tasks)
                 (RandomLoadBalancing.new pool) = Some r.
Proof.
  intros Hfair Hne.
  assert (Hn : (0 < Vec.size pool)%Z).
  { unfold Vec.size. destruct pool; [contradiction|simpl length; lia]. }
  unfold exec, RandomLoadBalancing.balanceLoad, bind at 1, get at 1.
  destruct (drawing_loop_defined RandomLoadBalancing.servers
              (fun servers' => {| RandomLoadBalancing.servers := servers' |})
              (fun k _ => uniform_int rd k 0 (Vec.size pool - 1))
              tasks (RandomLoadBalancing.new pool)) as (r & Hr & _).
  - reflexivity.
  - intros k st' Hlen.
    destruct (uniform_int_in_range rd k (Vec.size pool) Hfair Hn)
      as (i & Hi & Hrange).
    exists i. split; [assumption|]. unfold Vec.size in *.
    simpl in Hlen. lia.
  - simpl RandomLoadBalancing.servers. rewrite Hr. eauto.
Qed.

Lemma placeholder_defined (rd : RandomDevice) (pool : list S)
      (tasks : list Q) :
  fair rd -> pool <> [] ->
  exists r,
    exec (AntColonyOptimizationLoadBalancing.balanceLoad_placeholder rd tasks)
         (AntColonyOptimizationLoadBalancing.new pool) = Some r.
Proof.
  intros Hfair Hne.
  assert (Hn : (0 < Vec.size pool)%Z).
  { unfold Vec.size. destruct pool; [contradiction|simpl length; lia]. }
  unfold exec, AntColonyOptimizationLoadBalancing.balanceLoad_placeholder.
  destruct (drawing_loop_defined AntColonyOptimizationLoadBalancing.servers
              (fun servers' =>
                 {| AntColonyOptimizationLoadBalancing.servers := servers' |})
              (AntColonyOptimizationLoadBalancing.getRandomServer rd)
              tasks (AntColonyOptimizationLoadBalancing.new pool))
    as (r & Hr & _).
  - reflexivity.
  - intros k st' Hlen.
    unfold AntColonyOptimizationLoadBalancing.getRandomServer.
    apply uniform_int_in_range; [assumption|].
    unfold Vec.size in *. simpl in Hlen. lia.
  - rewrite Hr. eauto.
Qed.

Lemma ActiveClustering_defined `{!ServerLaws S}
      (pool : list S) (tasks : list Q) :
  pool <> [] -> well_indexed pool ->
  exists r, exec (ActiveClusteringLoadBalancing.balanceLoad tasks)
                 (ActiveClusteringLoadBalancing.new pool) = Some r.
Proof.
  intros Hne Hwi.
  destruct (min_scan_in_range pool Hne Hwi) as (cursor & Hscan & Hc).
  destruct (WeightedRoundRobin_defined tasks pool cursor Hwi Hc)
    as (w & Hw & _).
  pose proof (least_loaded_in_step tasks pool cursor Hscan) as Hstep.
  rewrite Hw in Hstep. unfold ActiveClusteringLoadBalancing.new.
  destruct (exec (ActiveClusteringLoadBalancing.balanceLoad tasks) _)
    as [a|]; [eauto|contradiction].
Qed.

Lemma RoundRobin_defined (pool : list S) (tasks : list Q) :
  pool <> [] ->
  exists r, exec (RoundRobinLoadBalancing.balanceLoad tasks)
                 (RoundRobinLoadBalancing.new pool) = Some r.
Proof.
  intros Hne. destruct (RoundRobin_strided pool tasks Hne) as (r & Hr & _).
  eauto.
Qed.

Lemma AntColony_defined `{!ServerLaws S} (rd : RandomDevice) (ants : bool)
      (numIterations : Z) (pool : list S) (tasks : list Q) :
  pool <> [] -> unloaded pool -> positive_weights tasks ->
  exists r,
    exec (AntColonyOptimizationLoadBalancing.balanceLoad_with
            rd ants numIterations tasks)
         (AntColonyOptimizationLoadBalancing.new pool) = Some r.
Proof.
  intros Hne Hun Hpos.
  destruct (Z_le_gt_dec 1 numIterations) as [Hn|Hn].
  - destruct (balanceLoad_with_resets rd ants numIterations tasks pool
                Hn Hne Hpos (unloaded_nonnegative pool Hun)) as (r & Hr & _).
    eauto.
  - eexists. apply balanceLoad_with_no_iteration. lia.
Qed.

End Returns.

(** ** The driver's pool is not touched by a run *)

(** C2.  Whatever the policy, the runs of a [LoadBalancer] leave its own
    server pool as it was (the policy object works on a copy), so
    [getTotalLoad] and [getThroughput] return after the runs what they
    returned before; on a pool without load they return 0, [getThroughput]
    whenever it is defined (non-zero time and total capability).  The runs
    do return for each policy of the three listings, on a fresh pool and
    positive task weights. *)
Theorem run_leaves_the_driver_pool_unchanged
        {S : Type} `{ServerLike S} `{!ServerLaws S}
        (rd : RandomDevice) (batches : list (list Q)) (lb : LoadBalancer.t) :
  (fair rd -> fresh_pool (LoadBalancer.servers lb) ->
   Forall positive_weights batches ->
   exec (runs (RandomLoadBalancing.algorithm rd) batches) lb = Some lb /\
   exec (runs RoundRobinLoadBalancing.algorithm batches) lb = Some lb /\
   exec (runs WeightedRoundRobinLoadBalancing.algorithm batches) lb = Some lb /\
   exec (runs ActiveClusteringLoadBalancing.algorithm batches) lb = Some lb /\
   exec (runs (AntColonyOptimizationLoadBalancing.algorithm_plain rd) batches) lb
   = Some lb /\
   exec (runs (AntColonyOptimizationLoadBalancing.algorithm rd) batches) lb
   = Some lb /\
   exec (runs (AntColonyOptimizationLoadBalancing.algorithm_placeholder rd)
              batches) lb
   = Some lb) /\
  (forall (A : Type) (alg : LoadBalancingAlgorithm S A) (lb' : LoadBalancer.t),
      exec (runs alg batches) lb = Some lb' ->
      lb' = lb /\
      LoadBalancer.getTotalLoad lb' = LoadBalancer.getTotalLoad lb /\
      (forall (C : Capable S) (t : Q),
          LoadBalancer.getThroughput lb' t = LoadBalancer.getThroughput lb t) /\
      (unloaded (LoadBalancer.servers lb) ->
       LoadBalancer.getTotalLoad lb' == 0 /\
       forall (C : Capable S) (t : Q),
         ~ t == 0 -> ~ LoadBalancer.totalCapability lb == 0 ->
         exists v, LoadBalancer.getThroughput lb' t = Some v /\ v == 0)).
Proof.
  split.
  - intros Hfair (Hne & Hwi & Hun) Hpos.
    repeat split; apply runs_defined; simpl;
      (apply Forall_forall; intros tasks Hin);
      try (rewrite Forall_forall in Hpos; specialize (Hpos tasks Hin)).
    + now apply Random_defined.
    + now apply RoundRobin_defined.
    + destruct (WeightedRoundRobin_defined tasks (LoadBalancer.servers lb) 0
                  Hwi) as (r & Hr & _); [|eauto].
      unfold Vec.size. destruct (LoadBalancer.servers lb);
        [contradiction|simpl length; lia].
    + now apply ActiveClustering_defined.
    + now apply AntColony_defined.
    + now apply AntColony_defined.
    + now apply placeholder_defined.
  - intros A alg lb' Hrun. apply runs_frame in Hrun. subst lb'.
    split; [reflexivity|]. split; [reflexivity|]. split; [reflexivity|].
    intros Hun.
    assert (Hzero : LoadBalancer.getTotalLoad lb == 0).
    { destruct lb as [pool]. apply (pool_load_unloaded pool Hun). }
    split; [assumption|].
    intros C t Ht Hc. rewrite (getThroughput_defined lb t Ht Hc).
    eexists. split; [reflexivity|]. rewrite Hzero. unfold Qdiv. ring.
Qed.

Lemma run_leaves_the_driver_pool_unchanged_witness :
  fair Examples.device /\
  fresh_pool Examples.capacitated_pair /\
  Forall positive_weights [[3; 1]; [2]] /\
  exec (runs RoundRobinLoadBalancing.algorithm [[3; 1]; [2]])
       {| LoadBalancer.servers := Examples.capacitated_pair |}
  = Some {| LoadBalancer.servers := Examples.capacitated_pair |} /\
  unloaded Examples.capacitated_pair /\
  ~ 3 == 0 /\
  ~ LoadBalancer.totalCapability
      {| LoadBalancer.servers := Examples.capacitated_pair |} == 0 /\
  exec (runs (AntColonyOptimizationLoadBalancing.algorithm Examples.device)
             [[3; 1]; [2]])
       {| LoadBalancer.servers := Examples.capacitated_pair |}
  = Some {| LoadBalancer.servers := Examples.capacitated_pair |} /\
  LoadBalancer.getTotalLoad
    {| LoadBalancer.servers := Examples.capacitated_pair |} == 0 /\
  exists v,
    LoadBalancer.getThroughput
      {| LoadBalancer.servers := Examples.capacitated_pair |} 3 = Some v /\
    v == 0.
Proof.
  pose proof (run_leaves_the_driver_pool_unchanged
                Examples.device [[3; 1]; [2]]
                {| LoadBalancer.servers := Examples.capacitated_pair |})
    as [Hdef Hframe].
  assert (Hpos : Forall positive_weights [[3; 1]; [2]]).
  { repeat constructor. }
  assert (Hrun : exec (runs RoundRobinLoadBalancing.algorithm [[3; 1]; [2]])
                      {| LoadBalancer.servers := Examples.capacitated_pair |}
                 = Some {| LoadBalancer.servers := Examples.capacitated_pair |})
    by reflexivity.
  assert (Hun : unloaded Examples.capacitated_pair)
    by (repeat constructor).
  assert (Ht : ~ 3 == 0) by discriminate.
  assert (Hc : ~ LoadBalancer.totalCapability
                   {| LoadBalancer.servers := Examples.capacitated_pair |} == 0)
    by discriminate.
  split; [exact device_fair|].
  split; [exact capacitated_pair_fresh|].
  split; [exact Hpos|]. split; [exact Hrun|]. split; [exact Hun|].
  split; [exact Ht|]. split; [exact Hc|].
  split.
  - apply (Hdef device_fair capacitated_pair_fresh Hpos).
  - destruct (Hframe _ RoundRobinLoadBalancing.algorithm _ Hrun)
      as (_ & _ & _ & Hfresh).
    destruct (Hfresh Hun) as [Hzero Hthroughput].
    split; [exact Hzero|]. exact (Hthroughput _ 3 Ht Hc).
Defined.

(** ** Round-robin *)

(** C4 (as the code has it).  Round-robin is a function of the pool and
    the task list: on a pool of [n >= 1] servers, starting at server 0,
    server [i] receives exactly the tasks at positions [i], [i + n],
    [i + 2n], ... in order, and the cursor ends at the number of tasks
    modulo [n].  With 2 servers and the tasks [3, 3, 3, 3], both servers
    receive two tasks of weight 3: the [Server] classes that accumulate the
    weights end with loads 6 and 6, total 12; the [Server] class of the
    first listing ends with the queues [3, 3] and [3, 3] and reports their
    lengths, 2 and 2, total 4. *)
Theorem round_robin_places_by_stride
        {S : Type} `{ServerLike S} (pool : list S) (tasks : list Q) :
  pool <> [] ->
  (exists r,
      exec (RoundRobinLoadBalancing.balanceLoad tasks)
           (RoundRobinLoadBalancing.new pool) = Some r /\
      RoundRobinLoadBalancing.currentServer r
      = Z.of_nat (length tasks mod length pool) /\
      length (RoundRobinLoadBalancing.servers r) = length pool /\
      forall i s, nth_error pool i = Some s ->
                  nth_error (RoundRobinLoadBalancing.servers r) i
                  = Some (place_all (strided (length pool) i tasks) s)) /\
  (exec (RoundRobinLoadBalancing.balanceLoad [3; 3; 3; 3])
        (RoundRobinLoadBalancing.new Examples.capacitated_pair)
   = Some {| RoundRobinLoadBalancing.servers :=
               [{| Capacitated.id := 0; Capacitated.capability := 1;
                   Capacitated.load := 6 |};
                {| Capacitated.id := 1; Capacitated.capability := 1;
                   Capacitated.load := 6 |}];
             RoundRobinLoadBalancing.currentServer := 0 |} /\
   pool_load [{| Capacitated.id := 0; Capacitated.capability := 1;
                 Capacitated.load := 6 |};
              {| Capacitated.id := 1; Capacitated.capability := 1;
                 Capacitated.load := 6 |}] == 12) /\
  (exec (RoundRobinLoadBalancing.balanceLoad [3; 3; 3; 3])
        (RoundRobinLoadBalancing.new Examples.plain_pair)
   = Some {| RoundRobinLoadBalancing.servers :=
               [{| Plain.id := 0; Plain.load := 6 |};
                {| Plain.id := 1; Plain.load := 6 |}];
             RoundRobinLoadBalancing.currentServer := 0 |} /\
   pool_load [{| Plain.id := 0; Plain.load := 6 |};
              {| Plain.id := 1; Plain.load := 6 |}] == 12) /\
  (exec (RoundRobinLoadBalancing.balanceLoad [3; 3; 3; 3])
        (RoundRobinLoadBalancing.new Examples.queued_pair)
   = Some {| RoundRobinLoadBalancing.servers :=
               [{| Queued.id := 0; Queued.capability := 1; Queued.load := 0;
                   Queued.total_load := 2; Queued.loads := [3; 3]%Z |};
                {| Queued.id := 1; Queued.capability := 1; Queued.load := 0;
                   Queued.total_load := 2; Queued.loads := [3; 3]%Z |}];
             RoundRobinLoadBalancing.currentServer := 0 |} /\
   map getLoad
       [{| Queued.id := 0; Queued.capability := 1; Queued.load := 0;
           Queued.total_load := 2; Queued.loads := [3; 3]%Z |};
        {| Queued.id := 1; Queued.capability := 1; Queued.load := 0;
           Queued.total_load := 2; Queued.loads := [3; 3]%Z |}] = [2; 2] /\
   pool_load
       [{| Queued.id := 0; Queued.capability := 1; Queued.load := 0;
           Queued.total_load := 2; Queued.loads := [3; 3]%Z |};
        {| Queued.id := 1; Queued.capability := 1; Queued.load := 0;
           Queued.total_load := 2; Queued.loads := [3; 3]%Z |}] == 4).
Proof.
  intros Hne. split; [now apply RoundRobin_strided|].
  repeat split; reflexivity.
Qed.

Lemma round_robin_places_by_stride_witness :
  Examples.plain_pair <> [] /\
  exists r,
    exec (RoundRobinLoadBalancing.balanceLoad [1; 2; 3; 4; 5])
         (RoundRobinLoadBalancing.new Examples.plain_pair) = Some r /\
    RoundRobinLoadBalancing.currentServer r
    = Z.of_nat (length [1; 2; 3; 4; 5] mod length Examples.plain_pair) /\
    length (RoundRobinLoadBalancing.servers r) = length Examples.plain_pair /\
    forall i s, nth_error Examples.plain_pair i = Some s ->
                nth_error (RoundRobinLoadBalancing.servers r) i
                = Some (place_all
                          (strided (length Examples.plain_pair) i
                                   [1; 2; 3; 4; 5]) s).
Proof.
  assert (Hne : Examples.plain_pair <> []) by discriminate.
  split; [exact Hne|].
  exact (proj1 (round_robin_places_by_stride
                  Examples.plain_pair [1; 2; 3; 4; 5] Hne)).
Defined.

(** C4 as stated fails on the servers of the first listing: with 2 servers
    and the tasks [3, 3, 3, 3], both end with load 2 and the total is 4,
    not 6, 6 and 12. *)
Lemma queued_round_robin_reports_queue_lengths :
  exists r,
    exec (RoundRobinLoadBalancing.balanceLoad [3; 3; 3; 3])
         (RoundRobinLoadBalancing.new Examples.queued_pair) = Some r /\
    map getLoad (RoundRobinLoadBalancing.servers r) = [2; 2] /\
    map getLoad (RoundRobinLoadBalancing.servers r) <> [6; 6] /\
    pool_load (RoundRobinLoadBalancing.servers r) == 4 /\
    ~ pool_load (RoundRobinLoadBalancing.servers r) == 12.
Proof.
  eexists. split; [reflexivity|].
  split; [reflexivity|]. split; [discriminate|].
  split; [reflexivity|]. vm_compute. discriminate.
Qed.

(** ** Weighted round-robin: the cursor *)



(** ** Totals up to equality *)

Lemma returns_with_total_eq {S A : Type} `{ServerLike S}
      (final : option A) (servers : A -> list S) (total total' : Q) :
  total == total' ->
  returns_with_total final servers total ->
  returns_with_total final servers total'.
Proof.
  intros Heq (r & Hr & Ht). exists r. split; [assumption|].
  now rewrite Ht.
Qed.

(** ** The pheromone matrix stays positive *)




(** ** Roulette-wheel selection *)

Section SelectionPositivity.
Context {S : Type} `{ServerLike S}.

Lemma probabilities_nonnegative (pool : list S) (t : nat)
      (pheromones : list (list Q)) (w : Q) (rows : nat)
      (probabilities : list Q) :
  shaped rows (length pool) pheromones -> (t < rows)%nat ->
  positive_matrix pheromones -> nonnegative_loads pool -> 0 < w ->
  length probabilities = length pool ->
  (forall s server x,
      nth_error pool s = Some server -> entry pheromones t s = Some x ->
      nth_error probabilities s
      = Some (pow x AntColonyOptimizationLoadBalancing.alpha
              * (1 / pow (getLoad server + w)
                         AntColonyOptimizationLoadBalancing.beta))) ->
  Forall (fun p => 0 < p) probabilities.
Proof.
  intros Hsh Ht Hpos Hnn Hw Hlen Hent.
  apply Forall_forall. intros p Hp. apply In_nth_error in Hp.
  destruct Hp as (s & Hs).
  assert (Hlt : (s < length pool)%nat)
    by (rewrite <- Hlen; apply nth_error_Some; congruence).
  destruct (nth_error pool s) as [server|] eqn:Es;
    [|apply nth_error_None in Es; lia].
  destruct (shaped_entry _ _ pheromones t s Hsh Ht Hlt) as (x & Hx).
  rewrite (Hent s server x Es Hx) in Hs. injection Hs as <-.
  rewrite positive_matrix_entries in Hpos. specialize (Hpos t s x Hx).
  unfold nonnegative_loads in Hnn. rewrite Forall_forall in Hnn.
  specialize (Hnn server (nth_error_In _ _ Es)). simpl in Hnn.
  assert (Hp : 0 < pow x AntColonyOptimizationLoadBalancing.alpha)
    by (apply Qpower_0_lt; exact Hpos).
  assert (Hh : 0 < 1 / pow (getLoad server + w)
                           AntColonyOptimizationLoadBalancing.beta)
    by (apply Qdiv_pos; [lra|]; apply Qpower_0_lt; lra).
  apply Qmult_lt_0_compat; assumption.
Qed.

End SelectionPositivity.

(** C9.  On a non-empty pool [selectNextServer] returns a valid server
    index whenever it returns; it does return for a task of the list, a
    pheromone matrix of the right shape, non-negative loads and a positive
    weight.  The selection is the draw [u * totalProbability] with [u] in
    [[0, 1)], the probabilities are
    [pheromone^alpha / (load + weight)^beta] and their total is their sum;
    the result is the first server whose cumulative probability reaches the
    selection, or the last server when there is none.  With positive
    pheromones the selection lies in [[0, totalProbability)], the last
    cumulative probability is the total, and the fallback is never
    taken. *)
Theorem roulette_selection_is_total_and_in_range
        {S : Type} `{ServerLike S}
        (u : Q) (pool : list S) (t : nat) (pheromones : list (list Q))
        (tasks : list Q) (w : Q) (rows : nat) :
  pool <> [] ->
  shaped rows (length pool) pheromones -> (t < rows)%nat ->
  nth_error tasks t = Some w -> nonnegative_loads pool -> 0 < w ->
  (forall taskId pheromones' tasks' alpha beta i,
      AntColonyOptimizationLoadBalancing.selectNextServer
        u pool taskId pheromones' tasks' alpha beta = Some i ->
      (0 <= i < Vec.size pool)%Z) /\
  exists probabilities i,
    AntColonyOptimizationLoadBalancing.selectNextServer
      u pool (Z.of_nat t) pheromones tasks
      AntColonyOptimizationLoadBalancing.alpha
      AntColonyOptimizationLoadBalancing.beta
    = Some (Z.of_nat i) /\
    (i < length pool)%nat /\
    length probabilities = length pool /\
    (forall s server x,
        nth_error pool s = Some server -> entry pheromones t s = Some x ->
        nth_error probabilities s
        = Some (pow x AntColonyOptimizationLoadBalancing.alpha
                * (1 / pow (getLoad server + w)
                           AntColonyOptimizationLoadBalancing.beta))) /\
    ((0 + u * (sum probabilities - 0) <= cumulative probabilities i /\
      forall j, (j < i)%nat ->
                cumulative probabilities j < 0 + u * (sum probabilities - 0))
     \/
     (i = (length pool - 1)%nat /\
      forall j, (j < length pool)%nat ->
                cumulative probabilities j < 0 + u * (sum probabilities - 0))) /\
    (positive_matrix pheromones -> 0 <= u -> u < 1 ->
     0 <= 0 + u * (sum probabilities - 0) /\
     0 + u * (sum probabilities - 0) < sum probabilities /\
     cumulative probabilities (length pool - 1) = sum probabilities /\
     0 + u * (sum probabilities - 0) <= cumulative probabilities i /\
     forall j, (j < i)%nat ->
               cumulative probabilities j < 0 + u * (sum probabilities - 0)).
Proof.
  intros Hne Hsh Ht Hw Hnn Hwpos. split.
  - intros taskId pheromones' tasks' alpha beta i.
    now apply selectNextServer_in_range.
  - assert (Hdef : forall server, In server pool ->
               ~ pow (getLoad server + w)
                     AntColonyOptimizationLoadBalancing.beta == 0).
    { intros server Hin.
      unfold nonnegative_loads in Hnn. rewrite Forall_forall in Hnn.
      specialize (Hnn server Hin). simpl in Hnn.
      assert (0 < pow (getLoad server + w)
                      AntColonyOptimizationLoadBalancing.beta)
        by (apply Qpower_0_lt; lra).
      lra. }
    destruct (selectNextServer_effect u pool t pheromones tasks w rows
                AntColonyOptimizationLoadBalancing.alpha
                AntColonyOptimizationLoadBalancing.beta
                Hne Hsh Ht Hw Hdef)
      as (probs & i & Hlen & Hent & Hsel & Hi & Hcases).
    exists probs, i.
    split; [exact Hsel|]. split; [exact Hi|]. split; [exact Hlen|].
    split; [exact Hent|]. split; [exact Hcases|].
    intros Hpos Hu0 Hu1.
    pose proof (probabilities_nonnegative pool t pheromones w rows probs
                  Hsh Ht Hpos Hnn Hwpos Hlen Hent) as Hprobs.
    assert (Hne' : probs <> []).
    { intros ->. destruct pool; [contradiction|discriminate]. }
    assert (Hnonneg : Forall (fun p => 0 <= p) probs).
    { eapply Forall_impl; [|exact Hprobs]. simpl. intros p Hp. lra. }
    assert (Htotal : 0 < sum probs).
    { destruct probs as [|p probs]; [contradiction|].
      inversion Hprobs as [|? ? Hp Hrest]; subst.
      inversion Hnonneg as [|? ? _ Hrest']; subst.
      rewrite sum_cons. pose proof (sum_nonneg probs Hrest'). lra. }
    assert (Hprod : 0 <= u * sum probs)
      by (apply Qmult_le_0_compat; lra).
    assert (Hprod' : 0 < (1 - u) * sum probs)
      by (apply Qmult_lt_0_compat; lra).
    split; [lra|]. split; [lra|].
    split; [rewrite <- Hlen; now apply cumulative_last|].
    destruct Hcases as [Hfirst|[_ Hnone]]; [exact Hfirst|].
    exfalso. apply (selection_reached u probs Hne' Hnonneg Hu0 Hu1).
    now rewrite Hlen.
Qed.

Lemma roulette_selection_is_total_and_in_range_witness :
  Examples.loaded_trio <> [] /\
  shaped 2 (length Examples.loaded_trio) [[1; 1; 1]; [1 # 2; 2; 3]] /\
  (1 < 2)%nat /\
  nth_error [4; 1] 1 = Some 1 /\
  nonnegative_loads Examples.loaded_trio /\
  0 < 1 /\
  exists i,
    AntColonyOptimizationLoadBalancing.selectNextServer
      (1 # 2) Examples.loaded_trio (Z.of_nat 1)
      [[1; 1; 1]; [1 # 2; 2; 3]] [4; 1]
      AntColonyOptimizationLoadBalancing.alpha
      AntColonyOptimizationLoadBalancing.beta
    = Some (Z.of_nat i) /\
    (i < length Examples.loaded_trio)%nat.
Proof.
  assert (Hne : Examples.loaded_trio <> []) by discriminate.
  assert (Hsh : shaped 2 (length Examples.loaded_trio)
                       [[1; 1; 1]; [1 # 2; 2; 3]]).
  { split; [reflexivity|]. repeat constructor. }
  assert (Ht : (1 < 2)%nat) by lia.
  assert (Hw : nth_error [4; 1] 1 = Some 1) by reflexivity.
  assert (Hnn : nonnegative_loads Examples.loaded_trio).
  { repeat constructor; discriminate. }
  assert (Hpos : 0 < 1) by reflexivity.
  split; [exact Hne|]. split; [exact Hsh|]. split; [exact Ht|].
  split; [exact Hw|]. split; [exact Hnn|]. split; [exact Hpos|].
  destruct (proj2 (roulette_selection_is_total_and_in_range
                     (1 # 2) Examples.loaded_trio 1
                     [[1; 1; 1]; [1 # 2; 2; 3]] [4; 1] 1 2
                     Hne Hsh Ht Hw Hnn Hpos))
    as (probabilities & i & Hsel & Hi & _).
  exists i. split; [exact Hsel|exact Hi].
Defined.

(** ** Weighted round-robin and active clustering agree *)

(** C10 (as the code has it).  On every pool whose loads are all zero and
    whose first server has identifier 0, and for every task sequence,
    Weighted-Round-Robin (cursor starting at 0) and Active-Clustering are
    in step: they end with the same pool, server by server, or are both
    undefined (empty pool, or an identifier that is not an index); on a
    non-empty pool the cursor Weighted-Round-Robin holds for the task at
    position [k], recomputed after the task before it, is what the scan
    of Active-Clustering computes before placing that task.  When every
    identifier is an index of the pool both return, and this common
    choice is the identifier of the first server of minimum load: no
    server of the pool as the tasks before [k] left it has a smaller load
    than that server, and every server before it has a larger one.  When
    moreover the server at position [i] has identifier [i] (the pools the
    [LoadBalancer] constructors build, see [Plain_LoadBalancer_fresh] and
    its two siblings), both policies give the task to the first server of
    minimum load itself. *)
Theorem least_loaded_policies_agree
        {S : Type} `{ServerLike S} `{!ServerLaws S}
        (pool : list S) (tasks : list Q) :
  unloaded pool -> first_id_zero pool ->
  option_map WeightedRoundRobinLoadBalancing.servers
    (exec (WeightedRoundRobinLoadBalancing.balanceLoad tasks)
          (WeightedRoundRobinLoadBalancing.new pool))
  = option_map ActiveClusteringLoadBalancing.servers
      (exec (ActiveClusteringLoadBalancing.balanceLoad tasks)
            (ActiveClusteringLoadBalancing.new pool)) /\
  (pool <> [] ->
   forall k,
     WeightedRoundRobin_choice pool tasks k
     = ActiveClustering_choice pool tasks k) /\
  (pool <> [] -> ids_in_range pool ->
   (exists w a,
       exec (WeightedRoundRobinLoadBalancing.balanceLoad tasks)
            (WeightedRoundRobinLoadBalancing.new pool) = Some w /\
       exec (ActiveClusteringLoadBalancing.balanceLoad tasks)
            (ActiveClusteringLoadBalancing.new pool) = Some a /\
       WeightedRoundRobinLoadBalancing.servers w
       = ActiveClusteringLoadBalancing.servers a) /\
   forall k,
   exists (j : nat) (s : S) (a : ActiveClusteringLoadBalancing.t),
     exec (ActiveClusteringLoadBalancing.balanceLoad (firstn k tasks))
          (ActiveClusteringLoadBalancing.new pool) = Some a /\
     first_minimum (ActiveClusteringLoadBalancing.servers a) j s /\
     WeightedRoundRobin_choice pool tasks k = Some (getId s) /\
     ActiveClustering_choice pool tasks k = Some (getId s) /\
     (0 <= getId s < Vec.size pool)%Z /\
     (well_indexed pool -> getId s = Z.of_nat j)).
Proof.
  intros Hun Hzero.
  destruct pool as [|s0 pool].
  - split; [|split; intros Hne; contradiction].
    destruct tasks as [|w tasks]; [reflexivity|].
    unfold exec, WeightedRoundRobinLoadBalancing.new,
      ActiveClusteringLoadBalancing.new.
    rewrite WeightedRoundRobin_cons, ActiveClustering_cons. reflexivity.
  - assert (Hscan : min_scan (s0 :: pool) = Some 0%Z).
    { rewrite (min_scan_unloaded s0 pool Hun). f_equal.
      apply Hzero. reflexivity. }
    assert (Hrange : (0 <= 0 < Vec.size (s0 :: pool))%Z).
    { unfold Vec.size. simpl length. lia. }
    assert (Hstep : forall ts,
               match exec (WeightedRoundRobinLoadBalancing.balanceLoad ts)
                          (WeightedRoundRobinLoadBalancing.new (s0 :: pool)),
                     exec (ActiveClusteringLoadBalancing.balanceLoad ts)
                          (ActiveClusteringLoadBalancing.new (s0 :: pool))
               with
               | Some w, Some a =>
                   WeightedRoundRobinLoadBalancing.servers w
                   = ActiveClusteringLoadBalancing.servers a /\
                   min_scan (ActiveClusteringLoadBalancing.servers a)
                   = Some (WeightedRoundRobinLoadBalancing.currentServer w)
               | None, None => True
               | _, _ => False
               end).
    { intros ts. exact (least_loaded_in_step ts (s0 :: pool) 0 Hscan). }
    assert (Hboth : ids_in_range (s0 :: pool) -> forall ts,
               exists w a,
                 exec (WeightedRoundRobinLoadBalancing.balanceLoad ts)
                      (WeightedRoundRobinLoadBalancing.new (s0 :: pool))
                 = Some w /\
                 exec (ActiveClusteringLoadBalancing.balanceLoad ts)
                      (ActiveClusteringLoadBalancing.new (s0 :: pool))
                 = Some a /\
                 WeightedRoundRobinLoadBalancing.servers w
                 = ActiveClusteringLoadBalancing.servers a /\
                 min_scan (ActiveClusteringLoadBalancing.servers a)
                 = Some (WeightedRoundRobinLoadBalancing.currentServer w) /\
                 ids_in_range (ActiveClusteringLoadBalancing.servers a) /\
                 Vec.size (ActiveClusteringLoadBalancing.servers a)
                 = Vec.size (s0 :: pool)).
    { intros Hids ts.
      destruct (WeightedRoundRobin_returns ts (s0 :: pool) 0 Hids Hrange)
        as (w & Hw & Hids' & Hsize).
      specialize (Hstep ts).
      unfold WeightedRoundRobinLoadBalancing.new in Hstep |- *.
      rewrite Hw in Hstep |- *.
      destruct (exec (ActiveClusteringLoadBalancing.balanceLoad ts) _)
        as [a|]; [|contradiction].
      destruct Hstep as [Heq Hmin].
      exists w, a. rewrite <- Heq in Hmin |- *. repeat split; assumption. }
    split; [|split].
    + specialize (Hstep tasks).
      destruct (exec (WeightedRoundRobinLoadBalancing.balanceLoad tasks) _)
        as [w|],
        (exec (ActiveClusteringLoadBalancing.balanceLoad tasks) _) as [a|];
        try contradiction; [|reflexivity].
      simpl. f_equal. apply Hstep.
    + intros _ k. specialize (Hstep (firstn k tasks)).
      unfold WeightedRoundRobin_choice, ActiveClustering_choice.
      destruct (exec (WeightedRoundRobinLoadBalancing.balanceLoad
                        (firstn k tasks)) _) as [w|],
        (exec (ActiveClusteringLoadBalancing.balanceLoad (firstn k tasks)) _)
        as [a|]; try contradiction; [|reflexivity].
      symmetry. apply Hstep.
    + intros _ Hids. split.
      * destruct (Hboth Hids tasks) as (w & a & Hw & Ha & Heq & _).
        exists w, a. auto.
      * intros k.
        destruct (Hboth Hids (firstn k tasks))
          as (w & a & Hw & Ha & Heq & Hmin & Hids' & Hsize).
        assert (Hne' : ActiveClusteringLoadBalancing.servers a <> []).
        { intros Hnil. rewrite Hnil in Hsize. unfold Vec.size in Hsize.
          simpl in Hsize. lia. }
        destruct (min_scan_first_minimum
                    (ActiveClusteringLoadBalancing.servers a) Hne')
          as (j & s & Hj & Hfirst).
        exists j, s, a.
        unfold WeightedRoundRobin_choice, ActiveClustering_choice.
        rewrite Hw, Ha.
        assert (Hcursor : WeightedRoundRobinLoadBalancing.currentServer w
                          = getId s) by congruence.
        rewrite Hcursor. split; [reflexivity|]. split; [exact Hfirst|].
        split; [reflexivity|]. split; [exact Hj|]. split.
        -- rewrite <- Hsize. unfold ids_in_range in Hids'.
           rewrite Forall_forall in Hids'. apply Hids'.
           destruct Hfirst as (Hnth & _). eapply nth_error_In; eassumption.
        -- intros Hwi.
           destruct (WeightedRoundRobin_defined (firstn k tasks) (s0 :: pool)
                       0 Hwi Hrange) as (w' & Hw' & Hwi' & _).
           unfold WeightedRoundRobinLoadBalancing.new in Hw.
           rewrite Hw in Hw'. injection Hw' as <-.
           rewrite Heq in Hwi'. apply Hwi'. apply Hfirst.
Qed.

Lemma least_loaded_policies_agree_witness :
  unloaded Examples.plain_pair /\
  first_id_zero Examples.plain_pair /\
  Examples.plain_pair <> [] /\
  ids_in_range Examples.plain_pair /\
  well_indexed Examples.plain_pair /\
  option_map WeightedRoundRobinLoadBalancing.servers
    (exec (WeightedRoundRobinLoadBalancing.balanceLoad [3; 1; 1; 2])
          (WeightedRoundRobinLoadBalancing.new Examples.plain_pair))
  = option_map ActiveClusteringLoadBalancing.servers
      (exec (ActiveClusteringLoadBalancing.balanceLoad [3; 1; 1; 2])
            (ActiveClusteringLoadBalancing.new Examples.plain_pair)) /\
  (forall k,
     WeightedRoundRobin_choice Examples.plain_pair [3; 1; 1; 2] k
     = ActiveClustering_choice Examples.plain_pair [3; 1; 1; 2] k) /\
  (exists w a,
      exec (WeightedRoundRobinLoadBalancing.balanceLoad [3; 1; 1; 2])
           (WeightedRoundRobinLoadBalancing.new Examples.plain_pair)
      = Some w /\
      exec (ActiveClusteringLoadBalancing.balanceLoad [3; 1; 1; 2])
           (ActiveClusteringLoadBalancing.new Examples.plain_pair)
      = Some a /\
      WeightedRoundRobinLoadBalancing.servers w
      = ActiveClusteringLoadBalancing.servers a) /\
  forall k,
  exists (j : nat) (s : Plain.Server) (a : ActiveClusteringLoadBalancing.t),
    exec (ActiveClusteringLoadBalancing.balanceLoad
            (firstn k [3; 1; 1; 2]))
         (ActiveClusteringLoadBalancing.new Examples.plain_pair) = Some a /\
    first_minimum (ActiveClusteringLoadBalancing.servers a) j s /\
    WeightedRoundRobin_choice Examples.plain_pair [3; 1; 1; 2] k
    = Some (getId s) /\
    ActiveClustering_choice Examples.plain_pair [3; 1; 1; 2] k
    = Some (getId s) /\
    (0 <= getId s < Vec.size Examples.plain_pair)%Z /\
    getId s = Z.of_nat j.
Proof.
  assert (Hne : Examples.plain_pair <> []) by discriminate.
  pose proof plain_pair_fresh as (_ & Hwi & Hun).
  pose proof (well_indexed_first_id_zero _ Hwi) as Hzero.
  pose proof (well_indexed_ids_in_range _ Hwi) as Hids.
  destruct (least_loaded_policies_agree
              Examples.plain_pair [3; 1; 1; 2] Hun Hzero)
    as (Hsame & Hchoice & Hfirst).
  destruct (Hfirst Hne Hids) as (Hreturn & Hmin).
  split; [exact Hun|]. split; [exact Hzero|]. split; [exact Hne|].
  split; [exact Hids|]. split; [exact Hwi|]. split; [exact Hsame|].
  split; [exact (Hchoice Hne)|]. split; [exact Hreturn|].
  intros k. destruct (Hmin k) as (j & s & a & Ha & Hm & Hw & Hc & Hr & Hpos).
  exists j, s, a. split; [exact Ha|]. split; [exact Hm|].
  split; [exact Hw|]. split; [exact Hc|]. split; [exact Hr|].
  exact (Hpos Hwi).
Defined.

(** C10 as stated fails on a pool whose first server does not have
    identifier 0: with two idle servers that carry the identifiers 1 and
    0, in this order, and the tasks 3 and 1, Weighted-Round-Robin places
    both tasks on the first server (loads 4 and 0) and Active-Clustering
    both on the second (loads 0 and 4). *)
Lemma swapped_identifiers_separate_the_policies :
  unloaded Examples.swapped_pair /\
  ids_in_range Examples.swapped_pair /\
  exec (WeightedRoundRobinLoadBalancing.balanceLoad [3; 1])
       (WeightedRoundRobinLoadBalancing.new Examples.swapped_pair)
  = Some {| WeightedRoundRobinLoadBalancing.servers :=
              [{| Plain.id := 1; Plain.load := 4 |};
               {| Plain.id := 0; Plain.load := 0 |}];
            WeightedRoundRobinLoadBalancing.currentServer := 0 |} /\
  exec (ActiveClusteringLoadBalancing.balanceLoad [3; 1])
       (ActiveClusteringLoadBalancing.new Examples.swapped_pair)
  = Some {| ActiveClusteringLoadBalancing.servers :=
              [{| Plain.id := 1; Plain.load := 0 |};
               {| Plain.id := 0; Plain.load := 4 |}] |} /\
  WeightedRoundRobin_choice Examples.swapped_pair [3; 1] 0 = Some 0%Z /\
  ActiveClustering_choice Examples.swapped_pair [3; 1] 0 = Some 1%Z /\
  map getLoad [{| Plain.id := 1; Plain.load := 4 |};
               {| Plain.id := 0; Plain.load := 0 |}]
  <> map getLoad [{| Plain.id := 1; Plain.load := 0 |};
                  {| Plain.id := 0; Plain.load := 4 |}].
Proof.
  split; [repeat constructor|].
  split; [repeat constructor; simpl; lia|].
  split; [vm_compute; reflexivity|]. split; [vm_compute; reflexivity|].
  split; [reflexivity|]. split; [reflexivity|]. discriminate.
Qed.

(** * Properties in double arithmetic *)

Import PrimFloat.
Set Warnings "-inexact-float".

(** ** The two server classes *)

#[global] Instance binary64_plain_laws :
  Binary64.ServerLaws Binary64.Plain.Server.
Proof. constructor; reflexivity. Qed.

#[global] Instance binary64_capacitated_laws :
  Binary64.ServerLaws Binary64.Capacitated.Server.
Proof. constructor; reflexivity. Qed.

(** ** The total of a pool *)

Section Binary64Servers.
Context {S : Type} `{Binary64.ServerLike S} `{!Binary64.ServerLaws S}.

Lemma binary64_pool_load_accumulate (pool : list S) :
  Binary64.pool_load pool
  = Binary64.accumulate 0 (map Binary64.getLoad pool).
Proof.
  unfold Binary64.pool_load, Binary64.LoadBalancer.getTotalLoad,
    Binary64.accumulate.
  simpl Binary64.LoadBalancer.servers.
  generalize 0%float as acc.
  induction pool as [|s pool IH]; intros acc; [reflexivity|].
  simpl. apply IH.
Qed.

End Binary64Servers.

(** ** The tasks a server receives *)

Lemma received_snoc (choices : list nat) (tasks : list float)
      (c : nat) (w : float) (i : nat) :
  length choices = length tasks ->
  Binary64.received (choices ++ [c]) (tasks ++ [w]) i
  = Binary64.received choices tasks i ++ (if (c =? i)%nat then [w] else []).
Proof.
  intros Hlen. unfold Binary64.received.
  rewrite (combine_app_eq choices [c] tasks [w] Hlen).
  rewrite filter_app, map_app. simpl.
  destruct (c =? i)%nat; reflexivity.
Qed.

Lemma received_cons (choices : list nat) (tasks : list float)
      (c : nat) (w : float) (i : nat) :
  Binary64.received (c :: choices) (w :: tasks) i
  = (if (c =? i)%nat then [w] else []) ++ Binary64.received choices tasks i.
Proof.
  unfold Binary64.received. simpl. destruct (c =? i)%nat; reflexivity.
Qed.

(** With one server, it receives every task. *)
Lemma received_single (choices : list nat) (tasks : list float) :
  length choices = length tasks ->
  Forall (fun c => (c < 1)%nat) choices ->
  Binary64.received choices tasks 0 = tasks.
Proof.
  revert tasks.
  induction choices as [|c choices IH]; intros [|w tasks] Hlen Hall;
    try discriminate; [reflexivity|].
  inversion Hall as [|c' l' Hc Hrest]; subst.
  rewrite received_cons, IH; [|simpl in Hlen; lia|assumption].
  assert (c = 0)%nat as -> by lia. reflexivity.
Qed.

Lemma concat_received_cons (c : nat) (w : float) (R : nat -> list float)
      (l : list nat) :
  NoDup l ->
  Permutation
    (concat (map (fun i => (if (c =? i)%nat then [w] else []) ++ R i) l))
    ((if existsb (Nat.eqb c) l then [w] else []) ++ concat (map R l)).
Proof.
  induction l as [|i l IH]; intros Hnd; [reflexivity|].
  inversion Hnd as [|i' l' Hnotin Hnd']; subst. simpl.
  destruct (Nat.eqb_spec c i) as [->|Hci].
  - simpl. assert (Hex : existsb (Nat.eqb i) l = false).
    { apply not_true_is_false. intros Hex. apply existsb_exists in Hex.
      destruct Hex as (x & Hx & Heq). apply Nat.eqb_eq in Heq. subst x.
      contradiction. }
    specialize (IH Hnd'). rewrite Hex in IH. simpl in IH.
    constructor. now apply Permutation_app_head.
  - simpl. specialize (IH Hnd').
    destruct (existsb (Nat.eqb c) l).
    + simpl in *.
      transitivity (R i ++ w :: concat (map R l)).
      * now apply Permutation_app_head.
      * symmetry. apply Permutation_middle.
    + simpl in *. now apply Permutation_app_head.
Qed.

(** Together the servers receive every task once. *)
Lemma received_partition (n : nat) (choices : list nat)
      (tasks : list float) :
  length choices = length tasks ->
  Forall (fun c => (c < n)%nat) choices ->
  Permutation
    (concat (map (Binary64.received choices tasks) (seq 0 n))) tasks.
Proof.
  revert tasks.
  induction choices as [|c choices IH]; intros [|w tasks] Hlen Hall;
    try discriminate.
  - unfold Binary64.received. simpl.
    induction (seq 0 n); [reflexivity|assumption].
  - inversion Hall as [|c' l' Hc Hrest]; subst.
    rewrite (map_ext _ (fun i => (if (c =? i)%nat then [w] else [])
                                 ++ Binary64.received choices tasks i)
                     (fun i => received_cons choices tasks c w i)).
    rewrite (concat_received_cons c w _ (seq 0 n) (seq_NoDup n 0)).
    assert (Hex : existsb (Nat.eqb c) (seq 0 n) = true).
    { apply existsb_exists. exists c. split; [apply in_seq; lia|].
      apply Nat.eqb_refl. }
    rewrite Hex. simpl. constructor. apply IH; [simpl in Hlen; lia|assumption].
Qed.

(** ** Loops that give each task to one server *)

Section Binary64Placement.
Context {S : Type} `{Binary64.ServerLike S} `{!Binary64.ServerLaws S}.

Lemma assigns_start (pool : list S) : Binary64.assigns pool [] [] pool.
Proof.
  split; [reflexivity|]. split; [constructor|]. split; [reflexivity|].
  intros i s Hi. exists s. repeat split; assumption.
Qed.

Lemma assigns_step (pool cur cur' : list S) (choices : list nat)
      (done : list float) (i : Z) (w : float) :
  Binary64.assigns pool choices done cur ->
  Vec.modify i (Binary64.addLoad w) cur = Some cur' ->
  Binary64.assigns pool (choices ++ [Z.to_nat i]) (done ++ [w]) cur'.
Proof.
  intros (Hlen & Hall & Hsize & Hload) Hm.
  pose proof (modify_in_range _ _ _ _ Hm) as Hrange.
  pose proof (modify_size _ _ _ _ Hm) as Hsize'.
  unfold Vec.size in Hrange, Hsize'.
  split; [rewrite !length_app; simpl; lia|].
  split.
  { apply Forall_app. split; [assumption|]. constructor; [lia|constructor]. }
  split; [lia|].
  intros k s Hk. destruct (Hload k s Hk) as (s' & Hs' & Hid & Hl).
  rewrite (modify_nth_error _ _ _ _ Hm k), Hs', (received_snoc _ _ _ _ _ Hlen).
  destruct (Nat.eqb_spec k (Z.to_nat i)) as [->|Hki].
  - rewrite Nat.eqb_refl.
    exists (Binary64.addLoad w s'). split; [reflexivity|].
    split; [now rewrite Binary64.getId_addLoad|].
    rewrite Binary64.getLoad_addLoad, Hl. unfold Binary64.accumulate.
    now rewrite fold_left_app.
  - assert ((Z.to_nat i =? k)%nat = false) as -> by (apply Nat.eqb_neq; lia).
    exists s'. split; [reflexivity|]. split; [assumption|].
    now rewrite app_nil_r.
Qed.

(** A loop whose every round adds the weight of its element to one server
    of the pool gives every task to exactly one server. *)
Lemma placing_loop {St X : Type} (servers : St -> list S)
      (weight : X -> float) (body : X -> Method St unit)
      (Inv : St -> Prop) (pool : list S) :
  (forall st x, Inv st -> length (servers st) = length pool ->
     exists i pool' st',
       body x st = Some (tt, st') /\
       Vec.modify i (Binary64.addLoad (weight x)) (servers st) = Some pool' /\
       servers st' = pool' /\ Inv st') ->
  forall xs st, Inv st -> servers st = pool ->
    exists st' choices,
      for_each xs body st = Some (tt, st') /\
      Binary64.assigns pool choices (map weight xs) (servers st') /\
      Inv st'.
Proof.
  intros Hbody xs st Hinv Hst.
  destruct (for_each_invariant
              (fun done st' =>
                 Inv st' /\
                 exists choices,
                   Binary64.assigns pool choices (map weight done)
                                    (servers st'))
              body xs) with (st := st) as (st' & Hrun & Hinv' & choices & Ha).
  - intros done x rest st1 _ (Hinv1 & choices & Ha).
    assert (Hlen : length (servers st1) = length pool) by apply Ha.
    destruct (Hbody st1 x Hinv1 Hlen) as (i & pool' & st2 & Hb & Hm & Hs & Hi).
    exists st2. split; [assumption|]. split; [assumption|].
    exists (choices ++ [Z.to_nat i]). rewrite map_app, Hs. simpl.
    eapply assigns_step; eassumption.
  - split; [assumption|]. exists []. rewrite Hst. apply assigns_start.
  - exists st', choices. auto.
Qed.

Lemma binary64_places (A : Type) (servers : A -> list S) (pool : list S)
      (tasks : list float) (final : option A) (r : A) (choices : list nat) :
  final = Some r ->
  Binary64.assigns pool choices tasks (servers r) ->
  Binary64.places_every_task final servers pool tasks.
Proof.
  intros Hr Ha. exists r, choices. split; [assumption|].
  split; [assumption|]. split.
  - apply received_partition; apply Ha.
  - apply binary64_pool_load_accumulate.
Qed.

Lemma binary64_size_positive (pool : list S) :
  pool <> [] -> (0 < Vec.size pool)%Z.
Proof.
  intros Hne. unfold Vec.size.
  destruct pool; [contradiction|simpl length; lia].
Qed.

Lemma binary64_ids_assign (pool pool' : list S) (i : Z) (w : float) :
  Binary64.ids_in_range pool ->
  Vec.modify i (Binary64.addLoad w) pool = Some pool' ->
  Binary64.ids_in_range pool'.
Proof.
  intros Hids Hm. pose proof (modify_size _ _ _ _ Hm) as Hsize.
  unfold Binary64.ids_in_range in *. rewrite Hsize.
  apply modify_split in Hm. destruct Hm as (_ & a & x & b & -> & _ & ->).
  rewrite Forall_app in *. destruct Hids as [Ha Hxb].
  inversion Hxb as [|? ? Hx Hb]; subst.
  split; [assumption|]. constructor; [|assumption].
  now rewrite Binary64.getId_addLoad.
Qed.

(** The scan returns the identifier of a server of the pool. *)
Lemma binary64_min_scan_fold (rest : list S) :
  forall (pool : list S) (s : S),
    In s pool -> incl rest pool ->
    exists s', In s' pool /\
               fold_left Binary64.min_scan_step rest
                         (Binary64.getLoad s, Binary64.getId s)
               = (Binary64.getLoad s', Binary64.getId s').
Proof.
  induction rest as [|x rest IH]; intros pool s Hs Hincl.
  - exists s. split; [assumption|reflexivity].
  - simpl. unfold Binary64.min_scan_step at 2. simpl fst.
    destruct (Binary64.getLoad x <? Binary64.getLoad s)%float.
    + apply IH; [apply Hincl; now left|].
      intros y Hy. apply Hincl. now right.
    + apply IH; [assumption|]. intros y Hy. apply Hincl. now right.
Qed.

Lemma binary64_min_scan_in_range (pool : list S) :
  pool <> [] -> Binary64.ids_in_range pool ->
  exists i, Binary64.min_scan pool = Some i /\ (0 <= i < Vec.size pool)%Z.
Proof.
  intros Hne Hids. destruct pool as [|s0 pool]; [contradiction|].
  unfold Binary64.min_scan.
  change (Vec.at_ (s0 :: pool) 0%Z) with (Some s0).
  destruct (binary64_min_scan_fold (s0 :: pool) (s0 :: pool) s0)
    as (s' & Hin & Hfold); [now left|apply incl_refl|].
  rewrite Hfold. simpl snd. eexists. split; [reflexivity|].
  unfold Binary64.ids_in_range in Hids. rewrite Forall_forall in Hids.
  now apply Hids.
Qed.

Lemma binary64_Random_places (rd : RandomDevice) (pool : list S)
      (tasks : list float) :
  fair rd -> pool <> [] ->
  Binary64.places_every_task
    (exec (Binary64.RandomLoadBalancing.balanceLoad rd tasks)
          (Binary64.RandomLoadBalancing.new pool))
    Binary64.RandomLoadBalancing.servers pool tasks.
Proof.
  intros Hfair Hne. pose proof (binary64_size_positive pool Hne) as Hn.
  destruct (placing_loop Binary64.RandomLoadBalancing.servers
              (fun p : nat * float => snd p)
              (fun '(k, taskLoad) =>
                 this <- get ;;
                 randomServer <- lift (uniform_int rd k 0 (Vec.size pool - 1)) ;;
                 servers' <- lift (Vec.modify randomServer
                                     (Binary64.addLoad taskLoad)
                                     (Binary64.RandomLoadBalancing.servers this)) ;;
                 put {| Binary64.RandomLoadBalancing.servers := servers' |})
              (fun _ => True) pool)
    with (xs := enumerate tasks) (st := Binary64.RandomLoadBalancing.new pool)
    as (r & choices & Hrun & Ha & _).
  - intros st [k w] _ Hlen.
    destruct (uniform_int_in_range rd k (Vec.size pool) Hfair Hn)
      as (i & Hi & Hrange).
    destruct (modify_defined (Binary64.addLoad w)
                (Binary64.RandomLoadBalancing.servers st) i) as (pool' & Hm).
    { unfold Vec.size in *. lia. }
    exists i, pool'. eexists. unfold bind, get, lift, put.
    rewrite Hi, Hm. simpl snd. auto.
  - exact I.
  - reflexivity.
  - rewrite enumerate_snd in Ha.
    apply (binary64_places _ _ pool tasks _ r choices); [|assumption].
    unfold exec, Binary64.RandomLoadBalancing.balanceLoad, bind at 1, get at 1.
    simpl Binary64.RandomLoadBalancing.servers. now rewrite Hrun.
Qed.

Lemma binary64_RoundRobin_places (pool : list S) (tasks : list float) :
  pool <> [] ->
  Binary64.places_every_task
    (exec (Binary64.RoundRobinLoadBalancing.balanceLoad tasks)
          (Binary64.RoundRobinLoadBalancing.new pool))
    Binary64.RoundRobinLoadBalancing.servers pool tasks.
Proof.
  intros Hne. pose proof (binary64_size_positive pool Hne) as Hn.
  destruct (placing_loop Binary64.RoundRobinLoadBalancing.servers
              (fun w : float => w)
              (fun taskLoad =>
                 this <- get ;;
                 servers' <- lift (Vec.modify
                                     (Binary64.RoundRobinLoadBalancing.currentServer this)
                                     (Binary64.addLoad taskLoad)
                                     (Binary64.RoundRobinLoadBalancing.servers this)) ;;
                 next <- lift (Binary64.RoundRobinLoadBalancing.advance
                                 (Binary64.RoundRobinLoadBalancing.currentServer this)
                                 (Vec.size servers')) ;;
                 put {| Binary64.RoundRobinLoadBalancing.servers := servers';
                        Binary64.RoundRobinLoadBalancing.currentServer := next |})
              (fun st =>
                 (0 <= Binary64.RoundRobinLoadBalancing.currentServer st
                  < Vec.size pool)%Z)
              pool)
    with (xs := tasks) (st := Binary64.RoundRobinLoadBalancing.new pool)
    as (r & choices & Hrun & Ha & _).
  - intros [cur cursor] w Hc Hlen. simpl in Hc, Hlen.
    destruct (modify_defined (Binary64.addLoad w) cur cursor) as (pool' & Hm).
    { unfold Vec.size in *. lia. }
    pose proof (modify_size _ _ _ _ Hm) as Hsize.
    assert (Hsize' : Vec.size pool' = Vec.size pool).
    { unfold Vec.size in *. lia. }
    exists cursor, pool'. eexists. unfold bind, get, lift, put.
    simpl. rewrite Hm. unfold Binary64.RoundRobinLoadBalancing.advance.
    rewrite Hsize'. destruct (Z.eqb_spec (Vec.size pool) 0); [lia|].
    split; [reflexivity|]. split; [reflexivity|]. split; [reflexivity|].
    simpl. apply Z.mod_pos_bound. lia.
  - simpl. lia.
  - reflexivity.
  - rewrite map_id in Ha.
    apply (binary64_places _ _ pool tasks _ r choices); [|assumption].
    unfold exec, Binary64.RoundRobinLoadBalancing.balanceLoad.
    now rewrite Hrun.
Qed.

Lemma binary64_WeightedRoundRobin_places (pool : list S)
      (tasks : list float) :
  pool <> [] -> Binary64.ids_in_range pool ->
  Binary64.places_every_task
    (exec (Binary64.WeightedRoundRobinLoadBalancing.balanceLoad tasks)
          (Binary64.WeightedRoundRobinLoadBalancing.new pool))
    Binary64.WeightedRoundRobinLoadBalancing.servers pool tasks.
Proof.
  intros Hne Hids. pose proof (binary64_size_positive pool Hne) as Hn.
  destruct (placing_loop Binary64.WeightedRoundRobinLoadBalancing.servers
              (fun w : float => w)
              (fun taskLoad =>
                 this <- get ;;
                 servers' <- lift (Vec.modify
                                     (Binary64.WeightedRoundRobinLoadBalancing.currentServer this)
                                     (Binary64.addLoad taskLoad)
                                     (Binary64.WeightedRoundRobinLoadBalancing.servers this)) ;;
                 put {| Binary64.WeightedRoundRobinLoadBalancing.servers := servers';
                        Binary64.WeightedRoundRobinLoadBalancing.currentServer :=
                          Binary64.WeightedRoundRobinLoadBalancing.currentServer this |} ;;
                 Binary64.WeightedRoundRobinLoadBalancing.updateCurrentServer)
              (fun st =>
                 Binary64.ids_in_range
                   (Binary64.WeightedRoundRobinLoadBalancing.servers st) /\
                 (0 <= Binary64.WeightedRoundRobinLoadBalancing.currentServer st
                  < Vec.size pool)%Z)
              pool)
    with (xs := tasks) (st := Binary64.WeightedRoundRobinLoadBalancing.new pool)
    as (r & choices & Hrun & Ha & _).
  - intros [cur cursor] w [Hids1 Hc] Hlen. simpl in Hids1, Hc, Hlen.
    destruct (modify_defined (Binary64.addLoad w) cur cursor) as (pool' & Hm).
    { unfold Vec.size in *. lia. }
    pose proof (modify_size _ _ _ _ Hm) as Hsize.
    pose proof (binary64_ids_assign _ _ _ _ Hids1 Hm) as Hids2.
    destruct (binary64_min_scan_in_range pool') as (next & Hscan & Hnext);
      [|assumption|].
    { eapply modify_nonempty; eassumption. }
    exists cursor, pool'. eexists.
    unfold bind, get, lift, put,
      Binary64.WeightedRoundRobinLoadBalancing.updateCurrentServer.
    simpl. rewrite Hm. unfold bind, get, lift, put. simpl. rewrite Hscan.
    split; [reflexivity|]. split; [reflexivity|]. split; [reflexivity|].
    simpl. split; [assumption|]. unfold Vec.size in *. lia.
  - simpl. split; [assumption|lia].
  - reflexivity.
  - rewrite map_id in Ha.
    apply (binary64_places _ _ pool tasks _ r choices); [|assumption].
    unfold exec, Binary64.WeightedRoundRobinLoadBalancing.balanceLoad.
    now rewrite Hrun.
Qed.

Lemma binary64_ActiveClustering_places (pool : list S)
      (tasks : list float) :
  pool <> [] -> Binary64.ids_in_range pool ->
  Binary64.places_every_task
    (exec (Binary64.ActiveClusteringLoadBalancing.balanceLoad tasks)
          (Binary64.ActiveClusteringLoadBalancing.new pool))
    Binary64.ActiveClusteringLoadBalancing.servers pool tasks.
Proof.
  intros Hne Hids.
  destruct (placing_loop Binary64.ActiveClusteringLoadBalancing.servers
              (fun w : float => w)
              (fun taskLoad =>
                 this <- get ;;
                 minLoadServer <-
                   lift (Binary64.min_scan
                           (Binary64.ActiveClusteringLoadBalancing.servers this)) ;;
                 servers' <- lift (Vec.modify minLoadServer
                                     (Binary64.addLoad taskLoad)
                                     (Binary64.ActiveClusteringLoadBalancing.servers this)) ;;
                 put {| Binary64.ActiveClusteringLoadBalancing.servers := servers' |})
              (fun st =>
                 Binary64.ids_in_range
                   (Binary64.ActiveClusteringLoadBalancing.servers st))
              pool)
    with (xs := tasks) (st := Binary64.ActiveClusteringLoadBalancing.new pool)
    as (r & choices & Hrun & Ha & _).
  - intros [cur] w Hids1 Hlen. simpl in Hids1, Hlen.
    assert (Hne1 : cur <> []).
    { intros ->. destruct pool; [contradiction|discriminate]. }
    destruct (binary64_min_scan_in_range cur Hne1 Hids1)
      as (i & Hscan & Hrange).
    destruct (modify_defined (Binary64.addLoad w) cur i Hrange)
      as (pool' & Hm).
    exists i, pool'. eexists. unfold bind, get, lift, put.
    simpl. rewrite Hscan, Hm.
    split; [reflexivity|]. split; [reflexivity|]. split; [reflexivity|].
    simpl. eapply binary64_ids_assign; eassumption.
  - assumption.
  - reflexivity.
  - rewrite map_id in Ha.
    apply (binary64_places _ _ pool tasks _ r choices); [|assumption].
    unfold exec, Binary64.ActiveClusteringLoadBalancing.balanceLoad.
    now rewrite Hrun.
Qed.

Lemma binary64_placeholder_places (rd : RandomDevice) (pool : list S)
      (tasks : list float) :
  fair rd -> pool <> [] ->
  Binary64.places_every_task
    (exec (Binary64.AntColonyOptimizationLoadBalancing.balanceLoad_placeholder
             rd tasks)
          (Binary64.AntColonyOptimizationLoadBalancing.new pool))
    Binary64.AntColonyOptimizationLoadBalancing.servers pool tasks.
Proof.
  intros Hfair Hne. pose proof (binary64_size_positive pool Hne) as Hn.
  destruct (placing_loop Binary64.AntColonyOptimizationLoadBalancing.servers
              (fun p : nat * float => snd p)
              (fun '(k, taskLoad) =>
                 this <- get ;;
                 randomServer <-
                   lift (Binary64.AntColonyOptimizationLoadBalancing.getRandomServer
                           rd k this) ;;
                 servers' <- lift (Vec.modify randomServer
                                     (Binary64.addLoad taskLoad)
                                     (Binary64.AntColonyOptimizationLoadBalancing.servers this)) ;;
                 put {| Binary64.AntColonyOptimizationLoadBalancing.servers := servers' |})
              (fun _ => True) pool)
    with (xs := enumerate tasks)
         (st := Binary64.AntColonyOptimizationLoadBalancing.new pool)
    as (r & choices & Hrun & Ha & _).
  - intros st [k w] _ Hlen.
    assert (Hsize : Vec.size (Binary64.AntColonyOptimizationLoadBalancing.servers st)
                    = Vec.size pool).
    { unfold Vec.size. now rewrite Hlen. }
    destruct (uniform_int_in_range rd k (Vec.size pool) Hfair Hn)
      as (i & Hi & Hrange).
    destruct (modify_defined (Binary64.addLoad w)
                (Binary64.AntColonyOptimizationLoadBalancing.servers st) i)
      as (pool' & Hm).
    { lia. }
    exists i, pool'. eexists. unfold bind, get, lift, put,
      Binary64.AntColonyOptimizationLoadBalancing.getRandomServer.
    rewrite Hsize, Hi, Hm. simpl snd. auto.
  - exact I.
  - reflexivity.
  - rewrite enumerate_snd in Ha.
    apply (binary64_places _ _ pool tasks _ r choices); [|assumption].
    unfold exec,
      Binary64.AntColonyOptimizationLoadBalancing.balanceLoad_placeholder.
    now rewrite Hrun.
Qed.

End Binary64Placement.

(** ** The ant-colony policy of the plain program *)

Lemma binary64_shaped_row (rows cols : nat) (m : list (list float))
      (t : nat) :
  Binary64.shaped rows cols m -> (t < rows)%nat ->
  exists row, nth_error m t = Some row /\ length row = cols.
Proof.
  intros [Hlen Hrows] Ht.
  destruct (nth_error m t) as [row|] eqn:Hrow;
    [|apply nth_error_None in Hrow; lia].
  exists row. split; [reflexivity|].
  rewrite Forall_forall in Hrows. apply Hrows.
  eapply nth_error_In; eassumption.
Qed.

Lemma binary64_modify2_defined (rows cols : nat) (m : list (list float))
      (t s : nat) (f : float -> float) :
  Binary64.shaped rows cols m -> (t < rows)%nat -> (s < cols)%nat ->
  exists m',
    Binary64.AntColonyOptimizationLoadBalancing.modify2
      (Z.of_nat t) (Z.of_nat s) f m = Some (tt, m') /\
    Binary64.shaped rows cols m'.
Proof.
  intros Hsh Ht Hs.
  destruct (binary64_shaped_row rows cols m t Hsh Ht) as (row & Hrow & Hlen).
  destruct (modify_defined f row (Z.of_nat s)) as (row' & Hrow').
  { unfold Vec.size. lia. }
  destruct Hsh as [Hrows Hall].
  destruct (modify_defined (fun _ => row') m (Z.of_nat t)) as (m' & Hm').
  { unfold Vec.size. lia. }
  exists m'.
  unfold Binary64.AntColonyOptimizationLoadBalancing.modify2,
    bind, get, lift, put.
  rewrite at_of_nat, Hrow, Hrow', Hm'. split; [reflexivity|].
  pose proof (modify_size _ _ _ _ Hm') as Hsize. unfold Vec.size in Hsize.
  split; [lia|].
  apply modify_split in Hm'. destruct Hm' as (_ & a & x & b & -> & _ & ->).
  apply Forall_app in Hall. destruct Hall as [Ha Hb].
  inversion Hb as [|x' b' Hx Hb']; subst.
  apply Forall_app. split; [assumption|]. constructor; [|assumption].
  apply modify_size in Hrow'. unfold Vec.size in Hrow'. lia.
Qed.

(** Two nested counting loops whose body rewrites one entry in range
    keep the shape of the matrix, and are defined. *)
Lemma binary64_sweep_defined (rows cols : nat)
      (body : Z -> Z -> Method (list (list float)) unit) :
  (forall t s m, (t < rows)%nat -> (s < cols)%nat ->
     Binary64.shaped rows cols m ->
     exists m', body (Z.of_nat t) (Z.of_nat s) m = Some (tt, m') /\
                Binary64.shaped rows cols m') ->
  forall m, Binary64.shaped rows cols m ->
  exists m',
    for_each (Vec.range (Z.of_nat rows))
             (fun t => for_each (Vec.range (Z.of_nat cols))
                                (fun s => body t s)) m
    = Some (tt, m') /\
    Binary64.shaped rows cols m'.
Proof.
  intros Hbody m Hsh.
  apply (for_range_invariant (fun _ m' => Binary64.shaped rows cols m'));
    [|assumption].
  intros t m1 Ht Hsh1.
  apply (for_range_invariant (fun _ m' => Binary64.shaped rows cols m'));
    [|assumption].
  intros s m2 Hs Hsh2. now apply Hbody.
Qed.

Section Binary64AntColony.
Context {S : Type} `{Binary64.ServerLike S} `{!Binary64.ServerLaws S}.

Lemma binary64_updatePheromones_defined (pool : list S)
      (taskLoads : list float) (rho Q0 : float) (m : list (list float)) :
  Binary64.shaped (length taskLoads) (length pool) m ->
  exists m',
    exec (Binary64.AntColonyOptimizationLoadBalancing.updatePheromones
            pool taskLoads rho Q0) m = Some m' /\
    Binary64.shaped (length taskLoads) (length pool) m'.
Proof.
  intros Hsh.
  assert (Hevaporate :
            exists m1,
              Binary64.AntColonyOptimizationLoadBalancing.evaporate
                (Vec.size taskLoads) (Vec.size pool) rho m = Some (tt, m1) /\
              Binary64.shaped (length taskLoads) (length pool) m1).
  { unfold Binary64.AntColonyOptimizationLoadBalancing.evaporate, Vec.size.
    apply (binary64_sweep_defined (length taskLoads) (length pool)
             (fun taskId serverId =>
                Binary64.AntColonyOptimizationLoadBalancing.modify2
                  taskId serverId (fun x => (x * (1 - rho))%float)));
      [|assumption].
    intros t s m0 Ht Hs Hsh0. now apply binary64_modify2_defined. }
  destruct Hevaporate as (m1 & Hm1 & Hsh1).
  assert (Hdeposit :
            exists m2,
              Binary64.AntColonyOptimizationLoadBalancing.deposit
                pool taskLoads (Vec.size taskLoads) (Vec.size pool) Q0 m1
              = Some (tt, m2) /\
              Binary64.shaped (length taskLoads) (length pool) m2).
  { unfold Binary64.AntColonyOptimizationLoadBalancing.deposit, Vec.size.
    apply (binary64_sweep_defined (length taskLoads) (length pool)
             (fun taskId serverId =>
                server <- lift (Vec.at_ pool serverId) ;;
                taskLoad <- lift (Vec.at_ taskLoads taskId) ;;
                let deltaPheromone :=
                  (Q0 / (Binary64.getLoad server + taskLoad))%float in
                Binary64.AntColonyOptimizationLoadBalancing.modify2
                  taskId serverId (fun x => (x + deltaPheromone)%float)));
      [|assumption].
    intros t s m0 Ht Hs Hsh0.
    destruct (nth_error pool s) as [server|] eqn:Hserver;
      [|apply nth_error_None in Hserver; lia].
    destruct (nth_error taskLoads t) as [w|] eqn:Hw;
      [|apply nth_error_None in Hw; lia].
    unfold bind, lift. rewrite !at_of_nat, Hserver, Hw.
    now apply binary64_modify2_defined. }
  destruct Hdeposit as (m2 & Hm2 & Hsh2).
  exists m2.
  unfold exec, Binary64.AntColonyOptimizationLoadBalancing.updatePheromones,
    bind.
  rewrite Hm1, Hm2. auto.
Qed.

Lemma binary64_iteration_body_effect (taskLoads : list float)
      (pool : list S) (m : list (list float)) :
  Binary64.shaped (length taskLoads) (length pool) m ->
  exists m',
    Binary64.AntColonyOptimizationLoadBalancing.iteration_body taskLoads
      ({| Binary64.AntColonyOptimizationLoadBalancing.servers := pool |}, m)
    = Some (tt, ({| Binary64.AntColonyOptimizationLoadBalancing.servers :=
                      map Binary64.resetLoad pool |}, m')) /\
    Binary64.shaped (length taskLoads) (length (map Binary64.resetLoad pool))
                    m'.
Proof.
  intros Hsh.
  destruct (binary64_updatePheromones_defined pool taskLoads
              Binary64.AntColonyOptimizationLoadBalancing.rho
              Binary64.AntColonyOptimizationLoadBalancing.deposit_Q m Hsh)
    as (m' & Hm' & Hsh').
  exists m'. unfold Binary64.AntColonyOptimizationLoadBalancing.iteration_body.
  simpl Binary64.AntColonyOptimizationLoadBalancing.servers.
  rewrite Hm'. split; [reflexivity|]. now rewrite length_map.
Qed.

Lemma binary64_initial_shaped (rows cols : nat) :
  Binary64.shaped rows cols (repeat (repeat 1%float cols) rows).
Proof.
  split; [apply repeat_length|].
  apply Forall_forall. intros row Hrow. apply repeat_spec in Hrow.
  subst row. apply repeat_length.
Qed.

(** The main loop resets the pool once per iteration. *)
Lemma binary64_balanceLoad_with_effect (n : nat) (taskLoads : list float)
      (pool : list S) :
  exec (Binary64.AntColonyOptimizationLoadBalancing.balanceLoad_with
          (Z.of_nat n) taskLoads)
       (Binary64.AntColonyOptimizationLoadBalancing.new pool)
  = Some {| Binary64.AntColonyOptimizationLoadBalancing.servers :=
              Nat.iter n (map Binary64.resetLoad) pool |}.
Proof.
  unfold exec, Binary64.AntColonyOptimizationLoadBalancing.balanceLoad_with.
  destruct (for_range_invariant
              (fun k (st : Binary64.AntColonyOptimizationLoadBalancing.t
                           * list (list float)) =>
                 fst st
                 = {| Binary64.AntColonyOptimizationLoadBalancing.servers :=
                        Nat.iter k (map Binary64.resetLoad) pool |} /\
                 Binary64.shaped (length taskLoads)
                   (length (Nat.iter k (map Binary64.resetLoad) pool))
                   (snd st))
              (fun _ => Binary64.AntColonyOptimizationLoadBalancing.iteration_body
                          taskLoads) n)
    with (st := (Binary64.AntColonyOptimizationLoadBalancing.new pool,
                 repeat (repeat 1%float (length pool)) (length taskLoads)))
    as ([r m] & Hrun & Hr & _).
  - intros k [this m] _ [Hthis Hsh]. simpl in Hthis, Hsh. subst this.
    destruct (binary64_iteration_body_effect taskLoads _ m Hsh)
      as (m' & Hbody & Hsh').
    eexists. split; [exact Hbody|]. split; [reflexivity|exact Hsh'].
  - split; [reflexivity|]. apply binary64_initial_shaped.
  - simpl Binary64.AntColonyOptimizationLoadBalancing.servers.
    unfold exec. rewrite Hrun. simpl in Hr. now subst r.
Qed.

Lemma binary64_resets_ids (n : nat) (pool : list S) :
  map Binary64.getId (Nat.iter n (map Binary64.resetLoad) pool)
  = map Binary64.getId pool.
Proof.
  induction n as [|n IH]; [reflexivity|].
  simpl. rewrite map_map, <- IH. apply map_ext.
  intros s. apply Binary64.getId_resetLoad.
Qed.

Lemma binary64_resets_loads (n : nat) (pool : list S) :
  (0 < n)%nat ->
  Forall (fun s => Binary64.getLoad s = 0%float)
         (Nat.iter n (map Binary64.resetLoad) pool).
Proof.
  intros Hn. destruct n as [|n]; [lia|]. simpl.
  apply Forall_forall. intros s Hs. apply in_map_iff in Hs.
  destruct Hs as (s0 & <- & _). apply Binary64.getLoad_resetLoad.
Qed.

Lemma binary64_pool_load_zero (pool : list S) :
  Forall (fun s => Binary64.getLoad s = 0%float) pool ->
  Binary64.pool_load pool = 0%float.
Proof.
  intros Hall. rewrite binary64_pool_load_accumulate.
  induction Hall as [|s pool Hs _ IH]; [reflexivity|].
  simpl. rewrite Hs. exact IH.
Qed.

End Binary64AntColony.

(** ** The pools the constructors build *)

Section Binary64Constructors.
Context {S : Type} `{Binary64.ServerLike S}.

(** The constructor loop builds the pool of the servers [make 0], ...,
    [make (n - 1)]. *)
Lemma binary64_fill_effect (n : nat) (make : Z -> option S) :
  (forall i, (i < n)%nat -> exists s, make (Z.of_nat i) = Some s) ->
  exists pool,
    exec (Binary64.LoadBalancer.fill (Z.of_nat n) make)
         {| Binary64.LoadBalancer.servers := [] |}
    = Some {| Binary64.LoadBalancer.servers := pool |} /\
    length pool = n /\
    forall i, (i < n)%nat -> nth_error pool i = make (Z.of_nat i).
Proof.
  intros Hmake. unfold exec, Binary64.LoadBalancer.fill.
  destruct (for_range_invariant
              (fun (k : nat) (st : Binary64.LoadBalancer.t) =>
                 length (Binary64.LoadBalancer.servers st) = k /\
                 forall i, (i < k)%nat ->
                           nth_error (Binary64.LoadBalancer.servers st) i
                           = make (Z.of_nat i))
              (fun i =>
                 this <- get ;;
                 server <- lift (make i) ;;
                 put {| Binary64.LoadBalancer.servers :=
                          Binary64.LoadBalancer.servers this ++ [server] |})
              n) with {| Binary64.LoadBalancer.servers := @nil S |}
    as ([pool] & Hrun & HI).
  - intros k [pool1] Hk (Hlen & Hnth). simpl in Hlen, Hnth.
    destruct (Hmake k Hk) as (s & Hs).
    unfold bind, get, lift, put. rewrite Hs.
    eexists. split; [reflexivity|]. simpl. split.
    + rewrite length_app. simpl. lia.
    + intros i Hi. destruct (Nat.eq_dec i k) as [->|Hne].
      * rewrite nth_error_app2, Hlen, Nat.sub_diag by lia. simpl.
        now rewrite Hs.
      * rewrite nth_error_app1 by lia. apply Hnth. lia.
  - simpl. split; [reflexivity|]. intros i Hi. lia.
  - rewrite Hrun. exists pool. simpl in HI. tauto.
Qed.

(** A pool of idle servers with the server at position [i] numbered [i]
    has its identifiers in range and no load. *)
Lemma binary64_positions_in_range (pool : list S) :
  (forall i s, nth_error pool i = Some s ->
               Binary64.getId s = Z.of_nat i /\
               Binary64.getLoad s = 0%float) ->
  Binary64.ids_in_range pool /\
  Forall (fun s => Binary64.getLoad s = 0%float) pool.
Proof.
  intros Hnth. split; apply Forall_forall; intros s Hs;
    apply In_nth_error in Hs; destruct Hs as (i & Hi);
    destruct (Hnth i s Hi) as [Hid Hload]; [|assumption].
  rewrite Hid.
  assert (i < length pool)%nat by (apply nth_error_Some; congruence).
  unfold Vec.size. lia.
Qed.

End Binary64Constructors.

Lemma binary64_Plain_LoadBalancer_pool (numServers : Z) :
  (0 < numServers)%Z ->
  exists lb, Binary64.Plain_LoadBalancer numServers = Some lb /\
             Vec.size (Binary64.LoadBalancer.servers lb) = numServers /\
             Binary64.ids_in_range (Binary64.LoadBalancer.servers lb) /\
             Forall (fun s => Binary64.getLoad s = 0%float)
                    (Binary64.LoadBalancer.servers lb).
Proof.
  intros Hn. unfold Binary64.Plain_LoadBalancer.
  destruct (binary64_fill_effect (Z.to_nat numServers)
              (fun i => Some (Binary64.Plain.newServer i)))
    as (pool & Hrun & Hlen & Hnth).
  { intros i _. eexists. reflexivity. }
  rewrite Z2Nat.id in Hrun by lia. rewrite Hrun.
  eexists. split; [reflexivity|]. simpl Binary64.LoadBalancer.servers.
  split; [unfold Vec.size; lia|].
  apply binary64_positions_in_range. intros i s Hi.
  assert (Hlt : (i < Z.to_nat numServers)%nat)
    by (rewrite <- Hlen; apply nth_error_Some; congruence).
  rewrite (Hnth i Hlt) in Hi. injection Hi as <-. split; reflexivity.
Qed.

Lemma binary64_Capacitated_LoadBalancer_pool (capabilities : list Z) :
  exists lb, Binary64.Capacitated_LoadBalancer capabilities = Some lb /\
             map Binary64.getCapability (Binary64.LoadBalancer.servers lb)
             = capabilities /\
             Binary64.ids_in_range (Binary64.LoadBalancer.servers lb) /\
             Forall (fun s => Binary64.getLoad s = 0%float)
                    (Binary64.LoadBalancer.servers lb).
Proof.
  unfold Binary64.Capacitated_LoadBalancer, Vec.size.
  destruct (binary64_fill_effect (length capabilities)
              (fun i => match Vec.at_ capabilities i with
                        | Some c => Some (Binary64.Capacitated.newServer i c)
                        | None => None
                        end))
    as (pool & Hrun & Hlen & Hnth).
  { intros i Hi. rewrite at_of_nat.
    destruct (nth_error capabilities i) eqn:E;
      [|apply nth_error_None in E; lia].
    eexists. reflexivity. }
  rewrite Hrun. eexists. split; [reflexivity|].
  simpl Binary64.LoadBalancer.servers.
  assert (Hat : forall i s, nth_error pool i = Some s ->
                 exists c, nth_error capabilities i = Some c /\
                           s = Binary64.Capacitated.newServer (Z.of_nat i) c).
  { intros i s Hi.
    assert (Hlt : (i < length capabilities)%nat)
      by (rewrite <- Hlen; apply nth_error_Some; congruence).
    rewrite (Hnth i Hlt), at_of_nat in Hi.
    destruct (nth_error capabilities i) as [c|]; [|discriminate].
    injection Hi as <-. eauto. }
  split.
  - apply nth_error_ext. intros i. rewrite nth_error_map.
    destruct (nth_error pool i) as [s|] eqn:E.
    + destruct (Hat i s E) as (c & Hc & ->). simpl. now rewrite Hc.
    + simpl. symmetry. apply nth_error_None. apply nth_error_None in E. lia.
  - apply binary64_positions_in_range. intros i s Hi.
    destruct (Hat i s Hi) as (c & _ & ->). split; reflexivity.
Qed.

(** ** Conservation of the assigned work *)

Section Binary64Direct.
Context {S : Type} `{Binary64.ServerLike S} `{!Binary64.ServerLaws S}.

Lemma binary64_blind_policies (rd : RandomDevice) (pool : list S)
      (tasks : list float) :
  fair rd -> pool <> [] -> Binary64.blind_policies_place rd pool tasks.
Proof.
  intros Hfair Hne. split.
  - now apply binary64_Random_places.
  - now apply binary64_RoundRobin_places.
Qed.

Lemma binary64_least_loaded_policies (pool : list S) (tasks : list float) :
  pool <> [] -> Binary64.ids_in_range pool ->
  Binary64.least_loaded_policies_place pool tasks.
Proof.
  intros Hne Hids. split.
  - now apply binary64_WeightedRoundRobin_places.
  - now apply binary64_ActiveClustering_places.
Qed.

(** On one server every task goes to it. *)
Lemma binary64_one_server (A : Type) (final : option A)
      (servers : A -> list S) (s : S) (tasks : list float) :
  Binary64.places_every_task final servers [s] tasks ->
  Binary64.returns_one_server final servers s
    (Binary64.accumulate (Binary64.getLoad s) tasks).
Proof.
  intros (r & choices & Hr & (Hlen & Hall & Hsize & Hload) & _ & _).
  destruct (Hload 0%nat s eq_refl) as (s' & Hs' & Hid & Hl).
  rewrite (received_single choices tasks Hlen Hall) in Hl.
  exists r, s'. split; [assumption|].
  assert (Hfinal : servers r = [s']).
  { destruct (servers r) as [|x [|y rest]]; try discriminate.
    simpl in Hs'. now injection Hs' as ->. }
  split; [assumption|]. split; [assumption|]. split; [assumption|].
  rewrite Hfinal, <- Hl. reflexivity.
Qed.

Lemma binary64_blind_policies_one_server (rd : RandomDevice) (s : S)
      (tasks : list float) :
  fair rd ->
  Binary64.blind_policies_one_server rd s tasks
    (Binary64.accumulate (Binary64.getLoad s) tasks).
Proof.
  intros Hfair.
  assert (Hne : [s] <> []) by discriminate.
  destruct (binary64_blind_policies rd [s] tasks Hfair Hne) as (R & RR).
  split; now apply binary64_one_server.
Qed.

Lemma binary64_least_loaded_policies_one_server (s : S)
      (tasks : list float) :
  Binary64.getId s = 0%Z ->
  Binary64.least_loaded_policies_one_server s tasks
    (Binary64.accumulate (Binary64.getLoad s) tasks).
Proof.
  intros Hid.
  assert (Hne : [s] <> []) by discriminate.
  assert (Hids : Binary64.ids_in_range [s]).
  { constructor; [|constructor]. rewrite Hid. unfold Vec.size. simpl. lia. }
  destruct (binary64_least_loaded_policies [s] tasks Hne Hids) as (W & A).
  split; now apply binary64_one_server.
Qed.

Lemma binary64_returns_unloaded (n : nat) (tasks : list float)
      (pool : list S) :
  (0 < n)%nat ->
  Binary64.returns_unloaded
    (exec (Binary64.AntColonyOptimizationLoadBalancing.balanceLoad_with
             (Z.of_nat n) tasks)
          (Binary64.AntColonyOptimizationLoadBalancing.new pool))
    Binary64.AntColonyOptimizationLoadBalancing.servers pool.
Proof.
  intros Hn. eexists. split; [apply binary64_balanceLoad_with_effect|].
  simpl Binary64.AntColonyOptimizationLoadBalancing.servers.
  split; [apply binary64_resets_ids|].
  pose proof (binary64_resets_loads n pool Hn) as Hloads.
  split; [assumption|]. now apply binary64_pool_load_zero.
Qed.

End Binary64Direct.

(** C1 (as the code has it).  For every non-empty pool and every task
    sequence, a single [balanceLoad] call of the Random or the Round-Robin
    policy returns and has given every task to exactly one server; so
    does a call of the Weighted-Round-Robin or the Active-Clustering
    policy when every identifier is an index of the pool, as in the pools
    the [LoadBalancer] constructors build, where the server at position
    [i] has identifier [i] (see [binary64_Plain_LoadBalancer_pool] and
    [binary64_Capacitated_LoadBalancer_pool]).  With the two [Server] classes that accumulate
    the weights in a [double] (plain program, second listing of
    [performance_comparison.cpp]) the load of a server is then the load it
    had, zero in a fresh pool, plus the weights it received, added in
    arrival order in double arithmetic; the weights the servers received
    are together the task weights, each once; and [getTotalLoad] adds the
    loads in server order from [0.0].  With the [Server] class of the
    first listing, whose [getLoad] is the length of its task queue, the
    loads of a pool that starts with empty queues total the number of
    tasks. *)
Theorem assigned_work_is_conserved
        (rd : RandomDevice) (tasks : list float)
        (plain : list Binary64.Plain.Server)
        (capacitated : list Binary64.Capacitated.Server)
        (counted : list Q) (queued : list Queued.Server) :
  fair rd -> plain <> [] -> capacitated <> [] ->
  queued <> [] -> unloaded queued ->
  (Binary64.blind_policies_place rd plain tasks /\
   (Binary64.ids_in_range plain ->
    Binary64.least_loaded_policies_place plain tasks)) /\
  (Binary64.blind_policies_place rd capacitated tasks /\
   (Binary64.ids_in_range capacitated ->
    Binary64.least_loaded_policies_place capacitated tasks)) /\
  (blind_policies_total rd queued counted (count counted) /\
   (ids_in_range queued ->
    least_loaded_policies_total queued counted (count counted))).
Proof.
  intros Hfair Hp Hc Hq Hun. split; [|split]; split.
  - now apply binary64_blind_policies.
  - intros Hids. now apply binary64_least_loaded_policies.
  - now apply binary64_blind_policies.
  - intros Hids. now apply binary64_least_loaded_policies.
  - pose proof (blind_policies_gain (fun _ => 1) rd queued counted
                  Hfair Hq Hun) as (R & RR).
    pose proof (sum_of_ones counted) as Hones.
    split; eapply returns_with_total_eq; eassumption.
  - intros Hids.
    pose proof (least_loaded_policies_gain (fun _ => 1) queued counted
                  Hq Hun Hids) as (W & A).
    pose proof (sum_of_ones counted) as Hones.
    split; eapply returns_with_total_eq; eassumption.
Qed.

Lemma assigned_work_is_conserved_witness :
  fair Examples.device /\
  Binary64.Examples.plain_pair <> [] /\
  Binary64.Examples.capacitated_pair <> [] /\
  Examples.queued_pair <> [] /\
  unloaded Examples.queued_pair /\
  Binary64.ids_in_range Binary64.Examples.plain_pair /\
  Binary64.ids_in_range Binary64.Examples.capacitated_pair /\
  ids_in_range Examples.queued_pair /\
  (Binary64.blind_policies_place Examples.device
     Binary64.Examples.plain_pair [1.1; 2.2; 3.3]%float /\
   Binary64.least_loaded_policies_place
     Binary64.Examples.plain_pair [1.1; 2.2; 3.3]%float) /\
  (Binary64.blind_policies_place Examples.device
     Binary64.Examples.capacitated_pair [1.1; 2.2; 3.3]%float /\
   Binary64.least_loaded_policies_place
     Binary64.Examples.capacitated_pair [1.1; 2.2; 3.3]%float) /\
  (blind_policies_total Examples.device Examples.queued_pair
     [3; 1 # 2; 2] (count [3; 1 # 2; 2]) /\
   least_loaded_policies_total Examples.queued_pair
     [3; 1 # 2; 2] (count [3; 1 # 2; 2])).
Proof.
  assert (Hp : Binary64.Examples.plain_pair <> []) by discriminate.
  assert (Hc : Binary64.Examples.capacitated_pair <> []) by discriminate.
  assert (Hq : Examples.queued_pair <> []) by discriminate.
  assert (Hun : unloaded Examples.queued_pair)
    by (repeat constructor).
  assert (Hpi : Binary64.ids_in_range Binary64.Examples.plain_pair)
    by (repeat constructor; discriminate).
  assert (Hci : Binary64.ids_in_range Binary64.Examples.capacitated_pair)
    by (repeat constructor; discriminate).
  assert (Hqi : ids_in_range Examples.queued_pair)
    by (repeat constructor; discriminate).
  destruct (assigned_work_is_conserved Examples.device [1.1; 2.2; 3.3]%float
              Binary64.Examples.plain_pair Binary64.Examples.capacitated_pair
              [3; 1 # 2; 2] Examples.queued_pair
              device_fair Hp Hc Hq Hun)
    as ((Pb & Pl) & (Cb & Cl) & (Qb & Ql)).
  split; [exact device_fair|].
  split; [exact Hp|]. split; [exact Hc|]. split; [exact Hq|].
  split; [exact Hun|]. split; [exact Hpi|]. split; [exact Hci|].
  split; [exact Hqi|].
  split; [exact (conj Pb (Pl Hpi))|].
  split; [exact (conj Cb (Cl Hci))|].
  exact (conj Qb (Ql Hqi)).
Defined.

(** C1 as stated fails, in three ways.  In double arithmetic the total of
    the loads is not always the sum of the weights: Round-Robin on two
    servers of the plain program and the weights 1.1, 2.2, 3.3 leaves the
    loads 4.4 and 2.2, which [getTotalLoad] totals to 6.6000000000000005,
    while the weights added in sequence give 6.6.  On a pool with an
    identifier that is not an index (two idle servers numbered 1 and 2),
    Weighted-Round-Robin indexes the pool out of its bounds at the second
    task.  On one server of the first listing and the single task of weight
    3, Round-Robin leaves a total load of 1, not 3. *)
Lemma total_load_is_not_always_the_sum_of_the_weights :
  (exec (Binary64.RoundRobinLoadBalancing.balanceLoad [1.1; 2.2; 3.3]%float)
        (Binary64.RoundRobinLoadBalancing.new Binary64.Examples.plain_pair)
   = Some {| Binary64.RoundRobinLoadBalancing.servers :=
               [{| Binary64.Plain.id := 0; Binary64.Plain.load := 4.4 |};
                {| Binary64.Plain.id := 1; Binary64.Plain.load := 2.2 |}];
             Binary64.RoundRobinLoadBalancing.currentServer := 1 |} /\
   Binary64.pool_load
     [{| Binary64.Plain.id := 0; Binary64.Plain.load := 4.4 |};
      {| Binary64.Plain.id := 1; Binary64.Plain.load := 2.2 |}]
   = 6.6000000000000005%float /\
   Binary64.accumulate 0 [1.1; 2.2; 3.3]%float = 6.6%float /\
   6.6000000000000005%float <> 6.6%float) /\
  (Binary64.Examples.one_based_pair <> [] /\
   Forall (fun s => Binary64.getLoad s = 0%float)
          Binary64.Examples.one_based_pair /\
   exec (Binary64.WeightedRoundRobinLoadBalancing.balanceLoad [1; 1]%float)
        (Binary64.WeightedRoundRobinLoadBalancing.new
           Binary64.Examples.one_based_pair)
   = None) /\
  (Examples.queued_single <> [] /\
   unloaded Examples.queued_single /\
   [3] <> @nil Q /\
   exec (RoundRobinLoadBalancing.balanceLoad [3])
        (RoundRobinLoadBalancing.new Examples.queued_single)
   = Some {| RoundRobinLoadBalancing.servers :=
               [{| Queued.id := 0; Queued.capability := 1; Queued.load := 0;
                   Queued.total_load := 1; Queued.loads := [3%Z] |}];
             RoundRobinLoadBalancing.currentServer := 0 |} /\
   ~ returns_with_total
       (exec (RoundRobinLoadBalancing.balanceLoad [3])
             (RoundRobinLoadBalancing.new Examples.queued_single))
       RoundRobinLoadBalancing.servers (sum [3])).
Proof.
  split; [|split].
  - split; [reflexivity|]. split; [reflexivity|]. split; [reflexivity|].
    intros Heq.
    apply (f_equal (fun x => PrimFloat.eqb x 6.6%float)) in Heq.
    vm_compute in Heq. discriminate.
  - split; [discriminate|]. split; [repeat constructor|]. reflexivity.
  - split; [discriminate|]. split; [repeat constructor|].
    split; [discriminate|]. split; [reflexivity|].
    intros (r & Hr & Ht).
    injection Hr as <-. vm_compute in Ht. discriminate.
Qed.

(** ** Ant-colony optimisation resets the loads after every iteration *)

Lemma binary64_no_iteration {S : Type} `{Binary64.ServerLike S}
      (numIterations : Z) (tasks : list float) (pool : list S) :
  (numIterations <= 0)%Z ->
  exec (Binary64.AntColonyOptimizationLoadBalancing.balanceLoad_with
          numIterations tasks)
       (Binary64.AntColonyOptimizationLoadBalancing.new pool)
  = Some (Binary64.AntColonyOptimizationLoadBalancing.new pool).
Proof.
  intros Hn.
  unfold exec, Binary64.AntColonyOptimizationLoadBalancing.balanceLoad_with,
    Vec.range.
  assert (Z.to_nat numIterations = 0%nat) as -> by lia. reflexivity.
Qed.

(** C3 (as the code has it).  In the ant-colony policy of the plain program
    the loads are reset to zero at the end of every iteration, the last
    one included, so nothing persists: every iteration ends with the reset
    pool; for every iteration count of at least 1, and so for the count 1
    of the program, [balanceLoad] returns the servers it was given with
    every load zero, whatever the loads were before and whatever the
    tasks, and their total is zero; with no iteration at all the pool is
    returned as it was.  The ant-colony class of the second listing is a
    placeholder without iterations and without reset: it gives every task
    to one server, drawn at random, and the loads stay. *)
Theorem ant_colony_resets_after_every_iteration
        (rd : RandomDevice) (numIterations : Z) (tasks : list float)
        (pool : list Binary64.Plain.Server)
        (capacitated : list Binary64.Capacitated.Server) :
  (forall pheromones,
      Binary64.shaped (length tasks) (length pool) pheromones ->
      exists pheromones',
        Binary64.AntColonyOptimizationLoadBalancing.iteration_body tasks
          (Binary64.AntColonyOptimizationLoadBalancing.new pool, pheromones)
        = Some (tt, (Binary64.AntColonyOptimizationLoadBalancing.new
                       (map Binary64.resetLoad pool),
                     pheromones'))) /\
  ((1 <= numIterations)%Z ->
   Binary64.returns_unloaded
     (exec (Binary64.AntColonyOptimizationLoadBalancing.balanceLoad_with
              numIterations tasks)
           (Binary64.AntColonyOptimizationLoadBalancing.new pool))
     Binary64.AntColonyOptimizationLoadBalancing.servers pool) /\
  Binary64.returns_unloaded
    (exec (Binary64.AntColonyOptimizationLoadBalancing.balanceLoad tasks)
          (Binary64.AntColonyOptimizationLoadBalancing.new pool))
    Binary64.AntColonyOptimizationLoadBalancing.servers pool /\
  ((numIterations <= 0)%Z ->
   exec (Binary64.AntColonyOptimizationLoadBalancing.balanceLoad_with
           numIterations tasks)
        (Binary64.AntColonyOptimizationLoadBalancing.new pool)
   = Some (Binary64.AntColonyOptimizationLoadBalancing.new pool)) /\
  (fair rd -> capacitated <> [] ->
   Binary64.places_every_task
     (exec (Binary64.AntColonyOptimizationLoadBalancing.balanceLoad_placeholder
              rd tasks)
           (Binary64.AntColonyOptimizationLoadBalancing.new capacitated))
     Binary64.AntColonyOptimizationLoadBalancing.servers capacitated tasks).
Proof.
  split; [|split; [|split; [|split]]].
  - intros pheromones Hsh.
    destruct (binary64_iteration_body_effect tasks pool pheromones Hsh)
      as (m' & Hbody & _).
    exists m'. exact Hbody.
  - intros Hn. rewrite <- (Z2Nat.id numIterations) by lia.
    apply binary64_returns_unloaded. lia.
  - apply (binary64_returns_unloaded 1 tasks pool). lia.
  - apply binary64_no_iteration.
  - intros Hfair Hne. now apply binary64_placeholder_places.
Qed.

Lemma ant_colony_resets_after_every_iteration_witness :
  (1 <= 3)%Z /\
  Binary64.returns_unloaded
    (exec (Binary64.AntColonyOptimizationLoadBalancing.balanceLoad_with
             3 [3; 1.5]%float)
          (Binary64.AntColonyOptimizationLoadBalancing.new
             Binary64.Examples.loaded_trio))
    Binary64.AntColonyOptimizationLoadBalancing.servers
    Binary64.Examples.loaded_trio /\
  fair Examples.device /\
  Binary64.Examples.capacitated_pair <> [] /\
  Binary64.places_every_task
    (exec (Binary64.AntColonyOptimizationLoadBalancing.balanceLoad_placeholder
             Examples.device [3; 1.5]%float)
          (Binary64.AntColonyOptimizationLoadBalancing.new
             Binary64.Examples.capacitated_pair))
    Binary64.AntColonyOptimizationLoadBalancing.servers
    Binary64.Examples.capacitated_pair [3; 1.5]%float.
Proof.
  assert (Hn : (1 <= 3)%Z) by lia.
  assert (Hne : Binary64.Examples.capacitated_pair <> []) by discriminate.
  pose proof (ant_colony_resets_after_every_iteration
                Examples.device 3 [3; 1.5]%float
                Binary64.Examples.loaded_trio
                Binary64.Examples.capacitated_pair)
    as (_ & Hresets & _ & _ & Hplaceholder).
  split; [exact Hn|]. split; [exact (Hresets Hn)|].
  split; [exact device_fair|]. split; [exact Hne|].
  exact (Hplaceholder device_fair Hne).
Defined.

(** C3 as stated fails: the reset also ends the last iteration, and with
    an iteration count of 1 the final load is empty.  In the plain
    program, whose count is 1, three servers that enter [balanceLoad] with
    the loads 5, 2 and 2 (total 9) leave it with the loads 0, 0 and 0
    (total 0); and one fresh server given the single task of weight 3
    leaves it with load 0, not 3. *)
Lemma the_last_iteration_is_reset_too :
  Binary64.pool_load Binary64.Examples.loaded_trio = 9%float /\
  exec (Binary64.AntColonyOptimizationLoadBalancing.balanceLoad [3]%float)
       (Binary64.AntColonyOptimizationLoadBalancing.new
          Binary64.Examples.loaded_trio)
  = Some {| Binary64.AntColonyOptimizationLoadBalancing.servers :=
              [{| Binary64.Plain.id := 0; Binary64.Plain.load := 0 |};
               {| Binary64.Plain.id := 1; Binary64.Plain.load := 0 |};
               {| Binary64.Plain.id := 2; Binary64.Plain.load := 0 |}] |} /\
  Binary64.pool_load
    [{| Binary64.Plain.id := 0; Binary64.Plain.load := 0 |};
     {| Binary64.Plain.id := 1; Binary64.Plain.load := 0 |};
     {| Binary64.Plain.id := 2; Binary64.Plain.load := 0 |}] = 0%float /\
  exec (Binary64.AntColonyOptimizationLoadBalancing.balanceLoad [3]%float)
       (Binary64.AntColonyOptimizationLoadBalancing.new
          Binary64.Examples.plain_single)
  = Some {| Binary64.AntColonyOptimizationLoadBalancing.servers :=
              [{| Binary64.Plain.id := 0; Binary64.Plain.load := 0 |}] |} /\
  Binary64.pool_load [{| Binary64.Plain.id := 0; Binary64.Plain.load := 0 |}]
  = 0%float /\
  Binary64.accumulate 0 [3]%float = 3%float /\
  0%float <> 3%float.
Proof.
  repeat split; try reflexivity.
  intros Heq. apply (f_equal (fun x => PrimFloat.eqb x 3%float)) in Heq.
  vm_compute in Heq. discriminate.
Qed.

(** ** A pool of one server *)

(** C6 (as the code has it).  On a pool of exactly one server, with load
    zero, and for every task sequence, the policies do not all end with
    the sum of the weights.  In the plain program and in the second
    listing, Random and Round-Robin, and when the identifier of the
    server is 0 also Weighted-Round-Robin and Active-Clustering, and in
    the second listing the placeholder ant-colony policy too, return with
    the same load on the server: the task weights added in sequence order
    in double arithmetic, from [0.0]; [getTotalLoad] is [0.0] plus that
    load.  The ant-colony policy of the plain program resets the load
    after its iteration and returns with load and total [0.0].  In the
    first listing, whose servers report the length of their task queue,
    the same four policies return with a total equal to the number of
    tasks. *)
Theorem single_server_totals
        (rd : RandomDevice) (tasks : list float)
        (plain : Binary64.Plain.Server)
        (capacitated : Binary64.Capacitated.Server)
        (counted : list Q) (queued : Queued.Server) :
  fair rd ->
  Binary64.getLoad plain = 0%float ->
  Binary64.getLoad capacitated = 0%float ->
  getLoad queued == 0 ->
  (Binary64.blind_policies_one_server rd plain tasks
     (Binary64.accumulate 0 tasks) /\
   (Binary64.getId plain = 0%Z ->
    Binary64.least_loaded_policies_one_server plain tasks
      (Binary64.accumulate 0 tasks)) /\
   Binary64.returns_unloaded
     (exec (Binary64.AntColonyOptimizationLoadBalancing.balanceLoad tasks)
           (Binary64.AntColonyOptimizationLoadBalancing.new [plain]))
     Binary64.AntColonyOptimizationLoadBalancing.servers [plain]) /\
  (Binary64.blind_policies_one_server rd capacitated tasks
     (Binary64.accumulate 0 tasks) /\
   (Binary64.getId capacitated = 0%Z ->
    Binary64.least_loaded_policies_one_server capacitated tasks
      (Binary64.accumulate 0 tasks)) /\
   Binary64.returns_one_server
     (exec (Binary64.AntColonyOptimizationLoadBalancing.balanceLoad_placeholder
              rd tasks)
           (Binary64.AntColonyOptimizationLoadBalancing.new [capacitated]))
     Binary64.AntColonyOptimizationLoadBalancing.servers capacitated
     (Binary64.accumulate 0 tasks)) /\
  (blind_policies_total rd [queued] counted (count counted) /\
   (getId queued = 0%Z ->
    least_loaded_policies_total [queued] counted (count counted))).
Proof.
  intros Hfair Hpload Hcload Hqload.
  assert (Hq : [queued] <> []) by discriminate.
  assert (Hun : unloaded [queued]) by (constructor; [assumption|constructor]).
  split; [split; [|split]|split; [split; [|split]|split]].
  - rewrite <- Hpload. now apply binary64_blind_policies_one_server.
  - intros Hid. rewrite <- Hpload.
    now apply binary64_least_loaded_policies_one_server.
  - apply (binary64_returns_unloaded 1 tasks [plain]). lia.
  - rewrite <- Hcload. now apply binary64_blind_policies_one_server.
  - intros Hid. rewrite <- Hcload.
    now apply binary64_least_loaded_policies_one_server.
  - rewrite <- Hcload. apply binary64_one_server.
    apply binary64_placeholder_places; [assumption|discriminate].
  - pose proof (blind_policies_gain (fun _ => 1) rd [queued] counted
                  Hfair Hq Hun) as (R & RR).
    pose proof (sum_of_ones counted) as Hones.
    split; eapply returns_with_total_eq; eassumption.
  - intros Hid.
    assert (Hids : ids_in_range [queued]).
    { constructor; [|constructor]. rewrite Hid. unfold Vec.size. simpl. lia. }
    pose proof (least_loaded_policies_gain (fun _ => 1) [queued] counted
                  Hq Hun Hids) as (W & A).
    pose proof (sum_of_ones counted) as Hones.
    split; eapply returns_with_total_eq; eassumption.
Qed.

Lemma single_server_totals_witness :
  fair Examples.device /\
  Binary64.getLoad (Binary64.Plain.newServer 0) = 0%float /\
  Binary64.getLoad (Binary64.Capacitated.newServer 0 1) = 0%float /\
  getLoad (Queued.newServer 0 0 1) == 0 /\
  Binary64.getId (Binary64.Plain.newServer 0) = 0%Z /\
  Binary64.getId (Binary64.Capacitated.newServer 0 1) = 0%Z /\
  getId (Queued.newServer 0 0 1) = 0%Z /\
  Binary64.accumulate 0 [1.1; 2.2; 3.3]%float = 6.6%float /\
  (Binary64.blind_policies_one_server Examples.device
     (Binary64.Plain.newServer 0) [1.1; 2.2; 3.3]%float 6.6%float /\
   Binary64.least_loaded_policies_one_server
     (Binary64.Plain.newServer 0) [1.1; 2.2; 3.3]%float 6.6%float /\
   Binary64.returns_unloaded
     (exec (Binary64.AntColonyOptimizationLoadBalancing.balanceLoad
              [1.1; 2.2; 3.3]%float)
           (Binary64.AntColonyOptimizationLoadBalancing.new
              [Binary64.Plain.newServer 0]))
     Binary64.AntColonyOptimizationLoadBalancing.servers
     [Binary64.Plain.newServer 0]) /\
  (Binary64.blind_policies_one_server Examples.device
     (Binary64.Capacitated.newServer 0 1) [1.1; 2.2; 3.3]%float 6.6%float /\
   Binary64.least_loaded_policies_one_server
     (Binary64.Capacitated.newServer 0 1) [1.1; 2.2; 3.3]%float 6.6%float /\
   Binary64.returns_one_server
     (exec (Binary64.AntColonyOptimizationLoadBalancing.balanceLoad_placeholder
              Examples.device [1.1; 2.2; 3.3]%float)
           (Binary64.AntColonyOptimizationLoadBalancing.new
              [Binary64.Capacitated.newServer 0 1]))
     Binary64.AntColonyOptimizationLoadBalancing.servers
     (Binary64.Capacitated.newServer 0 1) 6.6%float) /\
  (blind_policies_total Examples.device [Queued.newServer 0 0 1]
     [2; 1 # 2] (count [2; 1 # 2]) /\
   least_loaded_policies_total [Queued.newServer 0 0 1]
     [2; 1 # 2] (count [2; 1 # 2])).
Proof.
  assert (Hq : getLoad (Queued.newServer 0 0 1) == 0) by reflexivity.
  destruct (single_server_totals Examples.device [1.1; 2.2; 3.3]%float
              (Binary64.Plain.newServer 0) (Binary64.Capacitated.newServer 0 1)
              [2; 1 # 2] (Queued.newServer 0 0 1)
              device_fair eq_refl eq_refl Hq)
    as ((Pb & Pl & Pa) & (Cb & Cl & Ca) & (Qb & Ql)).
  split; [exact device_fair|].
  split; [reflexivity|]. split; [reflexivity|]. split; [exact Hq|].
  split; [reflexivity|]. split; [reflexivity|]. split; [reflexivity|].
  split; [reflexivity|].
  split; [exact (conj Pb (conj (Pl eq_refl) Pa))|].
  split; [exact (conj Cb (conj (Cl eq_refl) Ca))|].
  exact (conj Qb (Ql eq_refl)).
Defined.

(** C6 as stated fails, in two ways.  For the ant-colony policy of the
    plain program: on its one server and the single task of weight 3,
    Round-Robin returns with load 3 and total 3, and the ant-colony policy
    with load 0 and total 0.  On one server whose identifier is not its
    position: with the identifier 5, Active-Clustering indexes the pool
    out of its bounds at the first task. *)
Lemma ant_colony_total_differs_on_one_server :
  (exec (Binary64.RoundRobinLoadBalancing.balanceLoad [3]%float)
        (Binary64.RoundRobinLoadBalancing.new Binary64.Examples.plain_single)
   = Some {| Binary64.RoundRobinLoadBalancing.servers :=
               [{| Binary64.Plain.id := 0; Binary64.Plain.load := 3 |}];
             Binary64.RoundRobinLoadBalancing.currentServer := 0 |} /\
   Binary64.pool_load [{| Binary64.Plain.id := 0; Binary64.Plain.load := 3 |}]
   = 3%float /\
   exec (Binary64.AntColonyOptimizationLoadBalancing.balanceLoad [3]%float)
        (Binary64.AntColonyOptimizationLoadBalancing.new
           Binary64.Examples.plain_single)
   = Some {| Binary64.AntColonyOptimizationLoadBalancing.servers :=
               [{| Binary64.Plain.id := 0; Binary64.Plain.load := 0 |}] |} /\
   Binary64.pool_load [{| Binary64.Plain.id := 0; Binary64.Plain.load := 0 |}]
   = 0%float /\
   Binary64.accumulate 0 [3]%float = 3%float /\
   0%float <> 3%float) /\
  (Binary64.getLoad (Binary64.Plain.newServer 5) = 0%float /\
   exec (Binary64.ActiveClusteringLoadBalancing.balanceLoad [3]%float)
        (Binary64.ActiveClusteringLoadBalancing.new
           [Binary64.Plain.newServer 5])
   = None).
Proof.
  split; [|split; reflexivity].
  repeat split; try reflexivity.
  intros Heq. apply (f_equal (fun x => PrimFloat.eqb x 3%float)) in Heq.
  vm_compute in Heq. discriminate.
Qed.

(** ** Throughput *)


Section Binary64Throughput.
Context {S : Type} `{Binary64.ServerLike S} `{Binary64.Capable S}.



End Binary64Throughput.



